(** * vennboxd: the recommendation engine of [utils.py]

    A shallow embedding of [fetch_user_data], [RecommendationEngine] and the
    TMDB helpers, followed by the properties the specification states about
    them.

    Conventions of the embedding.
    - Python [float] values are exact rationals ([Q]); [int(x)] of a float
      truncates toward zero.  Infinities and NaN are outside the model.
    - Python [dict]s whose iteration order is observable are association
      lists in insertion order ([odict]); Python [set]s are [gset]s.
    - The fields the code reads defensively ([year], [rating], [liked]) keep
      their raw dynamic value ([pyval]); the fields it uses as given
      ([name], [url], the TMDB [id] and [title]) are typed.
    - An exception is a value [Raise msg], with [msg] the text of [str(e)].
    - The HTTP layer, the letterboxd client and [random.shuffle] are oracles
      passed as arguments; the [st.cache_data] memo is the fact that an
      oracle is a function.
    - The catalog oracle returns the slug-keyed mapping, and the returned
      entries leave [debug_details] out; [extract_movies_by_slug], on the
      raw data of the client, and the [debug_details] strings are modelled
      on their own, with the callbacks of [app.py], after the engine. *)

From Stdlib Require Import QArith Lqa Ascii String Sorted.
From stdpp Require Import gmap strings list pretty.
Close Scope Q_scope.

(** ** Exceptions *)

Inductive exc (A : Type) : Type :=
| Ok (a : A)
| Raise (msg : string).
Arguments Ok {A} a.
Arguments Raise {A} msg.

#[global] Instance exc_ret : MRet exc := λ A a, Ok a.
#[global] Instance exc_bind : MBind exc := λ A B k m,
  match m with
  | Ok a => k a
  | Raise msg => Raise msg
  end.

(** A [for] loop whose body may raise: the first exception ends the loop. *)
Fixpoint for_each {A S} (body : S → A → exc S) (l : list A) (s : S) : exc S :=
  match l with
  | [] => Ok s
  | a :: l' => s' ← body s a; for_each body l' s'
  end.

(** ** Raw Python values *)

Inductive pyval : Type :=
| PyNone
| PyBool (b : bool)
| PyInt (z : Z)
| PyFloat (q : Q)
| PyStr (s : string).

(** [bool(v)] *)
Definition truthy (v : pyval) : bool :=
  match v with
  | PyNone => false
  | PyBool b => b
  | PyInt z => negb (z =? 0)%Z
  | PyFloat q => negb (Qeq_bool q 0)
  | PyStr s => negb (bool_decide (s = ""))
  end.

(** [int(x)] for a float [x]: truncation toward zero. *)
Definition float_trunc (q : Q) : Z := Z.quot (Qnum q) (Z.pos (Qden q)).

(** The [str] methods and the text parsers of the Python runtime.  Nothing is
    assumed about them; [None] from a parser stands for [ValueError]. *)
Class PyBuiltins := {
  str_strip : string → string;            (* s.strip() *)
  str_lower : string → string;            (* s.lower() *)
  slug_title : string → string;           (* s.replace("-", " ").title() *)
  str_prefix4 : string → string;          (* s[:4] *)
  int_of_str : string → option Z;         (* int(s) *)
  float_of_str : string → option Q;       (* float(s) *)
}.

(** ** Insertion-ordered dictionaries with [str] keys *)

Abbreviation odict V := (list (string * V)).

Fixpoint od_get {V} (k : string) (d : odict V) : option V :=
  match d with
  | [] => None
  | (k', v) :: d' => if decide (k' = k) then Some v else od_get k d'
  end.

(** [d[k] = v]: an existing key keeps its position, a new key goes last. *)
Fixpoint od_set {V} (k : string) (v : V) (d : odict V) : odict V :=
  match d with
  | [] => [(k, v)]
  | (k', v') :: d' =>
      if decide (k' = k) then (k, v) :: d' else (k', v') :: od_set k v d'
  end.

(** In-place mutation of the object stored under [k], as done through a
    reference to it. *)
Fixpoint od_alter {V} (f : V → V) (k : string) (d : odict V) : odict V :=
  match d with
  | [] => []
  | (k', v) :: d' =>
      if decide (k' = k) then (k', f v) :: d' else (k', v) :: od_alter f k d'
  end.

Definition od_mem {V} (k : string) (d : odict V) : bool :=
  match od_get k d with Some _ => true | None => false end.

Section Engine.
Context {py : PyBuiltins}.

(** [int(v)]; [None] stands for [TypeError] or [ValueError]. *)
Definition py_int (v : pyval) : option Z :=
  match v with
  | PyNone => None
  | PyBool b => Some (if b then 1 else 0)%Z
  | PyInt z => Some z
  | PyFloat q => Some (float_trunc q)
  | PyStr s => int_of_str s
  end.

(** [float(v)] *)
Definition py_float (v : pyval) : option Q :=
  match v with
  | PyNone => None
  | PyBool b => Some (if b then 1 else 0)%Q
  | PyInt z => Some (inject_Z z)
  | PyFloat q => Some q
  | PyStr s => float_of_str s
  end.

(** The idiom
    [try: y = int(d.get("year")) if d.get("year") else None / except: y = None] *)
Definition coerce_year (raw : pyval) : option Z :=
  if truthy raw then py_int raw else None.

(** A year as stored back into a Python object. *)
Definition py_of_year (y : option Z) : pyval :=
  match y with Some z => PyInt z | None => PyNone end.

(** [title.strip().lower()] *)
Definition normalize_title (title : string) : string :=
  str_lower (str_strip title).

(** ** Catalog data *)

(** One watchlist entry; [None] is an absent key, a missing [year] is
    [PyNone]. *)
Record wl_entry := {
  w_name : option string;
  w_year : pyval;
  w_url : option string;
}.

(** One entry of the user's films. *)
Record film_info := {
  f_name : option string;
  f_year : pyval;
  f_liked : pyval;
  f_rating : pyval;
}.

(** A value of the [ratings] mapping: [{"score", "name", "year"}]. *)
Record rating_entry := {
  r_score : Z;
  r_name : option string;
  r_year : pyval;
}.

(** What a [User] object of the letterboxd client answers, each call either
    a slug-keyed mapping or an exception. *)
Record lb_user := {
  get_watchlist_movies : exc (odict wl_entry);
  get_watchlist : exc (odict wl_entry);
  get_films : exc (odict film_info);
}.

(** [raw_films] after its [try]/[except]. *)
Definition films_of (u : lb_user) : odict film_info :=
  match get_films u with Ok d => d | Raise _ => [] end.

(** The tuple returned by [fetch_user_data]. *)
Record fetched := {
  fu_watchlist : odict wl_entry;
  fu_watched : gset string;
  fu_ratings : odict rating_entry;
  fu_liked : gset string;
  fu_watched_index : gset (string * option Z);
  fu_err : option string;
}.

(** The accumulators of the loop over [films.items()]. *)
Record film_acc := {
  fa_index : gset (string * option Z);
  fa_ratings : odict rating_entry;
  fa_liked : gset string;
}.

Definition film_step (acc : film_acc) (item : string * film_info) : film_acc :=
  let '(slug, info) := item in
  let t := normalize_title (default "" (f_name info)) in
  let y := coerce_year (f_year info) in
  let index := if decide (t = "") then fa_index acc
               else fa_index acc ∪ {[ (t, y) ]} in
  let liked := if truthy (f_liked info) then fa_liked acc ∪ {[ slug ]}
               else fa_liked acc in
  let r := f_rating info in
  let ratings :=
    if truthy r then
      match py_float r with
      | Some val =>
          if Qlt_le_dec 0 val then
            od_set slug {| r_score := float_trunc val;
                           r_name := f_name info;
                           r_year := f_year info |} (fa_ratings acc)
          else fa_ratings acc
      | None => fa_ratings acc
      end
    else fa_ratings acc in
  {| fa_index := index; fa_ratings := ratings; fa_liked := liked |}.

Definition fetch_user_data (User : string → exc lb_user) (username : string)
  : fetched :=
  match User (str_strip username) with
  | Raise msg =>
      {| fu_watchlist := []; fu_watched := ∅; fu_ratings := []; fu_liked := ∅;
         fu_watched_index := ∅; fu_err := Some msg |}
  | Ok user_instance =>
      let watchlist :=
        match get_watchlist_movies user_instance with
        | Ok d => d
        | Raise _ =>
            match get_watchlist user_instance with
            | Ok d => d
            | Raise _ => []
            end
        end in
      let films := films_of user_instance in
      let acc :=
        fold_left film_step films
          {| fa_index := ∅; fa_ratings := []; fa_liked := ∅ |} in
      {| fu_watchlist := watchlist;
         fu_watched := list_to_set (films.*1);
         fu_ratings := fa_ratings acc;
         fu_liked := fa_liked acc;
         fu_watched_index := fa_index acc;
         fu_err := None |}
  end.

(** ** The engine *)

(** A value of [self.user_data]. *)
Record profile := {
  p_watchlist : odict wl_entry;
  p_watched : gset string;
  p_ratings : odict rating_entry;
  p_liked : gset string;
  p_watched_index : gset (string * option Z);
}.

Record engine := {
  usernames : list string;
  tmdb_api_key : string;
  user_data : odict profile;
  errors : list string;
  global_watched_index : gset (string * option Z);
}.

(** [RecommendationEngine.__init__] *)
Definition init (names : list string) (api_key : string) : engine :=
  {| usernames :=
       str_strip <$> filter (λ u, str_strip u ≠ "") names;
     tmdb_api_key := api_key;
     user_data := [];
     errors := [];
     global_watched_index := ∅ |}.

(** The test [if err:] on the last component of the tuple. *)
Definition err_truthy (err : option string) : bool :=
  match err with
  | None => false
  | Some msg => negb (bool_decide (msg = ""))
  end.

(** One iteration of the loop of [fetch_data]. *)
Definition fetch_data_step (User : string → exc lb_user)
    (self : engine) (user : string) : engine :=
  let r := fetch_user_data User user in
  if err_truthy (fu_err r) then
    {| usernames := usernames self;
       tmdb_api_key := tmdb_api_key self;
       user_data := user_data self;
       errors := errors self ++ [user +:+ ": " +:+ default "" (fu_err r)];
       global_watched_index := global_watched_index self |}
  else
    {| usernames := usernames self;
       tmdb_api_key := tmdb_api_key self;
       user_data :=
         od_set user {| p_watchlist := fu_watchlist r;
                        p_watched := fu_watched r;
                        p_ratings := fu_ratings r;
                        p_liked := fu_liked r;
                        p_watched_index := fu_watched_index r |}
                (user_data self);
       errors := errors self;
       global_watched_index :=
         global_watched_index self ∪ fu_watched_index r |}.

Definition fetch_data (User : string → exc lb_user) (self : engine) : engine :=
  fold_left (fetch_data_step User) (usernames self) self.

(** [is_watched]: the exact pair must be in the group-wide index. *)
Definition is_watched (self : engine) (title : string) (year : option Z)
  : bool :=
  if decide (title = "") then false
  else bool_decide ((normalize_title title, year) ∈ global_watched_index self).

(** ** TMDB helpers *)

(** A TMDB result; an absent or empty [release_date] is [""]. *)
Record tmdb_movie := {
  tm_id : Z;
  tm_title : string;
  tm_release_date : string;
  tm_poster_path : option string;
}.

(** The three TMDB endpoints as seen through [requests.get]: the decoded
    [results] list, or an exception (network error, error status, bad JSON).
    The search takes the optional [year] query parameter. *)
Record tmdb_http := {
  http_search : string → option pyval → exc (list tmdb_movie);
  http_recommendations : Z → exc (list tmdb_movie);
  http_popular : exc (list tmdb_movie);
}.

Definition tmdb_search_movie (http : tmdb_http) (title : string) (year : pyval)
    (api_key : string) : option tmdb_movie :=
  if decide (api_key = "") then None
  else
    match http_search http title (if truthy year then Some year else None) with
    | Raise _ => None
    | Ok results =>
        match results with
        | [] =>
            if truthy year then
              (* fallback: the same query without the year *)
              match http_search http title None with
              | Ok results' => head results'
              | Raise _ => None
              end
            else None
        | r :: _ => Some r
        end
    end.

Definition tmdb_get_recommendations (http : tmdb_http) (movie_id : Z)
    (api_key : string) : list tmdb_movie :=
  if decide (api_key = "") then []
  else if decide (movie_id = 0%Z) then []
  else
    match http_recommendations http movie_id with
    | Ok results => take 12 results
    | Raise _ => []
    end.

Definition tmdb_get_popular (http : tmdb_http) (api_key : string)
  : list tmdb_movie :=
  if decide (api_key = "") then []
  else match http_popular http with Ok results => results | Raise _ => [] end.

Definition tmdb_image_url (path : option string) : option string :=
  match path with
  | None => None
  | Some p =>
      if decide (p = "") then None
      else Some ("https://image.tmdb.org/t/p/w500" +:+ p)
  end.

(** ** Candidates *)

Inductive source := Watchlist | Similar | Popular.

#[global] Instance source_eq_dec : EqDecision source.
Proof. solve_decision. Defined.

#[global] Instance source_countable : Countable source.
Proof.
  refine (inj_countable'
    (λ s, match s with Watchlist => 0 | Similar => 1 | Popular => 2 end)
    (λ n, match n with 0 => Watchlist | 1 => Similar | _ => Popular end) _).
  by intros [].
Defined.

(** One element of [similar_contributions[user]]. *)
Record contribution := {
  points : Q;
  from_movie : string;
  from_score : Z;
}.

(** A value of the local [candidates] dictionary.  [c_name], [c_year] and
    [c_url] are the three keys of [details] that are read again. *)
Record candidate := {
  c_name : string;
  c_year : pyval;
  c_url : string;
  c_watchlist_users : gset string;
  c_similar : odict (list contribution);
  c_sources : gset source;
  c_tmdb : option tmdb_movie;
}.

(** [f"tmdb:{m['id']}"] *)
Definition tmdb_key (m : tmdb_movie) : string := "tmdb:" +:+ pretty (tm_id m).

(** The object stored by [get_or_create] for a new id: [details] built from
    the arguments, then [details.update(details_obj)].  The update writes
    back the entry's own [name] (the [title] argument was read from it), its
    raw [year] (an absent key leaves the [None] that was parsed from it) and
    its [url] when it has one. *)
Definition new_candidate (title : string) (year : option Z) (url : string)
    (details_obj : option wl_entry) (tmdb_obj : option tmdb_movie)
  : candidate :=
  {| c_name := match details_obj with
               | Some d => default title (w_name d)
               | None => title
               end;
     c_year := match details_obj with
               | Some d => w_year d
               | None => py_of_year year
               end;
     c_url := match details_obj with
              | Some d => default url (w_url d)
              | None => url
              end;
     c_watchlist_users := ∅;
     c_similar := [];
     c_sources := ∅;
     c_tmdb := tmdb_obj |}.

(** [get_or_create]: [None] when the title is watched; otherwise the
    dictionary, in which [unique_id] is now bound.  The reference the Python
    function returns is [candidates[unique_id]], so the caller's mutations
    are [od_alter]s at [unique_id]. *)
Definition get_or_create (self : engine) (candidates : odict candidate)
    (unique_id title : string) (year : option Z) (url : string)
    (details_obj : option wl_entry) (tmdb_obj : option tmdb_movie)
  : option (odict candidate) :=
  if is_watched self title year then None
  else if od_mem unique_id candidates then Some candidates
  else Some (od_set unique_id
               (new_candidate title year url details_obj tmdb_obj) candidates).

(** *** Pass 1: watchlists *)

Definition add_watchlist_user (user : string) (c : candidate) : candidate :=
  {| c_name := c_name c; c_year := c_year c; c_url := c_url c;
     c_watchlist_users := c_watchlist_users c ∪ {[ user ]};
     c_similar := c_similar c;
     c_sources := c_sources c ∪ {[ Watchlist ]};
     c_tmdb := c_tmdb c |}.

Definition watchlist_item (self : engine) (http : tmdb_http) (user : string)
    (candidates : odict candidate) (item : string * wl_entry)
  : odict candidate :=
  let '(slug, details) := item in
  let title := default "Unknown" (w_name details) in
  let year := coerce_year (w_year details) in
  let tmdb_obj :=
    if decide (tmdb_api_key self = "") then None
    else tmdb_search_movie http title (py_of_year year) (tmdb_api_key self) in
  let key := match tmdb_obj with Some m => tmdb_key m | None => slug end in
  match get_or_create self candidates key title year
          ("https://letterboxd.com/film/" +:+ slug +:+ "/")
          (Some details) tmdb_obj with
  | Some candidates' => od_alter (add_watchlist_user user) key candidates'
  | None => candidates
  end.

Definition pass_watchlist (self : engine) (http : tmdb_http)
    (candidates : odict candidate) : odict candidate :=
  fold_left
    (λ cands '(user, data),
       fold_left (watchlist_item self http user) (p_watchlist data) cands)
    (user_data self) candidates.

(** *** Pass 2: similar titles *)

(** A seed is the tuple [(slug, rating, r_data)]. *)
Definition seed : Type := string * Z * rating_entry.

Definition min_rating_threshold : Z := 8.

Definition rated_seeds (ratings : odict rating_entry) : list seed :=
  omap (λ '(slug, r_data),
          if decide (min_rating_threshold ≤ r_score r_data)%Z
          then Some (slug, r_score r_data, r_data) else None)
       ratings.

(** The backfill from [liked]; [elements] is the order in which the set is
    iterated. *)
Definition liked_seeds (data : profile) : list seed :=
  omap (λ slug,
          if od_mem slug (p_ratings data) then None
          else Some (slug, 10%Z,
                     {| r_score := 10; r_name := Some (slug_title slug);
                        r_year := PyNone |}))
       (elements (p_liked data)).

Definition collect_seeds (data : profile) : list seed :=
  let seeds := rated_seeds (p_ratings data) in
  if decide (length seeds < 5) then seeds ++ liked_seeds data else seeds.

(** The score logic: 10 -> N, 9 -> N/2, 8 -> N/3, otherwise N/4, N = 100. *)
Definition seed_points (seed_score : Z) : Q :=
  let base_n : Q := 100%Q in
  if decide (seed_score = 10%Z) then base_n
  else if decide (seed_score = 9%Z) then (base_n / 2)%Q
  else if decide (seed_score = 8%Z) then (base_n / 3)%Q
  else (base_n / 4)%Q.

(** [int(rec["release_date"][:4]) if rec.get("release_date") else None];
    the conversion is not guarded, a [ValueError] leaves the method. *)
Definition release_year (rec : tmdb_movie) : exc (option Z) :=
  if decide (tm_release_date rec = "") then Ok None
  else
    match int_of_str (str_prefix4 (tm_release_date rec)) with
    | Some y => Ok (Some y)
    | None =>
        Raise ("invalid literal for int() with base 10: "
               +:+ str_prefix4 (tm_release_date rec))
    end.

Definition add_similar (user : string) (k : contribution) (c : candidate)
  : candidate :=
  {| c_name := c_name c; c_year := c_year c; c_url := c_url c;
     c_watchlist_users := c_watchlist_users c;
     c_similar :=
       od_set user (default [] (od_get user (c_similar c)) ++ [k])
              (c_similar c);
     c_sources := c_sources c ∪ {[ Similar ]};
     c_tmdb := c_tmdb c |}.

Definition similar_rec (self : engine) (user : string) (seed_score : Z)
    (tmdb_seed : tmdb_movie) (candidates : odict candidate) (rec : tmdb_movie)
  : exc (odict candidate) :=
  let rid := tmdb_key rec in
  check_year ← release_year rec;
  mret
    match get_or_create self candidates rid (tm_title rec) check_year
            ("https://www.themoviedb.org/movie/" +:+ pretty (tm_id rec))
            None (Some rec) with
    | Some candidates' =>
        od_alter
          (add_similar user {| points := seed_points seed_score;
                               from_movie := tm_title tmdb_seed;
                               from_score := seed_score |})
          rid candidates'
    | None => candidates
    end.

(** [seed_info.get("name") or seed_slug.replace("-", " ").title()] *)
Definition seed_title (sd : seed) : string :=
  match r_name sd.2 with
  | Some n => if decide (n = "") then slug_title sd.1.1 else n
  | None => slug_title sd.1.1
  end.

Definition similar_seed (self : engine) (http : tmdb_http) (user : string)
    (candidates : odict candidate) (sd : seed) : exc (odict candidate) :=
  match tmdb_search_movie http (seed_title sd) PyNone (tmdb_api_key self) with
  | None => Ok candidates
  | Some tmdb_seed =>
      for_each (similar_rec self user sd.1.2 tmdb_seed)
        (tmdb_get_recommendations http (tm_id tmdb_seed) (tmdb_api_key self))
        candidates
  end.

(** [shuffle user seeds] is the order [random.shuffle] leaves the seeds of
    [user] in. *)
Definition selected_seeds (shuffle : string → list seed → list seed)
    (user : string) (data : profile) : list seed :=
  take 6 (shuffle user (collect_seeds data)).

Definition pass_similar (self : engine) (http : tmdb_http)
    (shuffle : string → list seed → list seed)
    (candidates : odict candidate) : exc (odict candidate) :=
  for_each
    (λ cands '(user, data),
       for_each (similar_seed self http user)
         (selected_seeds shuffle user data) cands)
    (user_data self) candidates.

(** *** Pass 3: popular fallback *)

Definition add_popular (c : candidate) : candidate :=
  {| c_name := c_name c; c_year := c_year c; c_url := c_url c;
     c_watchlist_users := c_watchlist_users c;
     c_similar := c_similar c;
     c_sources := c_sources c ∪ {[ Popular ]};
     c_tmdb := c_tmdb c |}.

Definition popular_rec (self : engine) (candidates : odict candidate)
    (p : tmdb_movie) : exc (odict candidate) :=
  let rid := tmdb_key p in
  year ← release_year p;
  mret
    match get_or_create self candidates rid (tm_title p) year "" None (Some p)
    with
    | Some candidates' => od_alter add_popular rid candidates'
    | None => candidates
    end.

Definition pass_popular (self : engine) (http : tmdb_http)
    (candidates : odict candidate) : exc (odict candidate) :=
  for_each (popular_rec self) (tmdb_get_popular http (tmdb_api_key self))
    candidates.

(** *** Pass 4: enrichment *)

Definition enrich_candidate (self : engine) (http : tmdb_http) (c : candidate)
  : candidate :=
  match c_tmdb c with
  | Some _ => c
  | None =>
      if decide (c_name c = "") then c
      else
        match tmdb_search_movie http (c_name c) (c_year c)
                (tmdb_api_key self) with
        | Some found =>
            {| c_name := c_name c; c_year := c_year c; c_url := c_url c;
               c_watchlist_users := c_watchlist_users c;
               c_similar := c_similar c;
               c_sources := c_sources c;
               c_tmdb := Some found |}
        | None => c
        end
  end.

Definition enrich (self : engine) (http : tmdb_http)
    (candidates : odict candidate) : odict candidate :=
  prod_map id (enrich_candidate self http) <$> candidates.

(** *** The candidate dictionary at the start of the calculation *)

Record options := {
  use_watchlist : bool;
  use_similar : bool;
  use_popular : bool;
  discovery_weight : Q;
}.

Definition has_key (self : engine) : bool :=
  negb (bool_decide (tmdb_api_key self = "")).

Definition after_watchlist (self : engine) (http : tmdb_http) (o : options)
  : odict candidate :=
  if use_watchlist o then pass_watchlist self http [] else [].

Definition after_similar (self : engine) (http : tmdb_http)
    (shuffle : string → list seed → list seed) (o : options)
  : exc (odict candidate) :=
  if use_similar o && has_key self
  then pass_similar self http shuffle (after_watchlist self http o)
  else Ok (after_watchlist self http o).

Definition popular_guard (self : engine) (o : options)
    (candidates : odict candidate) : bool :=
  use_popular o && has_key self && bool_decide (length candidates < 20).

Definition after_popular (self : engine) (http : tmdb_http)
    (shuffle : string → list seed → list seed) (o : options)
  : exc (odict candidate) :=
  candidates ← after_similar self http shuffle o;
  if popular_guard self o candidates
  then pass_popular self http candidates
  else Ok candidates.

Definition aggregate (self : engine) (http : tmdb_http)
    (shuffle : string → list seed → list seed) (o : options)
  : exc (odict candidate) :=
  candidates ← after_popular self http shuffle o;
  mret (if has_key self then enrich self http candidates else candidates).

(** ** Calculation *)

(** One element of the returned list ([debug_details] left out). *)
Record result := {
  res_id : string;
  res_title : string;
  res_year : pyval;
  res_url : string;
  res_score : Q;
  res_poster : option string;
  res_sources : list source;
  res_raw_tmdb : option tmdb_movie;
}.

Definition N : Q := 100%Q.

(** [sum(c["points"] for c in contribs)] *)
Definition user_sum (contribs : list contribution) : Q :=
  fold_left (λ acc k, (acc + points k)%Q) contribs 0%Q.

Definition sim_score_total (c : candidate) : Q :=
  fold_left (λ acc '(_, contribs), (acc + user_sum contribs)%Q)
    (c_similar c) 0%Q.

Definition wl_count (c : candidate) : nat := size (c_watchlist_users c).

Definition score_of (weight : Q) (c : candidate) : Q :=
  let score := 0%Q in
  let wl_score := (inject_Z (Z.of_nat (wl_count c)) * N)%Q in
  let score := (score + wl_score)%Q in
  let weighted_sim_score := (sim_score_total c * weight)%Q in
  (score + weighted_sim_score)%Q.

(** The quantities the scoring properties are stated with: the points of
    every contribution of every user, and their sum. *)
Definition all_points (c : candidate) : list Q :=
  flat_map (λ uc : string * list contribution, points <$> uc.2) (c_similar c).

Definition Qsum (l : list Q) : Q := foldr Qplus 0%Q l.

Definition format_result (weight : Q) (item : string * candidate) : result :=
  let '(cid, data) := item in
  {| res_id := cid;
     res_title := c_name data;
     res_year := c_year data;
     res_url := c_url data;
     res_score := score_of weight data;
     res_poster := match c_tmdb data with
                   | Some m => tmdb_image_url (tm_poster_path m)
                   | None => None
                   end;
     res_sources := elements (c_sources data);
     res_raw_tmdb := c_tmdb data |}.

(** [list.sort(key=score, reverse=True)]: descending and stable, entries of
    equal score keep their order. *)
Fixpoint insert_desc (x : result) (l : list result) : list result :=
  match l with
  | [] => [x]
  | y :: l' =>
      if Qlt_le_dec (res_score x) (res_score y) then y :: insert_desc x l'
      else x :: l
  end.

Definition sort_desc (l : list result) : list result :=
  foldr insert_desc [] l.

Definition generate_recommendations (self : engine) (http : tmdb_http)
    (shuffle : string → list seed → list seed) (o : options)
  : exc (list result) :=
  match user_data self with
  | [] => Ok []
  | _ :: _ =>
      candidates ← aggregate self http shuffle o;
      let final_results := format_result (discovery_weight o) <$> candidates in
      mret (take 100 (sort_desc final_results))
  end.

(** ** Predicates the properties are stated with *)

(** Every candidate of the dictionary satisfies [P]. *)
Definition cands_all (P : candidate → Prop) (cands : odict candidate) : Prop :=
  ∀ cid c, (cid, c) ∈ cands → P c.

(** The [details_obj] argument of [get_or_create] is the entry its [title]
    and [year] arguments were read from. *)
Definition details_ok (title : string) (year : option Z)
    (details_obj : option wl_entry) : Prop :=
  match details_obj with
  | None => True
  | Some d => title = default "Unknown" (w_name d) ∧ year = coerce_year (w_year d)
  end.

(** The title of the candidate was not watched under the year its creator
    passed to the filter: the stored year itself, or the [year] field of the
    watchlist entry merged into [details], which the creator had coerced. *)
Definition unwatched_at_creation (self : engine) (c : candidate) : Prop :=
  ∃ year : option Z,
    is_watched self (c_name c) year = false ∧
    (c_year c = py_of_year year ∨ coerce_year (c_year c) = year).

(** Every contribution comes from an admitted seed and carries the points of
    the score logic. *)
Definition contribs_ok (c : candidate) : Prop :=
  ∀ u ks k, (u, ks) ∈ c_similar c → k ∈ ks →
    (8 ≤ from_score k)%Z ∧ points k = seed_points (from_score k).

(** *** The calls of [get_or_create]

    Each pass is a sequence of calls of [get_or_create], each followed by
    the mutation of the returned candidate.  A [call] records the arguments
    and the mutation; the properties about merging are stated over the
    sequence of calls of a run. *)

Inductive kind :=
| FromWatchlist (user : string)
| FromSimilar (user : string) (k : contribution)
| FromPopular.

Definition kind_update (kd : kind) : candidate → candidate :=
  match kd with
  | FromWatchlist user => add_watchlist_user user
  | FromSimilar user k => add_similar user k
  | FromPopular => add_popular
  end.

Definition kind_tag (kd : kind) : source :=
  match kd with
  | FromWatchlist _ => Watchlist
  | FromSimilar _ _ => Similar
  | FromPopular => Popular
  end.

Record call := {
  k_id : string;
  k_title : string;
  k_year : option Z;
  k_url : string;
  k_details : option wl_entry;
  k_tmdb : option tmdb_movie;
  k_kind : kind;
}.

(** The call is not rejected by the strict filter. *)
Definition accepted (self : engine) (k : call) : Prop :=
  is_watched self (k_title k) (k_year k) = false.

Definition apply_call (self : engine) (candidates : odict candidate)
    (k : call) : odict candidate :=
  match get_or_create self candidates (k_id k) (k_title k) (k_year k)
          (k_url k) (k_details k) (k_tmdb k) with
  | Some candidates' => od_alter (kind_update (k_kind k)) (k_id k) candidates'
  | None => candidates
  end.

(** Collecting the calls of a loop whose body may raise. *)
Fixpoint exc_flat_map {A B} (g : A → exc (list B)) (l : list A)
  : exc (list B) :=
  match l with
  | [] => Ok []
  | a :: l' => ks ← g a; rest ← exc_flat_map g l'; mret (ks ++ rest)
  end.

Definition watchlist_call (self : engine) (http : tmdb_http) (user : string)
    (item : string * wl_entry) : call :=
  let '(slug, details) := item in
  let title := default "Unknown" (w_name details) in
  let year := coerce_year (w_year details) in
  let tmdb_obj :=
    if decide (tmdb_api_key self = "") then None
    else tmdb_search_movie http title (py_of_year year) (tmdb_api_key self) in
  {| k_id := match tmdb_obj with Some m => tmdb_key m | None => slug end;
     k_title := title;
     k_year := year;
     k_url := "https://letterboxd.com/film/" +:+ slug +:+ "/";
     k_details := Some details;
     k_tmdb := tmdb_obj;
     k_kind := FromWatchlist user |}.

Definition watchlist_calls (self : engine) (http : tmdb_http) : list call :=
  flat_map
    (λ ud : string * profile,
       watchlist_call self http ud.1 <$> p_watchlist ud.2)
    (user_data self).

Definition similar_call (user : string) (seed_score : Z)
    (tmdb_seed rec : tmdb_movie) : exc (list call) :=
  check_year ← release_year rec;
  mret [ {| k_id := tmdb_key rec;
            k_title := tm_title rec;
            k_year := check_year;
            k_url := "https://www.themoviedb.org/movie/" +:+ pretty (tm_id rec);
            k_details := None;
            k_tmdb := Some rec;
            k_kind := FromSimilar user {| points := seed_points seed_score;
                                          from_movie := tm_title tmdb_seed;
                                          from_score := seed_score |} |} ].

Definition seed_calls (self : engine) (http : tmdb_http) (user : string)
    (sd : seed) : exc (list call) :=
  match tmdb_search_movie http (seed_title sd) PyNone (tmdb_api_key self) with
  | None => Ok []
  | Some tmdb_seed =>
      exc_flat_map (similar_call user sd.1.2 tmdb_seed)
        (tmdb_get_recommendations http (tm_id tmdb_seed) (tmdb_api_key self))
  end.

Definition similar_calls (self : engine) (http : tmdb_http)
    (shuffle : string → list seed → list seed) : exc (list call) :=
  exc_flat_map
    (λ ud : string * profile,
       exc_flat_map (seed_calls self http ud.1)
         (selected_seeds shuffle ud.1 ud.2))
    (user_data self).

Definition popular_call (p : tmdb_movie) : exc (list call) :=
  year ← release_year p;
  mret [ {| k_id := tmdb_key p;
            k_title := tm_title p;
            k_year := year;
            k_url := "";
            k_details := None;
            k_tmdb := Some p;
            k_kind := FromPopular |} ].

Definition popular_calls (self : engine) (http : tmdb_http)
  : exc (list call) :=
  exc_flat_map popular_call (tmdb_get_popular http (tmdb_api_key self)).

(** The calls of passes 1 and 2, and of the whole run. *)
Definition organic_calls (self : engine) (http : tmdb_http)
    (shuffle : string → list seed → list seed) (o : options)
  : exc (list call) :=
  let c1 := if use_watchlist o then watchlist_calls self http else [] in
  c2 ← (if use_similar o && has_key self
        then similar_calls self http shuffle else Ok []);
  mret (c1 ++ c2).

Definition run_calls (self : engine) (http : tmdb_http)
    (shuffle : string → list seed → list seed) (o : options)
  : exc (list call) :=
  c12 ← organic_calls self http shuffle o;
  c3 ← (if popular_guard self o (fold_left (apply_call self) c12 [])
        then popular_calls self http else Ok []);
  mret (c12 ++ c3).

(** All contributions of a candidate, with their user. *)
Definition flat_contribs (c : candidate) : list (string * contribution) :=
  flat_map (λ uc : string * list contribution, pair uc.1 <$> uc.2)
    (c_similar c).

(** What one call does to the entry stored under [cid]. *)
Definition call_step (self : engine) (cid : string)
    (oc : option candidate) (k : call) : option candidate :=
  if is_watched self (k_title k) (k_year k) then oc
  else if decide (k_id k = cid) then
    Some (kind_update (k_kind k)
            (default (new_candidate (k_title k) (k_year k) (k_url k)
                        (k_details k) (k_tmdb k)) oc))
  else oc.

(** Two candidates carry the same signals: the same watchlist users, the
    same sources and the same contributions, up to the order in which the
    contributions were appended. *)
Definition same_signals (c1 c2 : candidate) : Prop :=
  c_watchlist_users c1 = c_watchlist_users c2 ∧
  c_sources c1 = c_sources c2 ∧
  flat_contribs c1 ≡ₚ flat_contribs c2.

Definition opt_same_signals (o1 o2 : option candidate) : Prop :=
  match o1, o2 with
  | Some c1, Some c2 => same_signals c1 c2
  | None, None => True
  | _, _ => False
  end.

(** What a mutation adds to the signals. *)
Definition kind_users (kd : kind) : gset string :=
  match kd with FromWatchlist user => {[ user ]} | _ => ∅ end.

Definition kind_contribs (kd : kind) : list (string * contribution) :=
  match kd with FromSimilar user k => [(user, k)] | _ => [] end.

(** [random.shuffle] leaves the seeds of every user in the same order. *)
Definition same_order (self : engine)
    (sh1 sh2 : string → list seed → list seed) : Prop :=
  ∀ user data, (user, data) ∈ user_data self →
    sh1 user (collect_seeds data) = sh2 user (collect_seeds data).

(** No user has more seeds than the six that are processed. *)
Definition within_cap (self : engine) : Prop :=
  ∀ user data, (user, data) ∈ user_data self →
    length (collect_seeds data) ≤ 6.

End Engine.

(** ** An ASCII instance of the builtins, for the closed examples

    On ASCII text it agrees with Python for [strip], [lower], [title] and
    slicing, and for [int] and [float] on plain decimal integers. *)

Definition is_space (a : ascii) : bool :=
  let n := nat_of_ascii a in bool_decide (n = 32 ∨ (9 ≤ n ∧ n ≤ 13)).

Definition is_upper (a : ascii) : bool :=
  let n := nat_of_ascii a in bool_decide (65 ≤ n ∧ n ≤ 90).

Definition is_lower (a : ascii) : bool :=
  let n := nat_of_ascii a in bool_decide (97 ≤ n ∧ n ≤ 122).

Definition to_lower (a : ascii) : ascii :=
  if is_upper a then ascii_of_nat (nat_of_ascii a + 32) else a.

Definition to_upper (a : ascii) : ascii :=
  if is_lower a then ascii_of_nat (nat_of_ascii a - 32) else a.

Fixpoint drop_spaces (l : list ascii) : list ascii :=
  match l with
  | a :: l' => if is_space a then drop_spaces l' else l
  | [] => []
  end.

Definition ascii_strip (s : string) : string :=
  string_of_list_ascii
    (reverse (drop_spaces (reverse (drop_spaces (list_ascii_of_string s))))).

Definition ascii_lower (s : string) : string :=
  string_of_list_ascii (to_lower <$> list_ascii_of_string s).

Fixpoint title_chars (start : bool) (l : list ascii) : list ascii :=
  match l with
  | [] => []
  | a :: l' =>
      let a := if bool_decide (a = "-"%char) then " "%char else a in
      if is_upper a || is_lower a
      then (if start then to_upper a else to_lower a) :: title_chars false l'
      else a :: title_chars true l'
  end.

Definition ascii_slug_title (s : string) : string :=
  string_of_list_ascii (title_chars true (list_ascii_of_string s)).

Definition ascii_prefix4 (s : string) : string :=
  string_of_list_ascii (take 4 (list_ascii_of_string s)).

Definition digit_of (a : ascii) : option Z :=
  let n := nat_of_ascii a in
  if bool_decide (48 ≤ n ∧ n ≤ 57) then Some (Z.of_nat (n - 48)) else None.

Fixpoint digits_value (acc : Z) (l : list ascii) : option Z :=
  match l with
  | [] => Some acc
  | a :: l' => d ← digit_of a; digits_value (10 * acc + d)%Z l'
  end.

Definition ascii_int (s : string) : option Z :=
  match list_ascii_of_string (ascii_strip s) with
  | [] => None
  | a :: l =>
      if bool_decide (a = "-"%char) then
        match l with [] => None | _ => Z.opp <$> digits_value 0 l end
      else if bool_decide (a = "+"%char) then
        match l with [] => None | _ => digits_value 0 l end
      else digits_value 0 (a :: l)
  end.

Definition ascii_float (s : string) : option Q := inject_Z <$> ascii_int s.

Definition ascii_builtins : PyBuiltins :=
  {| str_strip := ascii_strip;
     str_lower := ascii_lower;
     slug_title := ascii_slug_title;
     str_prefix4 := ascii_prefix4;
     int_of_str := ascii_int;
     float_of_str := ascii_float |}.

(** ** Example scenarios

    A group of two users (and a third whose fetch fails without a message),
    a small TMDB, and a user with seven seeds. *)

Section Examples.
#[local] Existing Instance ascii_builtins.

Definition mk_wl (name : string) (year : Z) : wl_entry :=
  {| w_name := Some name; w_year := PyInt year; w_url := None |}.

Definition mk_film (name : string) (year liked rating : pyval) : film_info :=
  {| f_name := Some name; f_year := year; f_liked := liked;
     f_rating := rating |}.

Definition mk_movie (id : Z) (title date : string) : tmdb_movie :=
  {| tm_id := id; tm_title := title; tm_release_date := date;
     tm_poster_path := Some "/poster.jpg" |}.

(** alice and bob both want to see Oppenheimer; bob has seen Dune: Part Two,
    which is on the watchlist of alice; the client raises an exception with
    an empty message for carol. *)
Definition ex_alice : lb_user :=
  {| get_watchlist_movies :=
       Ok [("dune-part-two", mk_wl "Dune: Part Two" 2024);
           ("oppenheimer", mk_wl "Oppenheimer" 2023)];
     get_watchlist := Raise "not called";
     get_films :=
       Ok [("parasite-2019",
            mk_film "Parasite" (PyInt 2019) (PyBool true) (PyInt 10));
           ("oldboy", mk_film "Oldboy" (PyInt 2003) PyNone (PyInt 9))] |}.

Definition ex_bob : lb_user :=
  {| get_watchlist_movies := Raise "no such method";
     get_watchlist := Ok [("oppenheimer", mk_wl "Oppenheimer" 2023)];
     get_films :=
       Ok [("dune-part-two",
            mk_film " Dune: Part Two" (PyStr "2024") PyNone
              (PyFloat (1 # 2)));
           ("tenet", mk_film "Tenet" (PyStr "n/a") PyNone (PyInt 11))] |}.

Definition ex_User (username : string) : exc lb_user :=
  if decide (username = "alice") then Ok ex_alice
  else if decide (username = "bob") then Ok ex_bob
  else if decide (username = "carol") then Raise ""
  else Raise "user not found".

Definition ex_http : tmdb_http :=
  {| http_search := λ title _,
       if decide (title = "Oppenheimer") then
         Ok [mk_movie 872585 "Oppenheimer" "2023-07-19"]
       else if decide (title = "Parasite") then
         Ok [mk_movie 496243 "Parasite" "2019-05-30"]
       else if decide (title = "Oldboy") then
         Ok [mk_movie 670 "Oldboy" "2003-11-21"]
       else if decide (title = "Dune: Part Two") then
         Ok [mk_movie 693134 "Dune: Part Two" "2024-02-27"]
       else Ok [];
     http_recommendations := λ id,
       if decide (id = 496243%Z) then
         Ok [mk_movie 1 "Memories of Murder" "2003-05-02";
             mk_movie 872585 "Oppenheimer" "2023-07-19";
             mk_movie 693134 "Dune: Part Two" "2024-02-27"]
       else if decide (id = 670%Z) then
         Ok [mk_movie 1 "Memories of Murder" "2003-05-02"]
       else Ok [];
     http_popular := Ok [mk_movie 3 "Barbie" "2023-07-19"] |}.

Definition ex_engine : engine :=
  fetch_data ex_User (init ["alice"; "bob"] "key").

Definition ex_options : options :=
  {| use_watchlist := true; use_similar := true; use_popular := true;
     discovery_weight := 1 # 2 |}.

(** Two outcomes of [random.shuffle]. *)
Definition sh_id (user : string) (seeds : list seed) : list seed := seeds.
Definition sh_rev (user : string) (seeds : list seed) : list seed :=
  reverse seeds.

Definition ex_cands : odict candidate :=
  Eval vm_compute in
    match aggregate ex_engine ex_http sh_id ex_options with
    | Ok candidates => candidates
    | Raise _ => []
    end.

Definition ex_cands_rev : odict candidate :=
  Eval vm_compute in
    match aggregate ex_engine ex_http sh_rev ex_options with
    | Ok candidates => candidates
    | Raise _ => []
    end.

Definition ex_organic : odict candidate :=
  Eval vm_compute in
    match after_similar ex_engine ex_http sh_id ex_options with
    | Ok candidates => candidates
    | Raise _ => []
    end.

Definition ex_with_popular : odict candidate :=
  Eval vm_compute in
    match after_popular ex_engine ex_http sh_id ex_options with
    | Ok candidates => candidates
    | Raise _ => []
    end.

Definition ex_results : list result :=
  Eval vm_compute in
    match generate_recommendations ex_engine ex_http sh_id ex_options with
    | Ok rs => rs
    | Raise _ => []
    end.

Definition no_candidate : candidate :=
  new_candidate "" None "" None None.

Definition no_result : result :=
  format_result 0 ("", no_candidate).

(** The candidate both watchlists and a similar title merge into. *)
Definition ex_oppenheimer : candidate :=
  Eval vm_compute in default no_candidate (od_get "tmdb:872585" ex_cands).

(** The candidate two seeds of alice lead to. *)
Definition ex_memories : candidate :=
  Eval vm_compute in default no_candidate (od_get "tmdb:1" ex_cands).

Definition ex_memories_rev : candidate :=
  Eval vm_compute in default no_candidate (od_get "tmdb:1" ex_cands_rev).


Definition ex_rating : rating_entry :=
  {| r_score := 10; r_name := Some "Parasite"; r_year := PyInt 2019 |}.

Definition empty_profile : profile :=
  {| p_watchlist := []; p_watched := ∅; p_ratings := []; p_liked := ∅;
     p_watched_index := ∅ |}.

Definition ex_top : result :=
  Eval vm_compute in default no_result (head ex_results).

(** dave rated seven films 10; each resolves to its own TMDB id, and each
    of these has one similar title. *)
Definition seven : list Z := [1; 2; 3; 4; 5; 6; 7]%Z.

Definition ex_User7 (username : string) : exc lb_user :=
  Ok {| get_watchlist_movies := Ok [];
        get_watchlist := Ok [];
        get_films :=
          Ok ((λ i : Z, ("film-" +:+ pretty i,
                         mk_film ("Film " +:+ pretty i) (PyInt 2000)
                           PyNone (PyInt 10))) <$> seven) |}.

Definition ex_http7 : tmdb_http :=
  {| http_search := λ title _,
       Ok (omap (λ i : Z,
                   if decide (title = "Film " +:+ pretty i)
                   then Some (mk_movie i title "2000-01-01") else None)
                seven);
     http_recommendations := λ id,
       Ok [mk_movie (100 + id) ("Similar " +:+ pretty id) "2001-01-01"];
     http_popular := Ok [] |}.

Definition ex_engine7 : engine :=
  fetch_data ex_User7 (init ["dave"] "key").

Definition ex_options7 : options :=
  {| use_watchlist := false; use_similar := true; use_popular := false;
     discovery_weight := 1 # 2 |}.

(** The ids of a run, in the order of the returned list. *)
Definition result_ids (r : exc (list result)) : list string :=
  match r with Ok rs => res_id <$> rs | Raise _ => [] end.

End Examples.

(** * More of [utils.py], and the callers in [app.py] *)

Section Extras.
Context {py : PyBuiltins}.

(** ** The order of the returned list *)

(** [a] may stand before [b] in a list sorted by descending score. *)
Definition score_ge (a b : result) : Prop := (res_score b <= res_score a)%Q.


(** ** What [fetch_data] stores *)

(** The dictionary stored in [user_data] for a fetched tuple. *)
Definition profile_of (r : fetched) : profile :=
  {| p_watchlist := fu_watchlist r;
     p_watched := fu_watched r;
     p_ratings := fu_ratings r;
     p_liked := fu_liked r;
     p_watched_index := fu_watched_index r |}.

(** The line appended to [errors] for [user], if any. *)
Definition error_line (User : string → exc lb_user) (user : string)
  : option string :=
  let r := fetch_user_data User user in
  if err_truthy (fu_err r)
  then Some (user +:+ ": " +:+ default "" (fu_err r)) else None.

(** The entry [fetch_user_data] stores in [ratings] for a film. *)
Definition rating_of (info : film_info) : option rating_entry :=
  if truthy (f_rating info) then
    match py_float (f_rating info) with
    | Some val =>
        if Qlt_le_dec 0 val
        then Some {| r_score := float_trunc val; r_name := f_name info;
                     r_year := f_year info |}
        else None
    | None => None
    end
  else None.

(** A film whose title and year match, as [is_watched] compares them. *)
Definition film_matches (info : film_info) (title : string) (year : option Z)
  : Prop :=
  normalize_title (default "" (f_name info)) = normalize_title title ∧
  coerce_year (f_year info) = year.

(** ** The [debug_details] of an entry *)

(** [max(contribs, key=lambda x: x["points"])]: the first of the entries
    with the largest points; [ValueError] on an empty list. *)
Fixpoint max_from (best : contribution) (l : list contribution)
  : contribution :=
  match l with
  | [] => best
  | k :: l' =>
      max_from (if Qlt_le_dec (points best) (points k) then k else best) l'
  end.

Definition py_max (contribs : list contribution) : exc contribution :=
  match contribs with
  | [] => Raise "max() arg is an empty sequence"
  | k :: l => Ok (max_from k l)
  end.

(** [sep.join(l)] *)
Fixpoint join (sep : string) (l : list string) : string :=
  match l with
  | [] => ""
  | [s] => s
  | s :: l' => s +:+ sep +:+ join sep l'
  end.

(** [f"Similar to {best['from_movie']} ({best['from_score']}/10)"] *)
Definition reason (best : contribution) : string :=
  "Similar to " +:+ from_movie best +:+ " (" +:+ pretty (from_score best)
  +:+ "/10)".

(** The list [sim_reasons] after the loop over [similar_contributions]. *)
Definition sim_reasons (c : candidate) : exc (list string) :=
  for_each
    (λ reasons '(_, contribs),
       best ← py_max contribs; mret (reasons ++ [reason best]))
    (c_similar c) [].

(** The dictionary [debug_info]: its two optional keys. *)
Record debug_info := {
  d_watchlist : option string;
  d_similar : option string;
}.

Definition debug_details (c : candidate) : exc debug_info :=
  reasons ← sim_reasons c;
  mret
    {| d_watchlist :=
         if decide (0 < wl_count c) then
           Some (pretty (wl_count c) +:+ " users ("
                 +:+ join ", " (elements (c_watchlist_users c)) +:+ ")")
         else None;
       d_similar :=
         match reasons with
         | [] => None
         | _ :: _ => Some (join ", " (take 3 reasons))
         end |}.

(** ** Shape of a candidate *)

(** The sources agree with the signals that were stored, and every user
    listed in [similar_contributions], listed once, has a contribution. *)
Definition well_formed (c : candidate) : Prop :=
  (Watchlist ∈ c_sources c ↔ c_watchlist_users c ≠ ∅) ∧
  (Similar ∈ c_sources c ↔ c_similar c ≠ []) ∧
  NoDup (c_similar c).*1 ∧
  ∀ u ks, (u, ks) ∈ c_similar c → ks ≠ [].

(** [best] is chosen by [max] among [contribs]. *)
Definition is_best (contribs : list contribution) (best : contribution)
  : Prop :=
  best ∈ contribs ∧ ∀ k, k ∈ contribs → (points k <= points best)%Q.

(** ** Where the details of a candidate come from *)

(** The keys of [details] that are read again, and [tmdb]: they are set
    when the candidate is created. *)
Definition same_details (c c' : candidate) : Prop :=
  c_name c = c_name c' ∧ c_year c = c_year c' ∧ c_url c = c_url c' ∧
  c_tmdb c = c_tmdb c'.

(** The candidate a call creates when its id is new. *)
Definition created_by (k : call) : candidate :=
  new_candidate (k_title k) (k_year k) (k_url k) (k_details k) (k_tmdb k).

Definition is_watchlist_call (self : engine) (http : tmdb_http) (k : call)
  : Prop :=
  ∃ user data item,
    (user, data) ∈ user_data self ∧ item ∈ p_watchlist data ∧
    k = watchlist_call self http user item.

Definition is_similar_call (k : call) : Prop :=
  ∃ user seed_score tmdb_seed rec,
    similar_call user seed_score tmdb_seed rec = Ok [k].

Definition is_popular_call (k : call) : Prop :=
  ∃ p, popular_call p = Ok [k].

(** ** Failure, size and score of a run *)


(** The number of watchlist entries of all profiles. *)
Definition watchlist_total (self : engine) : nat :=
  sum_list ((λ ud : string * profile, length (p_watchlist ud.2))
              <$> user_data self).

(** The bound on the number of candidates: one per watchlist entry, twelve
    per seed and six seeds per user, one per popular record. *)
Definition candidate_bound (self : engine) (http : tmdb_http) (o : options)
  : nat :=
  (if use_watchlist o then watchlist_total self else 0)
  + (if use_similar o && has_key self
     then 72 * length (user_data self) else 0)
  + (if use_popular o && has_key self
     then length (tmdb_get_popular http (tmdb_api_key self)) else 0).

(** ** [extract_movies_by_slug]

    The value the letterboxd client returns, before it is normalized: data
    as decoded from JSON, the dictionaries with [str] keys in insertion
    order. *)

#[local] Unset Elimination Schemes.
Inductive pydata : Type :=
| DVal (v : pyval)
| DList (l : list pydata)
| DDict (d : list (string * pydata)).
#[local] Set Elimination Schemes.

(** [bool(data)] *)
Definition data_truthy (data : pydata) : bool :=
  match data with
  | DVal v => truthy v
  | DList [] => false
  | DList (_ :: _) => true
  | DDict [] => false
  | DDict (_ :: _) => true
  end.

Definition is_dict (data : pydata) : bool :=
  match data with DDict _ => true | _ => false end.

(** The inner function [process_item]: [None] stands for [None, None]. *)
Definition process_item (item : pydata) : option (string * pydata) :=
  match item with
  | DDict d =>
      match od_get "slug" d with
      | Some (DVal (PyStr slug)) =>
          if decide (slug = "") then None else Some (slug, item)
      | _ => None
      end
  | _ => None
  end.

(** The body of the loop over [data.items()]. *)
Definition dict_step (out : odict pydata) (kv : string * pydata)
  : odict pydata :=
  let '(k, v) := kv in
  match process_item v with
  | Some (s, i) => od_set s i out
  | None =>
      if bool_decide (k ≠ "") && is_dict v then od_set k v out else out
  end.

(** The body of the loop over a list. *)
Definition list_step (out : odict pydata) (item : pydata) : odict pydata :=
  match process_item item with
  | Some (s, i) => od_set s i out
  | None => out
  end.

(** The test ["movies" in data and isinstance(data["movies"], dict)] and
    the recursive call on [data["movies"]]. *)
Fixpoint movies_entry {R} (recurse : pydata → R) (d : list (string * pydata))
  : option R :=
  match d with
  | [] => None
  | (k, v) :: d' =>
      if decide (k = "movies")
      then if is_dict v then Some (recurse v) else None
      else movies_entry recurse d'
  end.

Fixpoint extract_movies_by_slug (data : pydata) : odict pydata :=
  if data_truthy data then
    match data with
    | DDict d =>
        match movies_entry extract_movies_by_slug d with
        | Some out => out
        | None => fold_left dict_step d []
        end
    | DList l => fold_left list_step l []
    | DVal _ => []
    end
  else [].

(** The slug [process_item] finds in an item. *)
Definition slug_of (item : pydata) : option string :=
  fst <$> process_item item.

(** A mapping from slugs to details, as the rest of the code expects it:
    no key twice, no empty key, every value a dictionary, stored under its
    own slug when it carries one. *)
Definition slug_keyed (d : odict pydata) : Prop :=
  NoDup d.*1 ∧
  ∀ s i, (s, i) ∈ d →
    s ≠ "" ∧ is_dict i = true ∧ (slug_of i = Some s ∨ slug_of i = None).

(** ** The group of [app.py]

    The two fields of [st.session_state] the callbacks use. *)
Record session := {
  s_usernames : list string;
  new_user_input : string;
}.

(** The state of a new session. *)
Definition new_session : session :=
  {| s_usernames := []; new_user_input := "" |}.

Definition add_user (st : session) : session :=
  let new_user := str_strip (new_user_input st) in
  if decide (new_user ≠ "" ∧ new_user ∉ s_usernames st) then
    {| s_usernames := s_usernames st ++ [new_user]; new_user_input := "" |}
  else st.

(** [l.remove(u)]: the first occurrence goes; [ValueError] without one. *)
Fixpoint list_remove (u : string) (l : list string) : exc (list string) :=
  match l with
  | [] => Raise "list.remove(x): x not in list"
  | x :: l' =>
      if decide (u = x) then Ok l'
      else l'' ← list_remove u l'; mret (x :: l'')
  end.

Definition remove_user (u : string) (st : session) : exc session :=
  if decide (u ∈ s_usernames st) then
    l ← list_remove u (s_usernames st);
    mret {| s_usernames := l; new_user_input := new_user_input st |}
  else Ok st.

(** What the user does: enter a text in the field "Add User", which stores
    it under [new_user_input] and runs [add_user], or press the button of a
    listed user, which runs [remove_user]. *)
Inductive event :=
| Entered (text : string)
| Pressed (u : string).

Definition handle (st : session) (e : event) : exc session :=
  match e with
  | Entered text =>
      Ok (add_user {| s_usernames := s_usernames st;
                      new_user_input := text |})
  | Pressed u => remove_user u st
  end.

(** ** The seeds of a user *)

(** The seed made of a rating. *)
Definition rated_seed (slug : string) (r_data : rating_entry) : seed :=
  (slug, r_score r_data, r_data).

(** The seed made of a liked film without rating. *)
Definition liked_seed (slug : string) : seed :=
  (slug, 10%Z,
   {| r_score := 10; r_name := Some (slug_title slug); r_year := PyNone |}).

End Extras.

Section MoreExamples.
#[local] Existing Instance ascii_builtins.

(** The group of alice and bob on an engine without an API key. *)
Definition ex_engine_nokey : engine :=
  fetch_data ex_User (init ["alice"; "bob"] "").



(** The candidate of the popular fallback. *)
Definition ex_barbie : candidate :=
  Eval vm_compute in default no_candidate (od_get "tmdb:3" ex_cands).

(** Raw answers of the client: a film as a dictionary, a list of films with
    a slug that occurs twice, and a mapping wrapped under ["movies"] next to
    a film of its own. *)
Definition ex_item (slug name : string) : pydata :=
  DDict [("slug", DVal (PyStr slug)); ("name", DVal (PyStr name))].

Definition ex_raw_list : list pydata :=
  [ex_item "heat" "Heat"; DVal PyNone; ex_item "ran" "Ran";
   ex_item "heat" "Heat (1995)"].

Definition ex_raw_inner : odict pydata :=
  [("heat", DDict [("name", DVal (PyStr "Heat"))]);
   ("ran", ex_item "ran" "Ran")].


(** A session in which alice and bob were entered. *)
Definition ex_session : session :=
  {| s_usernames := ["alice"; "bob"]; new_user_input := " carol " |}.

(** The profile stored for alice. *)
Definition ex_alice_profile : profile :=
  Eval vm_compute in
    default empty_profile (od_get "alice" (user_data ex_engine)).

End MoreExamples.

(** * Properties *)

Section OdictFacts.
Context {V : Type}.
Implicit Types (d : odict V) (k : string) (v : V).

Lemma od_get_set_eq k v d : od_get k (od_set k v d) = Some v.
Proof.
  induction d as [|[k' v'] d IH]; simpl; repeat case_decide; simpl;
    repeat case_decide; congruence.
Qed.

Lemma od_get_set_ne k k' v d : k ≠ k' → od_get k' (od_set k v d) = od_get k' d.
Proof.
  intros Hne. induction d as [|[k0 v0] d IH]; simpl; repeat case_decide; simpl;
    repeat case_decide; congruence.
Qed.

Lemma od_get_alter_eq f k d : od_get k (od_alter f k d) = f <$> od_get k d.
Proof.
  induction d as [|[k0 v0] d IH]; simpl; repeat case_decide; simpl;
    repeat case_decide; congruence.
Qed.

Lemma od_get_alter_ne f k k' d : k ≠ k' → od_get k' (od_alter f k d) = od_get k' d.
Proof.
  intros Hne. induction d as [|[k0 v0] d IH]; simpl; repeat case_decide; simpl;
    repeat case_decide; congruence.
Qed.

Lemma od_keys_alter f k d : (od_alter f k d).*1 = d.*1.
Proof.
  induction d as [|[k0 v0] d IH]; simpl; [done|].
  case_decide; csimpl; [done | by rewrite IH].
Qed.

Lemma od_get_None k d : od_get k d = None ↔ k ∉ d.*1.
Proof.
  induction d as [|[k0 v0] d IH]; simpl.
  - split; [intros _; apply not_elem_of_nil | done].
  - case_decide; subst.
    + split; [done | intros []; left].
    + rewrite IH, not_elem_of_cons. split; [intros ?; split; [congruence|done] | by intros [_ ?]].
Qed.

Lemma od_get_Some_elem k v d : od_get k d = Some v → (k, v) ∈ d.
Proof.
  induction d as [|[k0 v0] d IH]; simpl; [done|].
  case_decide; subst.
  - intros [= ->]. left.
  - intros. right. auto.
Qed.

Lemma od_elem_get k v d : NoDup d.*1 → (k, v) ∈ d → od_get k d = Some v.
Proof.
  induction d as [|[k0 v0] d IH]; simpl.
  - intros _ H. by apply elem_of_nil in H.
  - rewrite NoDup_cons. intros [Hk Hnd] [H|H]%elem_of_cons.
    + injection H as -> ->. by rewrite decide_True.
    + case_decide; subst; [|auto].
      exfalso. apply Hk. apply (list_elem_of_fmap_2 fst) in H. done.
Qed.

Lemma od_keys_set k v d :
  (od_set k v d).*1 = if od_mem k d then d.*1 else d.*1 ++ [k].
Proof.
  unfold od_mem. induction d as [|[k0 v0] d IH]; csimpl; [done|].
  case_decide; subst; csimpl; [done|].
  rewrite IH. by destruct (od_get k d).
Qed.

Lemma od_elem_set k v k' v' d :
  (k', v') ∈ od_set k v d → (k', v') = (k, v) ∨ (k', v') ∈ d.
Proof.
  induction d as [|[k0 v0] d IH]; simpl.
  - intros ->%list_elem_of_singleton. by left.
  - case_decide; subst; rewrite !elem_of_cons; intuition.
Qed.

Lemma od_mem_true k d : od_mem k d = true ↔ k ∈ d.*1.
Proof.
  unfold od_mem. destruct (od_get k d) eqn:E.
  - split; [intros _|done]. apply od_get_Some_elem in E.
    by apply (list_elem_of_fmap_2 fst) in E.
  - split; [done|]. by apply od_get_None in E.
Qed.

Lemma od_set_NoDup k v d : NoDup d.*1 → NoDup (od_set k v d).*1.
Proof.
  intros Hnd. rewrite od_keys_set. destruct (od_mem k d) eqn:E; [done|].
  apply NoDup_app. split_and!; [done | | apply NoDup_singleton].
  intros x Hx ->%list_elem_of_singleton.
  apply od_mem_true in Hx. congruence.
Qed.

End OdictFacts.

Section Properties.
Context {py : PyBuiltins}.

Lemma float_trunc_nonneg (q : Q) : (0 < q)%Q → (0 ≤ float_trunc q)%Z.
Proof.
  unfold Qlt, float_trunc. simpl. intros H.
  apply Z.quot_pos; lia.
Qed.

Lemma float_trunc_range (q : Q) :
  (1 <= q)%Q → (q < 11)%Q → (1 ≤ float_trunc q ≤ 10)%Z.
Proof.
  unfold Qle, Qlt, float_trunc. simpl. intros H1 H2.
  rewrite Z.quot_div_nonneg by lia. split.
  - apply Z.div_le_lower_bound; lia.
  - apply Z.lt_succ_r. apply Z.div_lt_upper_bound; lia.
Qed.

Lemma film_step_ratings acc item slug e :
  (slug, e) ∈ fa_ratings (film_step acc item) →
  (slug, e) ∈ fa_ratings acc ∨
  (item.1 = slug ∧ ∃ val, py_float (f_rating item.2) = Some val ∧ (0 < val)%Q ∧
      r_score e = float_trunc val).
Proof.
  destruct item as [s info]. unfold film_step. simpl.
  destruct (truthy (f_rating info)); [|by left].
  destruct (py_float (f_rating info)) as [val|] eqn:Ef; [|by left].
  destruct (Qlt_le_dec 0 val) as [Hpos|]; [|by left].
  intros [[= -> ->]|H]%od_elem_set; [|by left].
  right. split; [done|]. by exists val.
Qed.

Lemma film_loop_ratings films acc slug e :
  (slug, e) ∈ fa_ratings (fold_left film_step films acc) →
  (slug, e) ∈ fa_ratings acc ∨
  ∃ info val, (slug, info) ∈ films ∧ py_float (f_rating info) = Some val ∧
     (0 < val)%Q ∧ r_score e = float_trunc val.
Proof.
  revert acc. induction films as [|[s info] films IH]; intros acc H;
    cbn [fold_left] in H.
  - by left.
  - apply IH in H as [H|(info' & val & Hin & Hrest)].
    + apply film_step_ratings in H as [H|[Hs (val & Hrest)]]; [by left|].
      simpl in Hs. subst s. right. exists info, val. split; [left | exact Hrest].
    + right. exists info', val. split; [by right | exact Hrest].
Qed.

(** Claim C7, as amended.  When the client can be built, [fetch_user_data]
    reports no error whatever the rating and year fields hold, and every
    entry it stores in [ratings] comes from a film whose rating converts to
    a float [val > 0]; the stored score is [int(val)], never negative, and
    between 1 and 10 when [1 <= val < 11].  The score is not clamped. *)
Theorem fetch_user_data_scores User username u slug e :
  User (str_strip username) = Ok u →
  (slug, e) ∈ fu_ratings (fetch_user_data User username) →
  fu_err (fetch_user_data User username) = None ∧
  ∃ info val,
    (slug, info) ∈ films_of u ∧
    py_float (f_rating info) = Some val ∧ (0 < val)%Q ∧
    r_score e = float_trunc val ∧ (0 ≤ r_score e)%Z ∧
    ((1 <= val)%Q → (val < 11)%Q → (1 ≤ r_score e ≤ 10)%Z).
Proof.
  unfold fetch_user_data. intros ->. simpl. intros H. split; [done|].
  apply film_loop_ratings in H as [H|(info & val & Hin & Hf & Hpos & Hs)].
  - by apply elem_of_nil in H.
  - exists info, val. split_and!; try done.
    + rewrite Hs. by apply float_trunc_nonneg.
    + intros. rewrite Hs. by apply float_trunc_range.
Qed.

(** *** fetch_data *)

Lemma fetch_user_data_raise User user msg :
  User (str_strip user) = Raise msg →
  fetch_user_data User user =
    {| fu_watchlist := []; fu_watched := ∅; fu_ratings := []; fu_liked := ∅;
       fu_watched_index := ∅; fu_err := Some msg |}.
Proof. unfold fetch_user_data. by intros ->. Qed.

Lemma fetch_user_data_ok User user u :
  User (str_strip user) = Ok u → fu_err (fetch_user_data User user) = None.
Proof. unfold fetch_user_data. by intros ->. Qed.

Lemma fetch_data_step_failure User self user msg :
  User (str_strip user) = Raise msg → msg ≠ "" →
  user_data (fetch_data_step User self user) = user_data self ∧
  global_watched_index (fetch_data_step User self user)
    = global_watched_index self ∧
  errors (fetch_data_step User self user)
    = errors self ++ [user +:+ ": " +:+ msg].
Proof.
  intros HU Hmsg. unfold fetch_data_step.
  rewrite (fetch_user_data_raise _ _ _ HU). simpl.
  rewrite bool_decide_false by done. done.
Qed.

Lemma fetch_data_step_ok User self user u :
  User (str_strip user) = Ok u →
  od_mem user (user_data (fetch_data_step User self user)) = true ∧
  errors (fetch_data_step User self user) = errors self.
Proof.
  intros HU. unfold fetch_data_step.
  rewrite (fetch_user_data_ok _ _ _ HU). simpl. split; [|done].
  unfold od_mem. by rewrite od_get_set_eq.
Qed.

Lemma fetch_data_step_silent_failure User self user :
  User (str_strip user) = Raise "" →
  errors (fetch_data_step User self user) = errors self ∧
  od_get user (user_data (fetch_data_step User self user)) =
    Some {| p_watchlist := []; p_watched := ∅; p_ratings := [];
            p_liked := ∅; p_watched_index := ∅ |}.
Proof.
  intros HU. unfold fetch_data_step.
  rewrite (fetch_user_data_raise _ _ _ HU). simpl. split; [done|].
  by rewrite od_get_set_eq.
Qed.

(** Claim C10.  With an empty [user_data], [generate_recommendations]
    returns the empty list at once, for all options and gateways. *)
Theorem generate_recommendations_no_users self http shuffle o :
  user_data self = [] → generate_recommendations self http shuffle o = Ok [].
Proof. unfold generate_recommendations. by intros ->. Qed.

(** *** Scoring *)

Lemma user_sum_acc (ks : list contribution) (a : Q) :
  (fold_left (λ acc k, acc + points k) ks a == a + Qsum (points <$> ks))%Q.
Proof.
  revert a. induction ks as [|k ks IH]; intros a; simpl.
  - lra.
  - specialize (IH (a + points k)%Q). simpl in *.
    change (list_fmap _ _ points ks) with (points <$> ks) in *. lra.
Qed.

Lemma Qsum_app (l1 l2 : list Q) : (Qsum (l1 ++ l2) == Qsum l1 + Qsum l2)%Q.
Proof. induction l1 as [|x l1 IH]; simpl; lra. Qed.

Lemma sim_score_total_acc (sim : odict (list contribution)) (a : Q) :
  (fold_left (λ acc '(_, contribs), acc + user_sum contribs) sim a
   == a + Qsum (flat_map (λ uc : string * list contribution, points <$> uc.2) sim))%Q.
Proof.
  revert a. induction sim as [|[u ks] sim IH]; intros a; simpl.
  - lra.
  - specialize (IH (a + user_sum ks)%Q). rewrite IH.
    rewrite Qsum_app. unfold user_sum. 
    pose proof (user_sum_acc ks 0) as Hk. simpl in *. lra.
Qed.

Lemma sim_score_total_closed c : (sim_score_total c == Qsum (all_points c))%Q.
Proof. unfold sim_score_total, all_points. rewrite sim_score_total_acc. lra. Qed.

Lemma score_of_closed weight c :
  (score_of weight c
   == inject_Z (Z.of_nat (wl_count c)) * 100 + weight * Qsum (all_points c))%Q.
Proof.
  unfold score_of, N. rewrite sim_score_total_closed. lra.
Qed.

(** *** Loop invariants *)

Lemma for_each_inv {A S} (I : S → Prop) (body : S → A → exc S) l s s' :
  I s →
  (∀ s a s', a ∈ l → I s → body s a = Ok s' → I s') →
  for_each body l s = Ok s' → I s'.
Proof.
  revert s. induction l as [|a l IH]; intros s Hs Hbody; simpl.
  - by intros [= <-].
  - destruct (body s a) as [s1|] eqn:E; simpl; [|done].
    apply IH.
    + eapply Hbody; [left | done | done].
    + intros s2 b s3 Hb. apply Hbody. by right.
Qed.

Lemma fold_left_inv {A S} (I : S → Prop) (f : S → A → S) l s :
  I s → (∀ s a, a ∈ l → I s → I (f s a)) → I (fold_left f l s).
Proof.
  revert s. induction l as [|a l IH]; intros s Hs Hf; simpl; [done|].
  apply IH.
  - apply Hf; [left | done].
  - intros s1 b Hb. apply Hf. by right.
Qed.

Lemma od_elem_alter {V} (f : V → V) k k' v' (d : odict V) :
  (k', v') ∈ od_alter f k d →
  (k', v') ∈ d ∨ (k' = k ∧ ∃ v, (k, v) ∈ d ∧ v' = f v).
Proof.
  induction d as [|[k0 v0] d IH]; simpl; [by left|].
  case_decide; subst; rewrite !elem_of_cons.
  - intros [[= -> ->]|?]; [|by left; right].
    right. split; [done|]. exists v0. split; [by left | done].
  - intros [?|Hin]; [by left; left|].
    apply IH in Hin as [?|[-> (v & ? & ->)]]; [by left; right|].
    right. split; [done|]. exists v. split; [by right | done].
Qed.

Lemma cands_all_nil P : cands_all P [].
Proof. intros cid c H. by apply elem_of_nil in H. Qed.

Lemma cands_all_set P k c cands :
  P c → cands_all P cands → cands_all P (od_set k c cands).
Proof.
  intros Hc Hall cid c' [[= -> ->]|Hin]%od_elem_set; [done|]. by eapply Hall.
Qed.

Lemma cands_all_alter P f k cands :
  (∀ c, P c → P (f c)) → cands_all P cands → cands_all P (od_alter f k cands).
Proof.
  intros Hf Hall cid c' [Hin|[-> (c & Hin & ->)]]%od_elem_alter.
  - by eapply Hall.
  - apply Hf. by eapply Hall.
Qed.

Section CandidateInvariant.
Variables (self : engine) (http : tmdb_http).
Variable shuffle : string → list seed → list seed.
Variable P : candidate → Prop.
Variable Sd : seed → Prop.
Hypothesis P_new : ∀ title year url details_obj tmdb_obj,
  is_watched self title year = false →
  details_ok title year details_obj →
  P (new_candidate title year url details_obj tmdb_obj).
Hypothesis P_watchlist : ∀ user c, P c → P (add_watchlist_user user c).
Hypothesis P_similar : ∀ user sd tmdb_seed c,
  Sd sd → P c →
  P (add_similar user {| points := seed_points sd.1.2;
                         from_movie := tm_title tmdb_seed;
                         from_score := sd.1.2 |} c).
Hypothesis P_popular : ∀ c, P c → P (add_popular c).
Hypothesis P_enrich : ∀ c, P c → P (enrich_candidate self http c).
Hypothesis Sd_selected : ∀ user data,
  (user, data) ∈ user_data self →
  Forall Sd (selected_seeds shuffle user data).

Lemma get_or_create_all cands cands' uid title year url details_obj tmdb_obj :
  details_ok title year details_obj →
  cands_all P cands →
  get_or_create self cands uid title year url details_obj tmdb_obj
    = Some cands' →
  cands_all P cands'.
Proof.
  intros Hd Hall. unfold get_or_create.
  destruct (is_watched self title year) eqn:Hw; [done|].
  destruct (od_mem uid cands); intros [= <-]; [done|].
  apply cands_all_set; [by apply P_new | done].
Qed.

Lemma watchlist_item_all user cands item :
  cands_all P cands → cands_all P (watchlist_item self http user cands item).
Proof.
  intros Hall. destruct item as [slug details]. unfold watchlist_item.
  match goal with |- context [get_or_create ?a ?b ?c ?d ?e ?f ?g ?h] =>
    destruct (get_or_create a b c d e f g h) as [cands'|] eqn:E end; [|done].
  apply cands_all_alter; [apply P_watchlist|].
  eapply get_or_create_all; [|done|exact E]. by split.
Qed.

Lemma pass_watchlist_all cands :
  cands_all P cands → cands_all P (pass_watchlist self http cands).
Proof.
  intros Hall. unfold pass_watchlist.
  apply (fold_left_inv (cands_all P)); [done|].
  intros cs [user data] _ Hcs.
  apply (fold_left_inv (cands_all P)); [done|].
  intros cs' item _. apply watchlist_item_all.
Qed.

Lemma similar_rec_all user sd tmdb_seed cands rec cands' :
  Sd sd → cands_all P cands →
  similar_rec self user sd.1.2 tmdb_seed cands rec = Ok cands' →
  cands_all P cands'.
Proof.
  intros Hsd Hall. unfold similar_rec.
  destruct (release_year rec) as [check_year|]; simpl; [|done].
  match goal with |- context [get_or_create ?a ?b ?c ?d ?e ?f ?g ?h] =>
    destruct (get_or_create a b c d e f g h) as [cs|] eqn:E end;
    intros [= <-]; [|done].
  apply cands_all_alter; [intros c; by apply P_similar|].
  eapply get_or_create_all; [|done|exact E]. done.
Qed.

Lemma similar_seed_all user sd cands cands' :
  Sd sd → cands_all P cands →
  similar_seed self http user cands sd = Ok cands' →
  cands_all P cands'.
Proof.
  intros Hsd Hall. unfold similar_seed.
  destruct (tmdb_search_movie _ _ _ _) as [tmdb_seed|]; [|by intros [= <-]].
  apply (for_each_inv (cands_all P)); [done|].
  intros cs rec cs' _ Hcs. by apply similar_rec_all.
Qed.

Lemma pass_similar_all cands cands' :
  cands_all P cands →
  pass_similar self http shuffle cands = Ok cands' →
  cands_all P cands'.
Proof.
  intros Hall. unfold pass_similar.
  apply (for_each_inv (cands_all P)); [done|].
  intros cs [user data] cs' Hin Hcs.
  apply (for_each_inv (cands_all P)); [done|].
  intros cs1 sd cs2 Hsd Hcs1. apply similar_seed_all; [|done].
  pose proof (Sd_selected user data Hin) as HF.
  rewrite Forall_forall in HF. by apply HF.
Qed.

Lemma popular_rec_all cands p cands' :
  cands_all P cands →
  popular_rec self cands p = Ok cands' → cands_all P cands'.
Proof.
  intros Hall. unfold popular_rec.
  destruct (release_year p) as [year|]; simpl; [|done].
  match goal with |- context [get_or_create ?a ?b ?c ?d ?e ?f ?g ?h] =>
    destruct (get_or_create a b c d e f g h) as [cs|] eqn:E end;
    intros [= <-]; [|done].
  apply cands_all_alter; [apply P_popular|].
  eapply get_or_create_all; [|done|exact E]. done.
Qed.

Lemma pass_popular_all cands cands' :
  cands_all P cands →
  pass_popular self http cands = Ok cands' → cands_all P cands'.
Proof.
  intros Hall. unfold pass_popular.
  apply (for_each_inv (cands_all P)); [done|].
  intros cs p cs' _ Hcs. by apply popular_rec_all.
Qed.

Lemma enrich_all cands :
  cands_all P cands → cands_all P (enrich self http cands).
Proof.
  intros Hall cid c. unfold enrich.
  intros ([cid' c'] & [= -> ->] & Hin)%list_elem_of_fmap.
  apply P_enrich. by eapply Hall.
Qed.

Lemma after_watchlist_all o : cands_all P (after_watchlist self http o).
Proof.
  unfold after_watchlist. destruct (use_watchlist o).
  - apply pass_watchlist_all, cands_all_nil.
  - apply cands_all_nil.
Qed.

Lemma after_similar_all o cands :
  after_similar self http shuffle o = Ok cands → cands_all P cands.
Proof.
  unfold after_similar. destruct (use_similar o && has_key self).
  - apply pass_similar_all, after_watchlist_all.
  - intros [= <-]. apply after_watchlist_all.
Qed.

Lemma after_popular_all o cands :
  after_popular self http shuffle o = Ok cands → cands_all P cands.
Proof.
  unfold after_popular.
  destruct (after_similar self http shuffle o) as [cs|] eqn:E; simpl; [|done].
  apply after_similar_all in E.
  destruct (popular_guard self o cs).
  - by apply pass_popular_all.
  - by intros [= <-].
Qed.

Lemma aggregate_all o cands :
  aggregate self http shuffle o = Ok cands → cands_all P cands.
Proof.
  unfold aggregate.
  destruct (after_popular self http shuffle o) as [cs|] eqn:E; simpl; [|done].
  apply after_popular_all in E. intros [= <-].
  destruct (has_key self); [by apply enrich_all | done].
Qed.

End CandidateInvariant.

(** *** The watched filter *)

Lemma is_watched_false self title year :
  is_watched self title year = false ↔
  title = "" ∨ (normalize_title title, year) ∉ global_watched_index self.
Proof.
  unfold is_watched. case_decide as Ht.
  - split; [by left | done].
  - rewrite bool_decide_eq_false. split; [by right | by intros [?|?]].
Qed.

Lemma unwatched_new self title year url details_obj tmdb_obj :
  is_watched self title year = false →
  details_ok title year details_obj →
  unwatched_at_creation self
    (new_candidate title year url details_obj tmdb_obj).
Proof.
  intros Hw Hd. exists year. unfold new_candidate. simpl.
  destruct details_obj as [d|]; simpl in *.
  - destruct Hd as [Ht Hy]. split.
    + destruct (w_name d); simpl in *; by subst.
    + by right.
  - split; [done | by left].
Qed.

Lemma unwatched_enrich self http c :
  unwatched_at_creation self c →
  unwatched_at_creation self (enrich_candidate self http c).
Proof.
  unfold enrich_candidate. destruct (c_tmdb c); [done|].
  case_decide; [done|]. by destruct (tmdb_search_movie _ _ _ _).
Qed.

Lemma candidates_created_unwatched self http shuffle o cands :
  aggregate self http shuffle o = Ok cands →
  cands_all (unwatched_at_creation self) cands.
Proof.
  apply (aggregate_all self http shuffle (unwatched_at_creation self)
           (λ _, True)); try done.
  - apply unwatched_new.
  - apply unwatched_enrich.
  - intros user data _. by apply Forall_true.
Qed.

(** Claim C1.  Every candidate of the dictionary built by the aggregation was
    created by a call of [get_or_create] whose title and year passed the
    strict filter: [is_watched] is false for the candidate's title and the
    year given at creation, so (unless the title is empty, which the filter
    always lets through) the pair of the normalized title and that year is
    not in the group-wide index.  The year given at creation is the stored
    year, or what the stored raw year of the watchlist entry coerces to.
    This holds for every combination of the options. *)
Theorem aggregate_unwatched self http shuffle o cands cid c :
  aggregate self http shuffle o = Ok cands →
  (cid, c) ∈ cands →
  ∃ year : option Z,
    is_watched self (c_name c) year = false ∧
    (c_name c = "" ∨
     (normalize_title (c_name c), year) ∉ global_watched_index self) ∧
    (c_year c = py_of_year year ∨ coerce_year (c_year c) = year).
Proof.
  intros Hagg Hin.
  destruct (candidates_created_unwatched _ _ _ _ _ Hagg cid c Hin)
    as (year & Hw & Hy).
  exists year. split_and!; [done | by apply is_watched_false | done].
Qed.

(** *** The sort and the truncation keep elements of the list *)

Lemma insert_desc_perm x l : insert_desc x l ≡ₚ x :: l.
Proof.
  induction l as [|y l IH]; simpl; [done|].
  destruct (Qlt_le_dec _ _); [|done].
  rewrite IH. apply Permutation_swap.
Qed.

Lemma sort_desc_perm l : sort_desc l ≡ₚ l.
Proof.
  induction l as [|x l IH]; simpl; [done|].
  by rewrite insert_desc_perm, IH.
Qed.

Lemma elem_of_take_elem {A} (x : A) n l : x ∈ take n l → x ∈ l.
Proof.
  rewrite elem_of_take. intros (i & Hi & _). by eapply list_elem_of_lookup_2.
Qed.

Lemma elem_of_sort_desc r l : r ∈ sort_desc l ↔ r ∈ l.
Proof. by rewrite sort_desc_perm. Qed.

Lemma generate_recommendations_elem self http shuffle o rs r :
  generate_recommendations self http shuffle o = Ok rs →
  r ∈ rs →
  ∃ cands cid c,
    aggregate self http shuffle o = Ok cands ∧ (cid, c) ∈ cands ∧
    r = format_result (discovery_weight o) (cid, c).
Proof.
  unfold generate_recommendations. destruct (user_data self) as [|p ps].
  - intros [= <-] Hr. by apply elem_of_nil in Hr.
  - destruct (aggregate self http shuffle o) as [cands|]; simpl; [|done].
    intros [= <-] Hr. apply elem_of_take_elem in Hr.
    apply (proj1 (elem_of_sort_desc _ _)) in Hr.
    apply list_elem_of_fmap in Hr as ([cid c] & -> & Hin).
    by exists cands, cid, c.
Qed.

Lemma generate_recommendations_unwatched self http shuffle o rs r :
  generate_recommendations self http shuffle o = Ok rs →
  r ∈ rs →
  ∃ year : option Z,
    is_watched self (res_title r) year = false ∧
    (res_year r = py_of_year year ∨ coerce_year (res_year r) = year).
Proof.
  intros Hgen Hr.
  destruct (generate_recommendations_elem _ _ _ _ _ _ Hgen Hr)
    as (cands & cid & c & Hagg & Hin & ->).
  destruct (candidates_created_unwatched _ _ _ _ _ Hagg cid c Hin)
    as (y & ? & ?).
  by exists y.
Qed.

(** *** Scores of the returned entries *)


(** *** Contribution points *)



Lemma contribs_ok_similar user (sd : seed) tmdb_seed c :
  (8 ≤ sd.1.2)%Z → contribs_ok c →
  contribs_ok (add_similar user {| points := seed_points sd.1.2;
                                   from_movie := tm_title tmdb_seed;
                                   from_score := sd.1.2 |} c).
Proof.
  intros Hsd Hc u ks k. unfold add_similar. simpl.
  intros [[= -> ->]|Hin]%od_elem_set; [|by eapply Hc].
  intros [Hk|Hk%list_elem_of_singleton]%elem_of_app; [|by subst k].
  destruct (od_get user (c_similar c)) as [old|] eqn:E; simpl in Hk.
  - apply od_get_Some_elem in E. by eapply Hc.
  - by apply elem_of_nil in Hk.
Qed.

Lemma contribs_ok_enrich self http c :
  contribs_ok c → contribs_ok (enrich_candidate self http c).
Proof.
  unfold enrich_candidate. destruct (c_tmdb c); [done|].
  case_decide; [done|]. by destruct (tmdb_search_movie _ _ _ _).
Qed.

Lemma rated_seeds_admitted ratings (sd : seed) :
  sd ∈ rated_seeds ratings → (8 ≤ sd.1.2)%Z.
Proof.
  unfold rated_seeds. rewrite list_elem_of_omap.
  intros ([slug r_data] & _ & H). case_decide; [|done].
  by injection H as <-.
Qed.

Lemma liked_seeds_admitted data (sd : seed) : sd ∈ liked_seeds data → sd.1.2 = 10%Z.
Proof.
  unfold liked_seeds. rewrite list_elem_of_omap.
  intros (slug & _ & H). destruct (od_mem _ _); [done|]. by injection H as <-.
Qed.

Lemma collect_seeds_admitted data (sd : seed) :
  sd ∈ collect_seeds data → (8 ≤ sd.1.2)%Z.
Proof.
  unfold collect_seeds. case_decide.
  - intros [Hs|Hs]%elem_of_app; [by eapply rated_seeds_admitted|].
    apply liked_seeds_admitted in Hs. lia.
  - apply rated_seeds_admitted.
Qed.

Lemma selected_seeds_admitted shuffle user data :
  (∀ u l, shuffle u l ≡ₚ l) →
  Forall (λ sd : seed, (8 ≤ sd.1.2)%Z) (selected_seeds shuffle user data).
Proof.
  intros Hperm. apply Forall_forall. intros sd Hsd.
  apply elem_of_take_elem in Hsd. rewrite Hperm in Hsd.
  by eapply collect_seeds_admitted.
Qed.

Lemma aggregate_contribs_ok self http shuffle o cands :
  (∀ u l, shuffle u l ≡ₚ l) →
  aggregate self http shuffle o = Ok cands →
  cands_all contribs_ok cands.
Proof.
  intros Hperm.
  apply (aggregate_all self http shuffle contribs_ok
           (λ sd : seed, (8 ≤ sd.1.2)%Z)); try done.
  - intros title year url d t _ _ u ks k H. by apply elem_of_nil in H.
  - intros user sd tmdb_seed c. apply contribs_ok_similar.
  - apply contribs_ok_enrich.
  - intros user data _. by apply selected_seeds_admitted.
Qed.


(** *** Monotonicity of the score *)

Lemma Qsum_nonneg (l : list Q) :
  Forall (λ p, 0 < p)%Q l → (0 <= Qsum l)%Q.
Proof. induction 1; simpl; lra. Qed.





(** *** The passes as folds over their calls *)

Lemma fold_left_flat_map {A B S} (ap : S → B → S) (h : A → list B) l s :
  fold_left (λ s a, fold_left ap (h a) s) l s = fold_left ap (flat_map h l) s.
Proof.
  revert s. induction l as [|a l IH]; intros s; simpl; [done|].
  by rewrite fold_left_app, IH.
Qed.

Lemma for_each_flat {A B S} (ap : S → B → S) (g : A → exc (list B))
    (body : S → A → exc S) l s :
  (∀ s a, body s a = (ks ← g a; mret (fold_left ap ks s))) →
  for_each body l s = (ks ← exc_flat_map g l; mret (fold_left ap ks s)).
Proof.
  intros Hbody. revert s. induction l as [|a l IH]; intros s; simpl; [done|].
  rewrite Hbody. destruct (g a) as [ks|msg]; simpl; [|done].
  rewrite IH. destruct (exc_flat_map g l) as [rest|msg]; simpl; [|done].
  by rewrite fold_left_app.
Qed.

Lemma fold_left_ext {A S} (f g : S → A → S) l s :
  (∀ s a, f s a = g s a) → fold_left f l s = fold_left g l s.
Proof.
  intros Hfg. revert s. induction l as [|a l IH]; intros s; simpl; [done|].
  by rewrite Hfg, IH.
Qed.

Lemma fold_left_fmap {A B S} (f : S → B → S) (h : A → B) l s :
  fold_left f (h <$> l) s = fold_left (λ s a, f s (h a)) l s.
Proof. revert s. induction l as [|a l IH]; intros s; simpl; [done|]. apply IH. Qed.

Lemma for_each_ext {A S} (f g : S → A → exc S) l s :
  (∀ s a, f s a = g s a) → for_each f l s = for_each g l s.
Proof.
  intros Hfg. revert s. induction l as [|a l IH]; intros s; simpl; [done|].
  rewrite Hfg. destruct (g s a); simpl; [apply IH | done].
Qed.

Lemma watchlist_item_call self http user cands item :
  watchlist_item self http user cands item
  = apply_call self cands (watchlist_call self http user item).
Proof. by destruct item. Qed.

Lemma pass_watchlist_calls self http cands :
  pass_watchlist self http cands
  = fold_left (apply_call self) (watchlist_calls self http) cands.
Proof.
  unfold pass_watchlist, watchlist_calls.
  rewrite <- fold_left_flat_map. apply fold_left_ext.
  intros cs [user data]. simpl. rewrite fold_left_fmap.
  apply fold_left_ext. intros. apply watchlist_item_call.
Qed.

Lemma similar_rec_call self user seed_score tmdb_seed cands rec :
  similar_rec self user seed_score tmdb_seed cands rec
  = (ks ← similar_call user seed_score tmdb_seed rec;
     mret (fold_left (apply_call self) ks cands)).
Proof.
  unfold similar_rec, similar_call.
  by destruct (release_year rec) as [check_year|].
Qed.

Lemma similar_seed_calls self http user cands sd :
  similar_seed self http user cands sd
  = (ks ← seed_calls self http user sd;
     mret (fold_left (apply_call self) ks cands)).
Proof.
  unfold similar_seed, seed_calls.
  destruct (tmdb_search_movie _ _ _ _) as [tmdb_seed|]; [|done].
  apply for_each_flat. intros. apply similar_rec_call.
Qed.

Lemma pass_similar_calls self http shuffle cands :
  pass_similar self http shuffle cands
  = (ks ← similar_calls self http shuffle;
     mret (fold_left (apply_call self) ks cands)).
Proof.
  unfold pass_similar, similar_calls.
  apply for_each_flat. intros cs [user data]. simpl.
  apply for_each_flat. intros. apply similar_seed_calls.
Qed.

Lemma popular_rec_call self cands p :
  popular_rec self cands p
  = (ks ← popular_call p; mret (fold_left (apply_call self) ks cands)).
Proof.
  unfold popular_rec, popular_call. by destruct (release_year p) as [year|].
Qed.

Lemma pass_popular_calls self http cands :
  pass_popular self http cands
  = (ks ← popular_calls self http;
     mret (fold_left (apply_call self) ks cands)).
Proof.
  unfold pass_popular, popular_calls.
  apply for_each_flat. intros. apply popular_rec_call.
Qed.

Lemma after_watchlist_calls self http o :
  after_watchlist self http o
  = fold_left (apply_call self)
      (if use_watchlist o then watchlist_calls self http else []) [].
Proof.
  unfold after_watchlist. destruct (use_watchlist o); [|done].
  apply pass_watchlist_calls.
Qed.

Lemma after_similar_calls self http shuffle o :
  after_similar self http shuffle o
  = (ks ← organic_calls self http shuffle o;
     mret (fold_left (apply_call self) ks [])).
Proof.
  unfold after_similar, organic_calls. rewrite after_watchlist_calls.
  destruct (use_similar o && has_key self); simpl.
  - rewrite pass_similar_calls.
    destruct (similar_calls self http shuffle) as [c2|]; simpl; [|done].
    by rewrite fold_left_app.
  - by rewrite app_nil_r.
Qed.

Lemma after_popular_calls self http shuffle o :
  after_popular self http shuffle o
  = (ks ← run_calls self http shuffle o;
     mret (fold_left (apply_call self) ks [])).
Proof.
  unfold after_popular, run_calls. rewrite after_similar_calls.
  destruct (organic_calls self http shuffle o) as [c12|]; simpl; [|done].
  destruct (popular_guard self o _); simpl.
  - rewrite pass_popular_calls.
    destruct (popular_calls self http) as [c3|]; simpl; [|done].
    by rewrite fold_left_app.
  - by rewrite app_nil_r.
Qed.

Lemma aggregate_calls self http shuffle o :
  aggregate self http shuffle o
  = (ks ← run_calls self http shuffle o;
     let candidates := fold_left (apply_call self) ks [] in
     mret (if has_key self then enrich self http candidates else candidates)).
Proof.
  unfold aggregate. rewrite after_popular_calls.
  by destruct (run_calls self http shuffle o).
Qed.

(** *** One key at a time *)

Lemma od_get_apply_call self cands k cid :
  od_get cid (apply_call self cands k) = call_step self cid (od_get cid cands) k.
Proof.
  unfold apply_call, get_or_create, call_step, od_mem.
  destruct (is_watched self (k_title k) (k_year k)); [done|].
  destruct (od_get (k_id k) cands) as [c0|] eqn:E.
  - case_decide as Hid.
    + subst cid. by rewrite od_get_alter_eq, E.
    + by rewrite od_get_alter_ne.
  - case_decide as Hid.
    + subst cid. by rewrite od_get_alter_eq, od_get_set_eq, E.
    + by rewrite od_get_alter_ne, od_get_set_ne.
Qed.

Lemma od_get_apply_calls self calls cands cid :
  od_get cid (fold_left (apply_call self) calls cands)
  = fold_left (call_step self cid) calls (od_get cid cands).
Proof.
  revert cands. induction calls as [|k calls IH]; intros cands; simpl; [done|].
  by rewrite IH, od_get_apply_call.
Qed.

Lemma apply_call_NoDup self cands k :
  NoDup cands.*1 → NoDup (apply_call self cands k).*1.
Proof.
  intros Hnd. unfold apply_call, get_or_create.
  destruct (is_watched _ _ _); [done|].
  destruct (od_mem _ _); rewrite od_keys_alter; [done|].
  by apply od_set_NoDup.
Qed.

Lemma apply_calls_NoDup self calls cands :
  NoDup cands.*1 → NoDup (fold_left (apply_call self) calls cands).*1.
Proof.
  revert cands. induction calls as [|k calls IH]; intros cands Hnd; simpl;
    [done|].
  by apply IH, apply_call_NoDup.
Qed.

Lemma od_key_is_Some {V} k (d : odict V) : k ∈ d.*1 ↔ is_Some (od_get k d).
Proof.
  rewrite <- not_eq_None_Some, od_get_None.
  split; [tauto|]. intros Hnn. by destruct (decide (k ∈ d.*1)).
Qed.

Lemma kind_update_sources kd c :
  c_sources (kind_update kd c) = c_sources c ∪ {[ kind_tag kd ]}.
Proof. by destruct kd. Qed.

Lemma call_step_is_Some self cid oc k :
  is_Some (call_step self cid oc k) ↔
  is_Some oc ∨ (accepted self k ∧ k_id k = cid).
Proof.
  unfold call_step, accepted.
  destruct (is_watched _ _ _).
  { split; [by left | by intros [?|[? _]]]. }
  case_decide.
  - split; [by right | by eexists].
  - split; [by left | by intros [?|[_ ?]]].
Qed.

Lemma call_steps_is_Some self cid calls oc :
  is_Some (fold_left (call_step self cid) calls oc) ↔
  is_Some oc ∨ ∃ k, k ∈ calls ∧ accepted self k ∧ k_id k = cid.
Proof.
  revert oc. induction calls as [|k calls IH]; intros oc; simpl.
  - split; [by left|]. intros [?|(k & Hk & _)]; [done|].
    by apply elem_of_nil in Hk.
  - rewrite IH, call_step_is_Some. split.
    + intros [[?|[? ?]]|(k' & ? & ? & ?)].
      * by left.
      * right. exists k. split; [left | done].
      * right. exists k'. split; [by right | done].
    + intros [?|(k' & [->|?]%elem_of_cons & ? & ?)].
      * by left; left.
      * by left; right.
      * right. by exists k'.
Qed.

Lemma call_step_sources self cid oc k c tag :
  call_step self cid oc k = Some c →
  tag ∈ c_sources c ↔
  (∃ c0, oc = Some c0 ∧ tag ∈ c_sources c0) ∨
  (accepted self k ∧ k_id k = cid ∧ kind_tag (k_kind k) = tag).
Proof.
  unfold call_step, accepted.
  destruct (is_watched _ _ _) eqn:Hw.
  - intros ->. split; [left; by exists c | intros [(c0 & [= <-] & ?)|[? _]]; done].
  - case_decide as Hid.
    + intros [= <-]. rewrite kind_update_sources, elem_of_union,
        elem_of_singleton.
      destruct oc as [c0|]; simpl.
      * split.
        -- intros [?| ->]; [left; by exists c0 | by right].
        -- intros [(c1 & [= <-] & ?)|(_ & _ & <-)]; [by left | by right].
      * split.
        -- intros [H| ->]; [by apply not_elem_of_empty in H | by right].
        -- intros [(c1 & ? & ?)|(_ & _ & <-)]; [done | by right].
    + intros ->. split; [left; by exists c |].
      intros [(c0 & [= <-] & ?)|(_ & ? & _)]; done.
Qed.

Lemma call_steps_sources self cid calls oc c tag :
  fold_left (call_step self cid) calls oc = Some c →
  tag ∈ c_sources c ↔
  (∃ c0, oc = Some c0 ∧ tag ∈ c_sources c0) ∨
  (∃ k, k ∈ calls ∧ accepted self k ∧ k_id k = cid
        ∧ kind_tag (k_kind k) = tag).
Proof.
  revert oc. induction calls as [|k calls IH]; intros oc; simpl.
  - intros ->. split; [left; by exists c|].
    intros [(c0 & [= <-] & ?)|(k & Hk & _)]; [done|].
    by apply elem_of_nil in Hk.
  - intros Hfold. rewrite (IH _ Hfold). split.
    + intros [(c1 & Hc1 & Htag)|(k' & ? & ?)].
      * apply (call_step_sources _ _ _ _ _ tag) in Hc1.
        apply Hc1 in Htag as [?|?]; [by left|].
        right. exists k. split; [left | done].
      * right. exists k'. split; [by right | done].
    + intros [(c0 & -> & Htag)|(k' & [->|?]%elem_of_cons & Hacc)].
      * left. destruct (call_step self cid (Some c0) k) as [c1|] eqn:E.
        -- exists c1. split; [done|].
           apply (call_step_sources _ _ _ _ _ tag E). left. by exists c0.
        -- assert (is_Some (call_step self cid (Some c0) k)) as [? ?]
             by (apply call_step_is_Some; by left). congruence.
      * left. destruct (call_step self cid oc k) as [c1|] eqn:E.
        -- exists c1. split; [done|].
           apply (call_step_sources _ _ _ _ _ tag E). by right.
        -- assert (is_Some (call_step self cid oc k)) as [? ?]
             by (apply call_step_is_Some; right; tauto). congruence.
      * right. by exists k'.
Qed.

(** *** Enrichment keeps keys and everything but [tmdb] *)

Lemma enrich_keys self http cands : (enrich self http cands).*1 = cands.*1.
Proof.
  unfold enrich. induction cands as [|[k c] cands IH]; csimpl; [done|].
  by rewrite IH.
Qed.

Lemma enrich_elem self http cands cid c :
  (cid, c) ∈ enrich self http cands →
  ∃ c0, (cid, c0) ∈ cands ∧ c = enrich_candidate self http c0.
Proof.
  unfold enrich. intros ([cid' c0] & [= -> ->] & Hin)%list_elem_of_fmap.
  by exists c0.
Qed.

Lemma enrich_candidate_sources self http c :
  c_sources (enrich_candidate self http c) = c_sources c.
Proof.
  unfold enrich_candidate. destruct (c_tmdb c); [done|].
  case_decide; [done|]. by destruct (tmdb_search_movie _ _ _ _).
Qed.

Lemma tmdb_key_inj m1 m2 : tmdb_key m1 = tmdb_key m2 ↔ tm_id m1 = tm_id m2.
Proof.
  unfold tmdb_key. split; [|by intros ->].
  intros H. assert (pretty (tm_id m1) = pretty (tm_id m2)) as Hp.
  { cbn in H. by injection H. }
  by apply (inj pretty) in Hp.
Qed.

(** Claim C4.  The dictionary built by the aggregation holds each id once.
    An id is a key exactly when some call of [get_or_create] with that id
    passed the filter, whatever the pass or the user, and the sources of its
    candidate are exactly the tags of those calls. *)
Theorem aggregate_merges self http shuffle o cands :
  aggregate self http shuffle o = Ok cands →
  ∃ calls,
    run_calls self http shuffle o = Ok calls ∧
    NoDup cands.*1 ∧
    (∀ cid, cid ∈ cands.*1 ↔
            ∃ k, k ∈ calls ∧ accepted self k ∧ k_id k = cid) ∧
    (∀ cid c tag, (cid, c) ∈ cands →
       tag ∈ c_sources c ↔
       ∃ k, k ∈ calls ∧ accepted self k ∧ k_id k = cid
            ∧ kind_tag (k_kind k) = tag).
Proof.
  rewrite aggregate_calls.
  destruct (run_calls self http shuffle o) as [calls|]; simpl; [|done].
  intros [= <-]. exists calls. split; [done|].
  set (cs := fold_left (apply_call self) calls []).
  assert (NoDup cs.*1) as Hnd by (apply apply_calls_NoDup; constructor).
  assert (∀ cid, cid ∈ cs.*1 ↔
            ∃ k, k ∈ calls ∧ accepted self k ∧ k_id k = cid) as Hkeys.
  { intros cid. rewrite od_key_is_Some. unfold cs.
    rewrite od_get_apply_calls, call_steps_is_Some. simpl.
    split; [intros [[? ?]|?]; done | by right]. }
  assert (∀ cid c tag, (cid, c) ∈ cs →
            tag ∈ c_sources c ↔
            ∃ k, k ∈ calls ∧ accepted self k ∧ k_id k = cid
                 ∧ kind_tag (k_kind k) = tag) as Hsrc.
  { intros cid c tag Hin. apply od_elem_get in Hin; [|done].
    unfold cs in Hin. rewrite od_get_apply_calls in Hin.
    rewrite (call_steps_sources _ _ _ _ _ tag Hin). simpl.
    split; [intros [(? & ? & _)|?]; done | by right]. }
  destruct (has_key self); [|done].
  rewrite enrich_keys. split_and!; [done | done |].
  intros cid c tag (c0 & Hin & ->)%enrich_elem.
  rewrite enrich_candidate_sources. by apply Hsrc.
Qed.

(** *** The popular fallback *)

Lemma exc_flat_map_elem {A B} (g : A → exc (list B)) l ks a :
  exc_flat_map g l = Ok ks → a ∈ l →
  ∃ ka, g a = Ok ka ∧ ∀ b, b ∈ ka → b ∈ ks.
Proof.
  revert ks. induction l as [|a0 l IH]; intros ks; simpl.
  - intros _ Ha. by apply elem_of_nil in Ha.
  - destruct (g a0) as [k0|] eqn:E0; simpl; [|done].
    destruct (exc_flat_map g l) as [rest|]; simpl; [|done].
    intros [= <-] [->|Ha]%elem_of_cons.
    + exists k0. split; [done|]. intros b Hb. apply elem_of_app. by left.
    + destruct (IH rest eq_refl Ha) as (ka & Hka & Hsub).
      exists ka. split; [done|]. intros b Hb. apply elem_of_app. right. auto.
Qed.

Lemma popular_guard_spec self o cands :
  popular_guard self o cands = true ↔
  use_popular o = true ∧ tmdb_api_key self ≠ "" ∧ length cands < 20.
Proof.
  unfold popular_guard, has_key.
  rewrite !andb_true_iff, negb_true_iff, bool_decide_eq_false,
    bool_decide_eq_true.
  tauto.
Qed.

Lemma no_popular_similar user k c :
  Popular ∉ c_sources c → Popular ∉ c_sources (add_similar user k c).
Proof.
  unfold add_similar. simpl. rewrite elem_of_union, elem_of_singleton.
  by intros Hc [?|?].
Qed.

Lemma no_popular_watchlist user c :
  Popular ∉ c_sources c → Popular ∉ c_sources (add_watchlist_user user c).
Proof.
  unfold add_watchlist_user. simpl. rewrite elem_of_union, elem_of_singleton.
  by intros Hc [?|?].
Qed.

Lemma after_similar_no_popular self http shuffle o cands cid c :
  after_similar self http shuffle o = Ok cands →
  (cid, c) ∈ cands → Popular ∉ c_sources c.
Proof.
  intros Hc Hin.
  refine (after_similar_all self http shuffle
            (λ c, Popular ∉ c_sources c) (λ _, True) _ _ _ _
            o cands Hc cid c Hin).
  - intros title year url d t _ _. simpl. apply not_elem_of_empty.
  - intros user c0. apply no_popular_watchlist.
  - intros user sd ts c0 _. apply no_popular_similar.
  - intros user data _. by apply Forall_true.
Qed.

(** Claim C8.  After passes 1 and 2: if the popular source is enabled, the
    API key is set and fewer than 20 candidates exist, the result is that of
    the popular pass, in which every popular record that passes the filter
    has a candidate tagged [Popular]; otherwise the dictionary is left as it
    is and no candidate is tagged [Popular]. *)
Theorem popular_pass_guard self http shuffle o cands2 cands3 :
  after_similar self http shuffle o = Ok cands2 →
  after_popular self http shuffle o = Ok cands3 →
  (use_popular o = true ∧ tmdb_api_key self ≠ "" ∧ length cands2 < 20 →
     pass_popular self http cands2 = Ok cands3 ∧
     ∀ p, p ∈ tmdb_get_popular http (tmdb_api_key self) →
       ∃ year, release_year p = Ok year ∧
         (is_watched self (tm_title p) year = false →
          ∃ c, (tmdb_key p, c) ∈ cands3 ∧ Popular ∈ c_sources c)) ∧
  (¬ (use_popular o = true ∧ tmdb_api_key self ≠ "" ∧ length cands2 < 20) →
     cands3 = cands2 ∧
     ∀ cid c, (cid, c) ∈ cands3 → Popular ∉ c_sources c).
Proof.
  intros H2 H3. unfold after_popular in H3. rewrite H2 in H3. simpl in H3.
  split.
  - intros Hg%popular_guard_spec. rewrite Hg in H3. split; [done|].
    rewrite pass_popular_calls in H3.
    destruct (popular_calls self http) as [ks|] eqn:Eks; simpl in H3; [|done].
    injection H3 as <-. intros p Hp.
    destruct (exc_flat_map_elem _ _ _ _ Eks Hp) as (kp & Hkp & Hsub).
    unfold popular_call in Hkp.
    destruct (release_year p) as [year|] eqn:Ey; simpl in Hkp; [|done].
    injection Hkp as <-. exists year. split; [done|]. intros Hw.
    set (k := {| k_id := tmdb_key p; k_title := tm_title p; k_year := year;
                 k_url := ""; k_details := None; k_tmdb := Some p;
                 k_kind := FromPopular |}) in *.
    assert (k ∈ ks) as Hk by (apply Hsub; left).
    assert (is_Some (od_get (tmdb_key p)
                       (fold_left (apply_call self) ks cands2))) as [c Hc].
    { rewrite od_get_apply_calls. apply call_steps_is_Some. right.
      by exists k. }
    exists c. split; [by apply od_get_Some_elem|].
    rewrite od_get_apply_calls in Hc.
    apply (call_steps_sources _ _ _ _ _ Popular Hc). right. by exists k.
  - intros Hng. destruct (popular_guard self o cands2) eqn:Hg.
    + by apply popular_guard_spec in Hg.
    + injection H3 as <-. split; [done|]. intros cid c.
      by apply (after_similar_no_popular self http shuffle o).
Qed.

(** *** The order of the seeds *)

Lemma same_signals_refl c : same_signals c c.
Proof. by split_and!. Qed.

Lemma same_signals_sym c1 c2 : same_signals c1 c2 → same_signals c2 c1.
Proof. intros (? & ? & ?). by split_and!. Qed.

Lemma same_signals_trans c1 c2 c3 :
  same_signals c1 c2 → same_signals c2 c3 → same_signals c1 c3.
Proof.
  intros (? & ? & ?) (? & ? & ?). split_and!; [congruence | congruence |].
  by etrans.
Qed.

Lemma opt_same_refl o : opt_same_signals o o.
Proof. destruct o; simpl; [apply same_signals_refl | done]. Qed.

Lemma opt_same_trans o1 o2 o3 :
  opt_same_signals o1 o2 → opt_same_signals o2 o3 → opt_same_signals o1 o3.
Proof.
  destruct o1, o2, o3; simpl; try done. apply same_signals_trans.
Qed.

Lemma flat_contribs_add sim user k :
  flat_map (λ uc : string * list contribution, pair uc.1 <$> uc.2)
    (od_set user (default [] (od_get user sim) ++ [k]) sim)
  ≡ₚ flat_map (λ uc : string * list contribution, pair uc.1 <$> uc.2) sim
     ++ [(user, k)].
Proof.
  induction sim as [|[u0 ks0] sim IH]; simpl; [done|].
  case_decide as Hu; simpl.
  - subst u0. rewrite fmap_app. simpl.
    rewrite <- !(assoc_L (++)). f_equiv. apply Permutation_app_comm.
  - rewrite IH. by rewrite (assoc_L (++)).
Qed.

Lemma flat_contribs_add_similar user k c :
  flat_contribs (add_similar user k c) ≡ₚ flat_contribs c ++ [(user, k)].
Proof. apply flat_contribs_add. Qed.

Lemma kind_update_signals kd c :
  c_watchlist_users (kind_update kd c) = c_watchlist_users c ∪ kind_users kd ∧
  c_sources (kind_update kd c) = c_sources c ∪ {[ kind_tag kd ]} ∧
  flat_contribs (kind_update kd c) ≡ₚ flat_contribs c ++ kind_contribs kd.
Proof.
  destruct kd as [user|user k|]; split_and!; cbn;
    rewrite ?union_empty_r_L, ?app_nil_r; try done.
  apply flat_contribs_add.
Qed.

Lemma kind_update_same kd c1 c2 :
  same_signals c1 c2 →
  same_signals (kind_update kd c1) (kind_update kd c2).
Proof.
  intros (Hw & Hs & Hc).
  destruct (kind_update_signals kd c1) as (Hw1 & Hs1 & Hc1).
  destruct (kind_update_signals kd c2) as (Hw2 & Hs2 & Hc2).
  split_and!; [congruence | congruence |].
  by rewrite Hc1, Hc2, Hc.
Qed.

Lemma kind_update_comm kd1 kd2 c1 c2 :
  same_signals c1 c2 →
  same_signals (kind_update kd2 (kind_update kd1 c1))
               (kind_update kd1 (kind_update kd2 c2)).
Proof.
  intros (Hw & Hs & Hc).
  destruct (kind_update_signals kd1 c1) as (Hw1 & Hs1 & Hc1).
  destruct (kind_update_signals kd2 (kind_update kd1 c1)) as (Hw12 & Hs12 & Hc12).
  destruct (kind_update_signals kd2 c2) as (Hw2 & Hs2 & Hc2).
  destruct (kind_update_signals kd1 (kind_update kd2 c2)) as (Hw21 & Hs21 & Hc21).
  split_and!.
  - rewrite Hw12, Hw1, Hw21, Hw2, Hw.
    rewrite <- !(assoc_L (∪)). f_equal. apply (comm_L (∪)).
  - rewrite Hs12, Hs1, Hs21, Hs2, Hs.
    rewrite <- !(assoc_L (∪)). f_equal. apply (comm_L (∪)).
  - rewrite Hc12, Hc1, Hc21, Hc2, Hc.
    rewrite <- !(assoc_L (++)). f_equiv. apply Permutation_app_comm.
Qed.

Lemma new_candidate_same t1 y1 u1 d1 m1 t2 y2 u2 d2 m2 :
  same_signals (new_candidate t1 y1 u1 d1 m1) (new_candidate t2 y2 u2 d2 m2).
Proof. by split_and!. Qed.

Lemma call_step_same self cid o1 o2 k :
  opt_same_signals o1 o2 →
  opt_same_signals (call_step self cid o1 k) (call_step self cid o2 k).
Proof.
  intros Ho. unfold call_step. destruct (is_watched _ _ _); [done|].
  case_decide; [|done]. simpl. apply kind_update_same.
  destruct o1, o2; simpl in *; try done; apply same_signals_refl.
Qed.

Lemma call_step_comm self cid oc k1 k2 :
  opt_same_signals (call_step self cid (call_step self cid oc k1) k2)
                   (call_step self cid (call_step self cid oc k2) k1).
Proof.
  unfold call_step.
  destruct (is_watched self (k_title k1) (k_year k1)),
           (is_watched self (k_title k2) (k_year k2));
    try apply opt_same_refl.
  destruct (decide (k_id k1 = cid)), (decide (k_id k2 = cid));
    try apply opt_same_refl.
  simpl. apply kind_update_comm.
  destruct oc; simpl; [apply same_signals_refl | apply new_candidate_same].
Qed.

Lemma call_steps_same self cid calls o1 o2 :
  opt_same_signals o1 o2 →
  opt_same_signals (fold_left (call_step self cid) calls o1)
                   (fold_left (call_step self cid) calls o2).
Proof.
  revert o1 o2. induction calls as [|k calls IH]; intros o1 o2 Ho; simpl;
    [done|].
  by apply IH, call_step_same.
Qed.

Lemma call_steps_perm self cid calls1 calls2 :
  calls1 ≡ₚ calls2 →
  ∀ oc, opt_same_signals (fold_left (call_step self cid) calls1 oc)
                         (fold_left (call_step self cid) calls2 oc).
Proof.
  induction 1 as [|k l1 l2 _ IH|k1 k2 l|l1 l2 l3 _ IH1 _ IH2]; intros oc; simpl.
  - apply opt_same_refl.
  - apply IH.
  - apply call_steps_same, call_step_comm.
  - eapply opt_same_trans; [apply IH1 | apply IH2].
Qed.

(** *** Collected calls under a permutation of the loop *)

Lemma exc_flat_map_perm {A B} (g : A → exc (list B)) l1 l2 :
  l1 ≡ₚ l2 →
  ∀ ks1, exc_flat_map g l1 = Ok ks1 →
  ∃ ks2, exc_flat_map g l2 = Ok ks2 ∧ ks1 ≡ₚ ks2.
Proof.
  induction 1 as [|a l1 l2 _ IH|a b l|l1 l2 l3 _ IH1 _ IH2]; intros ks1; simpl.
  - intros [= <-]. by exists [].
  - destruct (g a) as [ka|]; simpl; [|done].
    destruct (exc_flat_map g l1) as [r1|]; simpl; [|done].
    intros [= <-]. destruct (IH r1 eq_refl) as (r2 & -> & Hr). simpl.
    exists (ka ++ r2). split; [done|]. by f_equiv.
  - destruct (g b) as [kb|]; simpl; [|done].
    destruct (g a) as [ka|]; simpl; [|done].
    destruct (exc_flat_map g l) as [r|]; simpl; [|done].
    intros [= <-]. exists (ka ++ kb ++ r). split; [done|].
    rewrite !(assoc_L (++)). f_equiv. apply Permutation_app_comm.
  - intros H1. destruct (IH1 _ H1) as (ks2 & H2 & Hp12).
    destruct (IH2 _ H2) as (ks3 & H3 & Hp23).
    exists ks3. split; [done | by etrans].
Qed.

Lemma exc_flat_map_pointwise {A B} (g1 g2 : A → exc (list B)) l :
  (∀ a k1, a ∈ l → g1 a = Ok k1 → ∃ k2, g2 a = Ok k2 ∧ k1 ≡ₚ k2) →
  ∀ ks1, exc_flat_map g1 l = Ok ks1 →
  ∃ ks2, exc_flat_map g2 l = Ok ks2 ∧ ks1 ≡ₚ ks2.
Proof.
  induction l as [|a l IH]; intros Hg ks1; simpl.
  - intros [= <-]. by exists [].
  - destruct (g1 a) as [k1|] eqn:E1; simpl; [|done].
    destruct (exc_flat_map g1 l) as [r1|]; simpl; [|done].
    intros [= <-].
    destruct (Hg a k1 ltac:(left) E1) as (k2 & -> & Hk).
    destruct (IH (λ a' k' Ha', Hg a' k' (list_elem_of_further _ _ _ Ha'))
                r1 eq_refl) as (r2 & -> & Hr).
    simpl. exists (k2 ++ r2). split; [done|]. by f_equiv.
Qed.

Lemma selected_seeds_all shuffle user data :
  (∀ u l, shuffle u l ≡ₚ l) →
  length (collect_seeds data) ≤ 6 →
  selected_seeds shuffle user data ≡ₚ collect_seeds data.
Proof.
  intros Hperm Hlen. unfold selected_seeds.
  rewrite take_ge; [done|]. by rewrite Hperm.
Qed.

Lemma similar_calls_shuffle self http sh1 sh2 s1 :
  (∀ u l, sh1 u l ≡ₚ l) → (∀ u l, sh2 u l ≡ₚ l) →
  (∀ user data, (user, data) ∈ user_data self →
     length (collect_seeds data) ≤ 6) →
  similar_calls self http sh1 = Ok s1 →
  ∃ s2, similar_calls self http sh2 = Ok s2 ∧ s1 ≡ₚ s2.
Proof.
  intros H1 H2 Hlen. unfold similar_calls.
  apply exc_flat_map_pointwise. intros [user data] k1 Hin. simpl.
  apply exc_flat_map_perm.
  rewrite !selected_seeds_all by eauto. done.
Qed.

Lemma organic_calls_shuffle self http sh1 sh2 o c1 :
  (∀ u l, sh1 u l ≡ₚ l) → (∀ u l, sh2 u l ≡ₚ l) →
  (∀ user data, (user, data) ∈ user_data self →
     length (collect_seeds data) ≤ 6) →
  organic_calls self http sh1 o = Ok c1 →
  ∃ c2, organic_calls self http sh2 o = Ok c2 ∧ c1 ≡ₚ c2.
Proof.
  intros H1 H2 Hlen. unfold organic_calls.
  destruct (use_similar o && has_key self); simpl.
  - destruct (similar_calls self http sh1) as [s1|] eqn:E1; simpl; [|done].
    intros [= <-].
    destruct (similar_calls_shuffle _ _ _ _ _ H1 H2 Hlen E1) as (s2 & -> & Hs).
    simpl. eexists. split; [done|]. by f_equiv.
  - intros [= <-]. by eexists.
Qed.

(** *** The dictionaries built from permuted calls *)

Lemma opt_same_is_Some o1 o2 :
  opt_same_signals o1 o2 → is_Some o1 ↔ is_Some o2.
Proof.
  by destruct o1, o2.
Qed.

Lemma apply_calls_perm_get self calls1 calls2 cid :
  calls1 ≡ₚ calls2 →
  opt_same_signals (od_get cid (fold_left (apply_call self) calls1 []))
                   (od_get cid (fold_left (apply_call self) calls2 [])).
Proof.
  intros Hp. rewrite !od_get_apply_calls. by apply call_steps_perm.
Qed.

Lemma apply_calls_perm_length self calls1 calls2 :
  calls1 ≡ₚ calls2 →
  length (fold_left (apply_call self) calls1 [])
  = length (fold_left (apply_call self) calls2 []).
Proof.
  intros Hp.
  rewrite <- (length_fmap fst (fold_left (apply_call self) calls1 [])).
  rewrite <- (length_fmap fst (fold_left (apply_call self) calls2 [])).
  apply Permutation_length, NoDup_Permutation.
  - apply apply_calls_NoDup. constructor.
  - apply apply_calls_NoDup. constructor.
  - intros cid. rewrite !od_key_is_Some.
    apply opt_same_is_Some. by apply apply_calls_perm_get.
Qed.

Lemma run_calls_shuffle self http sh1 sh2 o r1 :
  (∀ u l, sh1 u l ≡ₚ l) → (∀ u l, sh2 u l ≡ₚ l) →
  (∀ user data, (user, data) ∈ user_data self →
     length (collect_seeds data) ≤ 6) →
  run_calls self http sh1 o = Ok r1 →
  ∃ r2, run_calls self http sh2 o = Ok r2 ∧ r1 ≡ₚ r2.
Proof.
  intros H1 H2 Hlen. unfold run_calls.
  destruct (organic_calls self http sh1 o) as [c1|] eqn:E1; simpl; [|done].
  destruct (organic_calls_shuffle _ _ _ _ _ _ H1 H2 Hlen E1) as (c2 & -> & Hc).
  simpl.
  assert (popular_guard self o (fold_left (apply_call self) c1 [])
          = popular_guard self o (fold_left (apply_call self) c2 [])) as <-.
  { unfold popular_guard. by rewrite (apply_calls_perm_length _ _ _ Hc). }
  destruct (popular_guard self o _).
  - destruct (popular_calls self http) as [c3|]; simpl; [|done].
    intros [= <-]. eexists. split; [done|]. by f_equiv.
  - simpl. intros [= <-]. eexists. split; [done|]. by f_equiv.
Qed.

(** *** Signals determine the score *)

Lemma od_get_enrich self http cands cid :
  od_get cid (enrich self http cands)
  = enrich_candidate self http <$> od_get cid cands.
Proof.
  unfold enrich. induction cands as [|[k c] cands IH]; csimpl; [done|].
  by case_decide.
Qed.

Lemma enrich_candidate_same self http c :
  same_signals (enrich_candidate self http c) c.
Proof.
  unfold enrich_candidate. destruct (c_tmdb c); [apply same_signals_refl|].
  case_decide; [apply same_signals_refl|].
  destruct (tmdb_search_movie _ _ _ _); by split_and!.
Qed.

Lemma all_points_flat c :
  all_points c = (λ p : string * contribution, points p.2) <$> flat_contribs c.
Proof.
  unfold all_points, flat_contribs.
  induction (c_similar c) as [|[u ks] sim IH]; simpl; [done|].
  rewrite fmap_app, IH. f_equal.
  rewrite <- list_fmap_compose. done.
Qed.

Lemma Qsum_perm (l1 l2 : list Q) : l1 ≡ₚ l2 → (Qsum l1 == Qsum l2)%Q.
Proof. induction 1; simpl; lra. Qed.

Lemma same_signals_score weight c1 c2 :
  same_signals c1 c2 → (score_of weight c1 == score_of weight c2)%Q.
Proof.
  intros (Hw & _ & Hc). rewrite !score_of_closed.
  unfold wl_count. rewrite Hw.
  rewrite !all_points_flat.
  rewrite (Qsum_perm _ _ (fmap_Permutation _ _ _ Hc)). reflexivity.
Qed.

(** *** Runs that differ only in the shuffle *)

Lemma for_each_ext_in {A S} (f g : S → A → exc S) l s :
  (∀ s a, a ∈ l → f s a = g s a) → for_each f l s = for_each g l s.
Proof.
  revert s. induction l as [|a l IH]; intros s Hfg; simpl; [done|].
  rewrite Hfg by left. destruct (g s a); simpl; [|done].
  apply IH. intros s' a' Ha'. apply Hfg. by right.
Qed.

Lemma aggregate_same_order self http sh1 sh2 o :
  same_order self sh1 sh2 →
  aggregate self http sh1 o = aggregate self http sh2 o.
Proof.
  intros Hsame. unfold aggregate, after_popular, after_similar.
  assert (∀ cands, pass_similar self http sh1 cands
                   = pass_similar self http sh2 cands) as ->; [|done].
  intros cands. unfold pass_similar. apply for_each_ext_in.
  intros cs [user data] Hin. unfold selected_seeds.
  by rewrite (Hsame user data Hin).
Qed.

Lemma generate_same_order self http sh1 sh2 o :
  same_order self sh1 sh2 →
  generate_recommendations self http sh1 o
  = generate_recommendations self http sh2 o.
Proof.
  intros Hsame. unfold generate_recommendations.
  by rewrite (aggregate_same_order _ _ _ _ _ Hsame).
Qed.

Lemma aggregate_NoDup self http shuffle o cands :
  aggregate self http shuffle o = Ok cands → NoDup cands.*1.
Proof.
  rewrite aggregate_calls.
  destruct (run_calls self http shuffle o) as [calls|]; simpl; [|done].
  intros [= <-]. destruct (has_key self); rewrite ?enrich_keys;
    apply apply_calls_NoDup; constructor.
Qed.

Lemma aggregate_within_cap self http sh1 sh2 o cands1 :
  (∀ u l, sh1 u l ≡ₚ l) → (∀ u l, sh2 u l ≡ₚ l) →
  within_cap self →
  aggregate self http sh1 o = Ok cands1 →
  ∃ cands2,
    aggregate self http sh2 o = Ok cands2 ∧
    NoDup cands1.*1 ∧ NoDup cands2.*1 ∧
    ∀ cid, opt_same_signals (od_get cid cands1) (od_get cid cands2).
Proof.
  intros H1 H2 Hcap. rewrite !aggregate_calls.
  destruct (run_calls self http sh1 o) as [r1|] eqn:E1; simpl; [|done].
  destruct (run_calls_shuffle _ _ _ _ _ _ H1 H2 Hcap E1) as (r2 & -> & Hr).
  simpl. intros [= <-]. eexists. split; [done|].
  pose proof (apply_calls_NoDup self r1 [] (NoDup_nil_2)) as Hnd1.
  pose proof (apply_calls_NoDup self r2 [] (NoDup_nil_2)) as Hnd2.
  pose proof (λ cid, apply_calls_perm_get self r1 r2 cid Hr) as Hget.
  destruct (has_key self); [|done].
  rewrite !enrich_keys. split_and!; [done | done |].
  intros cid. rewrite !od_get_enrich. specialize (Hget cid).
  destruct (od_get cid (fold_left (apply_call self) r1 [])) as [c1|],
           (od_get cid (fold_left (apply_call self) r2 [])) as [c2|];
    simpl in *; try done.
  eapply same_signals_trans; [apply enrich_candidate_same|].
  eapply same_signals_trans; [exact Hget|].
  apply same_signals_sym, enrich_candidate_same.
Qed.

(** Claim C3, as amended.  Two runs on the same engine, with the same
    gateway answers and options, can differ only through [random.shuffle].
    When the shuffle leaves every user's seeds in the same order in both
    runs, the runs return the same list.  When the orders differ but no user
    has more than six seeds, both runs still build the same candidate ids,
    and each candidate has the same watchlist users, the same sources, the
    same contributions up to their order, and the same score (on exact
    numbers). *)
Theorem aggregate_up_to_shuffle self http sh1 sh2 o cands1 :
  (∀ u l, sh1 u l ≡ₚ l) → (∀ u l, sh2 u l ≡ₚ l) →
  same_order self sh1 sh2 ∨ within_cap self →
  aggregate self http sh1 o = Ok cands1 →
  ∃ cands2,
    aggregate self http sh2 o = Ok cands2 ∧
    (∀ cid, cid ∈ cands1.*1 ↔ cid ∈ cands2.*1) ∧
    (∀ cid c1 c2, (cid, c1) ∈ cands1 → (cid, c2) ∈ cands2 →
       same_signals c1 c2 ∧
       ∀ weight, (score_of weight c1 == score_of weight c2)%Q) ∧
    (same_order self sh1 sh2 →
       cands2 = cands1 ∧
       generate_recommendations self http sh1 o
       = generate_recommendations self http sh2 o).
Proof.
  intros H1 H2 Hcases Hagg.
  assert (∃ cands2,
    aggregate self http sh2 o = Ok cands2 ∧
    NoDup cands1.*1 ∧ NoDup cands2.*1 ∧
    ∀ cid, opt_same_signals (od_get cid cands1) (od_get cid cands2))
    as (cands2 & Hagg2 & Hnd1 & Hnd2 & Hget).
  { destruct Hcases as [Hsame|Hcap].
    - exists cands1. rewrite <- (aggregate_same_order _ _ _ _ _ Hsame).
      pose proof (aggregate_NoDup _ _ _ _ _ Hagg) as Hnd.
      split_and!; try done. intros cid. apply opt_same_refl.
    - by apply (aggregate_within_cap self http sh1 sh2 o). }
  exists cands2. split_and!; [done | | |].
  - intros cid. rewrite !od_key_is_Some. by apply opt_same_is_Some.
  - intros cid c1 c2 Hc1 Hc2.
    apply od_elem_get in Hc1; [|done]. apply od_elem_get in Hc2; [|done].
    specialize (Hget cid). rewrite Hc1, Hc2 in Hget. simpl in Hget.
    split; [done|]. intros weight. by apply same_signals_score.
  - intros Hsame. split; [|by apply generate_same_order].
    rewrite (aggregate_same_order _ _ _ _ _ Hsame) in Hagg. congruence.
Qed.

(** *** The sort is descending and stable, the cut keeps the best *)

Lemma insert_desc_sorted x l :
  StronglySorted score_ge l → StronglySorted score_ge (insert_desc x l).
Proof.
  induction 1 as [|y l Hl IH Hy]; simpl; [by repeat constructor|].
  destruct (Qlt_le_dec (res_score x) (res_score y)) as [Hlt|Hle].
  - constructor; [done|].
    apply Forall_forall. intros z. rewrite insert_desc_perm, elem_of_cons.
    intros [->|Hz].
    + unfold score_ge. lra.
    + rewrite Forall_forall in Hy. by apply Hy.
  - constructor; [by constructor|].
    constructor; [done|].
    eapply Forall_impl; [exact Hy|]. unfold score_ge. intros z Hz. lra.
Qed.

Lemma sort_desc_sorted l : StronglySorted score_ge (sort_desc l).
Proof.
  induction l as [|x l IH]; simpl; [constructor | by apply insert_desc_sorted].
Qed.


Lemma StronglySorted_take_of {A} (R : relation A) n l :
  StronglySorted R l → StronglySorted R (take n l).
Proof.
  intros Hs. revert n. induction Hs as [|x l Hl IH Hx]; intros [|n]; simpl;
    try constructor; [apply IH|].
  apply Forall_forall. intros y Hy%elem_of_take_elem.
  rewrite Forall_forall in Hx. by apply Hx.
Qed.

Lemma format_result_ids weight (cands : odict candidate) :
  res_id <$> (format_result weight <$> cands) = cands.*1.
Proof.
  rewrite <- list_fmap_compose. apply list_fmap_ext. by intros i [cid c].
Qed.




Lemma generate_recommendations_run self http shuffle o rs :
  user_data self ≠ [] →
  generate_recommendations self http shuffle o = Ok rs →
  ∃ cands,
    aggregate self http shuffle o = Ok cands ∧
    rs = take 100 (sort_desc (format_result (discovery_weight o) <$> cands)).
Proof.
  unfold generate_recommendations. destruct (user_data self); [done|].
  intros _. destruct (aggregate self http shuffle o) as [cands|]; [|done].
  simpl. intros [= <-]. by exists cands.
Qed.

(** The returned list holds at most 100 entries, in descending order of
    score, and no id twice. *)
Theorem generate_recommendations_sorted self http shuffle o rs :
  generate_recommendations self http shuffle o = Ok rs →
  length rs ≤ 100 ∧
  StronglySorted score_ge rs ∧
  NoDup (res_id <$> rs).
Proof.
  destruct (user_data self) as [|p ps] eqn:Eud.
  { unfold generate_recommendations. rewrite Eud. intros [= <-]. simpl.
    split_and!; [lia | constructor | constructor]. }
  intros Hgen.
  destruct (generate_recommendations_run self http shuffle o rs)
    as (cands & Hagg & ->); [by rewrite Eud | done |].
  split_and!.
  - rewrite length_take. lia.
  - apply StronglySorted_take_of, sort_desc_sorted.
  - eapply sublist_NoDup; [|apply fmap_sublist, sublist_take].
    rewrite sort_desc_perm, format_result_ids.
    by eapply aggregate_NoDup.
Qed.


(** *** The loop over the films *)

Lemma film_step_rating acc slug info :
  fa_ratings (film_step acc (slug, info))
  = match rating_of info with
    | Some e => od_set slug e (fa_ratings acc)
    | None => fa_ratings acc
    end.
Proof.
  unfold film_step, rating_of. simpl.
  destruct (truthy (f_rating info)); [|done].
  destruct (py_float (f_rating info)) as [val|]; [|done].
  by destruct (Qlt_le_dec 0 val).
Qed.

Lemma film_loop_index films acc t y :
  (t, y) ∈ fa_index (fold_left film_step films acc) ↔
  (t, y) ∈ fa_index acc ∨
  (t ≠ "" ∧ ∃ slug info, (slug, info) ∈ films ∧
     normalize_title (default "" (f_name info)) = t ∧
     coerce_year (f_year info) = y).
Proof.
  revert acc. induction films as [|[s info] films IH]; intros acc;
    cbn [fold_left].
  - split; [by left|]. intros [?|(_ & slug & i & H & _)]; [done|].
    by apply elem_of_nil in H.
  - rewrite IH. unfold film_step. cbn [fa_index].
    split.
    + intros [Hacc|(Ht & slug & i & Hin & Hrest)].
      * case_decide as Hne; [by left|].
        apply elem_of_union in Hacc as [?|Heq%elem_of_singleton]; [by left|].
        injection Heq as -> ->. right. split; [done|].
        exists s, info. split; [left | done].
      * right. split; [done|]. exists slug, i. split; [by right | done].
    + intros [Hacc|(Ht & slug & i & [Heq|Hin]%elem_of_cons & Hn & Hy)].
      * left. case_decide; [done|]. apply elem_of_union. by left.
      * injection Heq as -> ->. left. rewrite decide_False by congruence.
        apply elem_of_union. right. apply elem_of_singleton. congruence.
      * right. split; [done|]. by exists slug, i.
Qed.

Lemma film_loop_liked films acc slug :
  slug ∈ fa_liked (fold_left film_step films acc) ↔
  slug ∈ fa_liked acc ∨
  ∃ info, (slug, info) ∈ films ∧ truthy (f_liked info) = true.
Proof.
  revert acc. induction films as [|[s info] films IH]; intros acc;
    cbn [fold_left].
  - split; [by left|]. intros [?|(i & H & _)]; [done|].
    by apply elem_of_nil in H.
  - rewrite IH. unfold film_step. cbn [fa_liked].
    split.
    + intros [Hacc|(i & Hin & Hl)].
      * destruct (truthy (f_liked info)) eqn:El; [|by left].
        apply elem_of_union in Hacc as [?|Heq%elem_of_singleton]; [by left|].
        subst slug. right. exists info. split; [left | done].
      * right. exists i. split; [by right | done].
    + intros [Hacc|(i & [Heq|Hin]%elem_of_cons & Hl)].
      * left. destruct (truthy (f_liked info)); [|done].
        apply elem_of_union. by left.
      * injection Heq as -> ->. left. rewrite Hl.
        apply elem_of_union. right. by apply elem_of_singleton.
      * right. by exists i.
Qed.

Lemma film_loop_rating_keys films acc :
  NoDup (fa_ratings acc).*1 →
  NoDup (fa_ratings (fold_left film_step films acc)).*1 ∧
  ∀ slug, slug ∈ (fa_ratings (fold_left film_step films acc)).*1 →
          slug ∈ (fa_ratings acc).*1 ∨ slug ∈ films.*1.
Proof.
  revert acc. induction films as [|[s info] films IH]; intros acc Hnd;
    cbn [fold_left].
  - split; [done | by left].
  - destruct (IH (film_step acc (s, info))) as [Hnd' Hkeys].
    { rewrite film_step_rating. destruct (rating_of info); [|done].
      by apply od_set_NoDup. }
    split; [done|]. intros slug Hs. apply Hkeys in Hs as [Hs|Hs].
    + rewrite film_step_rating in Hs. destruct (rating_of info); [|by left].
      rewrite od_keys_set in Hs. destruct (od_mem s (fa_ratings acc));
        [by left|].
      apply elem_of_app in Hs as [?|Heq%list_elem_of_singleton]; [by left|].
      subst slug. right. left.
    + right. by right.
Qed.

Lemma film_loop_rating_get films acc slug :
  NoDup films.*1 →
  od_get slug (fa_ratings (fold_left film_step films acc))
  = match od_get slug films with
    | Some info =>
        match rating_of info with
        | Some e => Some e
        | None => od_get slug (fa_ratings acc)
        end
    | None => od_get slug (fa_ratings acc)
    end.
Proof.
  revert acc. induction films as [|[s info] films IH]; intros acc Hnd;
    cbn [fold_left]; [done|].
  csimpl in Hnd. apply NoDup_cons in Hnd as [Hs Hnd]. rewrite IH by done.
  cbn [od_get]. rewrite film_step_rating. case_decide as Heq.
  - subst s. apply od_get_None in Hs. rewrite Hs.
    destruct (rating_of info); [by rewrite od_get_set_eq | done].
  - destruct (od_get slug films) as [i|]; [destruct (rating_of i); [done|]|];
      (destruct (rating_of info); [by rewrite od_get_set_ne | done]).
Qed.

(** The watched index of a fetched user holds exactly the pairs of the
    normalized title and the coerced year of the user's films with a
    non-empty normalized title; a film without a title is not indexed, a
    missing or malformed year is indexed as [None]. *)
Theorem fetch_user_data_index User username u t y :
  User (str_strip username) = Ok u →
  (t, y) ∈ fu_watched_index (fetch_user_data User username) ↔
  t ≠ "" ∧ ∃ slug info, (slug, info) ∈ films_of u ∧
     normalize_title (default "" (f_name info)) = t ∧
     coerce_year (f_year info) = y.
Proof.
  unfold fetch_user_data. intros ->. cbn [fu_watched_index].
  rewrite film_loop_index. cbn [fa_index].
  split; [intros [H|H]; [by apply not_elem_of_empty in H | done] | by right].
Qed.

(** The slugs of a fetched user: [watched] holds the slugs of all films,
    [liked] those whose [liked] field is truthy, and the keys of [ratings],
    each stored once, are slugs of films; so liked and rated films are
    watched films. *)
Theorem fetch_user_data_slugs User username u :
  User (str_strip username) = Ok u →
  let r := fetch_user_data User username in
  (∀ slug, slug ∈ fu_watched r ↔ slug ∈ (films_of u).*1) ∧
  (∀ slug, slug ∈ fu_liked r ↔
     ∃ info, (slug, info) ∈ films_of u ∧ truthy (f_liked info) = true) ∧
  fu_liked r ⊆ fu_watched r ∧
  NoDup (fu_ratings r).*1 ∧
  (∀ slug, slug ∈ (fu_ratings r).*1 → slug ∈ fu_watched r).
Proof.
  unfold fetch_user_data. intros ->. cbn zeta.
  cbn [fu_watched fu_liked fu_ratings].
  set (acc0 := {| fa_index := ∅; fa_ratings := []; fa_liked := ∅ |}).
  assert (∀ slug, slug ∈ fa_liked (fold_left film_step (films_of u) acc0) ↔
            ∃ info, (slug, info) ∈ films_of u ∧ truthy (f_liked info) = true)
    as Hliked.
  { intros slug. rewrite film_loop_liked. cbn [fa_liked acc0].
    split; [intros [H|H]; [by apply not_elem_of_empty in H | done]
           | by right]. }
  destruct (film_loop_rating_keys (films_of u) acc0) as [Hnd Hkeys];
    [constructor|].
  split_and!.
  - intros slug. by rewrite elem_of_list_to_set.
  - done.
  - intros slug (info & Hin & _)%Hliked. rewrite elem_of_list_to_set.
    by apply (list_elem_of_fmap_2 fst) in Hin.
  - done.
  - intros slug Hs. rewrite elem_of_list_to_set.
    apply Hkeys in Hs as [Hs|Hs]; [|done]. by apply elem_of_nil in Hs.
Qed.

(** When the films mapping has each slug once, [ratings] holds for a slug
    exactly the entry of its film: score [int(float(rating))], with the
    film's own [name] and raw [year], if the rating is truthy and converts
    to a float above 0; no entry otherwise. *)
Theorem fetch_user_data_ratings User username u slug :
  User (str_strip username) = Ok u →
  NoDup (films_of u).*1 →
  od_get slug (fu_ratings (fetch_user_data User username))
  = info ← od_get slug (films_of u); rating_of info.
Proof.
  unfold fetch_user_data. intros -> Hnd. cbn [fu_ratings].
  rewrite film_loop_rating_get by done. cbn [fa_ratings od_get].
  destruct (od_get slug (films_of u)) as [info|]; [|done].
  cbn. by destruct (rating_of info).
Qed.

(** *** The loop over the usernames *)

Lemma fetch_data_step_fields User self user :
  usernames (fetch_data_step User self user) = usernames self ∧
  tmdb_api_key (fetch_data_step User self user) = tmdb_api_key self.
Proof. unfold fetch_data_step. by destruct (err_truthy _). Qed.

Lemma fetch_data_step_errors User self user :
  errors (fetch_data_step User self user)
  = errors self ++ option_list (error_line User user).
Proof.
  unfold fetch_data_step, error_line.
  destruct (err_truthy _); simpl; [done | by rewrite app_nil_r].
Qed.

Lemma fetch_data_step_get User self user user' :
  od_get user' (user_data (fetch_data_step User self user))
  = if decide (user = user' ∧ error_line User user = None)
    then Some (profile_of (fetch_user_data User user))
    else od_get user' (user_data self).
Proof.
  unfold fetch_data_step, error_line.
  destruct (err_truthy _); cbn [user_data].
  - rewrite decide_False; [done | by intros [_ ?]].
  - destruct (decide (user = user')) as [->|Hne].
    + rewrite decide_True by done. by rewrite od_get_set_eq.
    + rewrite decide_False by (by intros [? _]). by rewrite od_get_set_ne.
Qed.

Lemma fetch_data_step_index User self user :
  global_watched_index (fetch_data_step User self user)
  = global_watched_index self ∪
    (if decide (error_line User user = None)
     then fu_watched_index (fetch_user_data User user) else ∅).
Proof.
  unfold fetch_data_step, error_line.
  destruct (err_truthy _); cbn [global_watched_index].
  - rewrite decide_False by done. by rewrite union_empty_r_L.
  - by rewrite decide_True.
Qed.

Lemma fetch_data_step_NoDup User self user :
  NoDup (user_data self).*1 →
  NoDup (user_data (fetch_data_step User self user)).*1.
Proof.
  unfold fetch_data_step. destruct (err_truthy _); cbn [user_data]; [done|].
  apply od_set_NoDup.
Qed.

Lemma fetch_data_loop User names self :
  let e := fold_left (fetch_data_step User) names self in
  usernames e = usernames self ∧ tmdb_api_key e = tmdb_api_key self ∧
  errors e = errors self ++ omap (error_line User) names ∧
  (NoDup (user_data self).*1 → NoDup (user_data e).*1) ∧
  (∀ user, od_get user (user_data e)
     = if decide (user ∈ names ∧ error_line User user = None)
       then Some (profile_of (fetch_user_data User user))
       else od_get user (user_data self)) ∧
  (∀ p, p ∈ global_watched_index e ↔
     p ∈ global_watched_index self ∨
     ∃ user, user ∈ names ∧ error_line User user = None ∧
             p ∈ fu_watched_index (fetch_user_data User user)).
Proof.
  revert self. induction names as [|n names IH]; intros self; cbn [fold_left].
  - cbn zeta. split_and!; try done.
    + by rewrite app_nil_r.
    + intros p. split; [by left|]. intros [?|(user & H & _)]; [done|].
      by apply elem_of_nil in H.
  - destruct (IH (fetch_data_step User self n))
      as (Hu & Hk & He & Hnd & Hget & Hidx).
    destruct (fetch_data_step_fields User self n) as [Hu1 Hk1].
    cbn zeta. split_and!.
    + congruence.
    + congruence.
    + rewrite He, fetch_data_step_errors, <- (assoc_L (++)). f_equal.
      cbn [omap list_omap]. by destruct (error_line User n).
    + intros H. by apply Hnd, fetch_data_step_NoDup.
    + intros user. rewrite Hget, fetch_data_step_get.
      destruct (decide (user ∈ names ∧ error_line User user = None))
        as [[Hin Herr]|Hno].
      * rewrite decide_True; [done|]. split; [by right | done].
      * destruct (decide (n = user ∧ error_line User n = None))
          as [[-> Herr]|Hno'].
        -- rewrite decide_True; [done|]. split; [left | done].
        -- rewrite decide_False; [done|].
           intros [[->|Hin]%elem_of_cons Herr]; [by apply Hno' | by apply Hno].
    + intros p. rewrite Hidx, fetch_data_step_index, elem_of_union.
      split.
      * intros [[?|Hp]|(user & Hin & Herr & Hp)].
        -- by left.
        -- case_decide as Herr; [|by apply not_elem_of_empty in Hp].
           right. exists n. split; [left | done].
        -- right. exists user. split; [by right | done].
      * intros [?|(user & [->|Hin]%elem_of_cons & Herr & Hp)].
        -- by left; left.
        -- left. right. by rewrite decide_True.
        -- right. by exists user.
Qed.

Lemma error_line_None User user :
  error_line User user = None ↔
  err_truthy (fu_err (fetch_user_data User user)) = false.
Proof. unfold error_line. by destruct (err_truthy _). Qed.

Lemma fetch_data_init User names key :
  let e := fetch_data User (init names key) in
  usernames e = usernames (init names key) ∧ tmdb_api_key e = key ∧
  errors e = omap (error_line User) (usernames e) ∧
  NoDup (user_data e).*1 ∧
  (∀ user, od_get user (user_data e)
     = if decide (user ∈ usernames e ∧ error_line User user = None)
       then Some (profile_of (fetch_user_data User user)) else None) ∧
  (∀ p, p ∈ global_watched_index e ↔
     ∃ user, user ∈ usernames e ∧ error_line User user = None ∧
             p ∈ fu_watched_index (fetch_user_data User user)).
Proof.
  unfold fetch_data.
  destruct (fetch_data_loop User (usernames (init names key)) (init names key))
    as (Hu & Hk & He & Hnd & Hget & Hidx).
  cbn zeta. rewrite Hu. split_and!; try done.
  - apply Hnd. constructor.
  - intros p. rewrite Hidx. cbn [init global_watched_index].
    split; [intros [H|H]; [by apply not_elem_of_empty in H | done]
           | by right].
Qed.

(** After [fetch_data] on a fresh engine every requested name (stripped,
    blank names dropped) is either stored in [user_data], once and with the
    tuple [fetch_user_data] returned for it, or reported by one line of
    [errors], never both; the lines are in the order of the names; and the
    group-wide index is the union of the indexes of the stored profiles. *)
Theorem fetch_data_profiles User names key :
  let e := fetch_data User (init names key) in
  usernames e = str_strip <$> filter (λ u, str_strip u ≠ "") names ∧
  tmdb_api_key e = key ∧
  NoDup (user_data e).*1 ∧
  (∀ user data, (user, data) ∈ user_data e ↔
     user ∈ usernames e ∧ error_line User user = None ∧
     data = profile_of (fetch_user_data User user)) ∧
  errors e = omap (error_line User) (usernames e) ∧
  (∀ user, user ∈ usernames e →
     ((user ∈ (user_data e).*1) ∧ error_line User user = None) ∨
     ((user ∉ (user_data e).*1) ∧
      error_line User user
      = Some (user +:+ ": " +:+ default "" (fu_err (fetch_user_data User user)))
      ∧ default "" (error_line User user) ∈ errors e)) ∧
  (∀ p, p ∈ global_watched_index e ↔
     ∃ user data, (user, data) ∈ user_data e ∧ p ∈ p_watched_index data).
Proof.
  destruct (fetch_data_init User names key)
    as (Hu & Hk & He & Hnd & Hget & Hidx).
  cbn zeta.
  assert (∀ user data, (user, data) ∈ user_data (fetch_data User (init names key)) ↔
     user ∈ usernames (fetch_data User (init names key)) ∧
     error_line User user = None ∧
     data = profile_of (fetch_user_data User user)) as Hel.
  { intros user data. split.
    - intros Hin. apply od_elem_get in Hin; [|done]. rewrite Hget in Hin.
      case_decide as Hc; [|done]. injection Hin as <-. tauto.
    - intros (Hin & Herr & ->). apply od_get_Some_elem. rewrite Hget.
      by rewrite decide_True. }
  split_and!; try done.
  - intros user Hin. destruct (error_line User user) as [line|] eqn:Herr.
    + right. split_and!.
      * apply od_get_None. rewrite Hget. rewrite decide_False; [done|].
        intros [_ ?]. congruence.
      * unfold error_line in Herr. by destruct (err_truthy _).
      * rewrite He. simpl. apply list_elem_of_omap. by exists user.
    + left. split; [|done]. apply od_key_is_Some. rewrite Hget.
      by rewrite decide_True.
  - intros p. rewrite Hidx. split.
    + intros (user & Hin & Herr & Hp).
      exists user, (profile_of (fetch_user_data User user)).
      split; [by apply Hel | done].
    + intros (user & data & (Hin & Herr & ->)%Hel & Hp). by exists user.
Qed.

(** *** The watched filter on fetched data *)

Lemma fetched_index_elem User names key t y :
  (t, y) ∈ global_watched_index (fetch_data User (init names key)) ↔
  t ≠ "" ∧
  ∃ user u slug info,
    user ∈ usernames (init names key) ∧ User (str_strip user) = Ok u ∧
    (slug, info) ∈ films_of u ∧
    normalize_title (default "" (f_name info)) = t ∧
    coerce_year (f_year info) = y.
Proof.
  destruct (fetch_data_init User names key) as (Hu & _ & _ & _ & _ & Hidx).
  cbn zeta in Hidx. rewrite Hidx, Hu. split.
  - intros (user & Hin & Herr & Hp).
    unfold fetch_user_data in Hp.
    destruct (User (str_strip user)) as [u|msg] eqn:EU.
    + cbn [fu_watched_index] in Hp. apply film_loop_index in Hp as [Hp|Hp].
      * by apply not_elem_of_empty in Hp.
      * destruct Hp as (Ht & slug & info & Hfilm & Hn & Hy).
        split; [done|]. by exists user, u, slug, info.
    + by apply not_elem_of_empty in Hp.
  - intros (Ht & user & u & slug & info & Hin & EU & Hfilm & Hn & Hy).
    exists user. split; [done|]. split.
    + unfold error_line. by rewrite (fetch_user_data_ok _ _ _ EU).
    + unfold fetch_user_data. rewrite EU. cbn [fu_watched_index].
      apply film_loop_index. right. split; [done|]. by exists slug, info.
Qed.

(** On a freshly fetched engine, [is_watched title year] holds exactly when
    the title is not empty, its normalized form is not empty, and some user
    whose catalog could be read has a film with the same normalized title
    and the same coerced year.  A year on one side only never matches. *)
Theorem is_watched_after_fetch User names key title year :
  is_watched (fetch_data User (init names key)) title year = true ↔
  title ≠ "" ∧ normalize_title title ≠ "" ∧
  ∃ user u slug info,
    user ∈ usernames (init names key) ∧ User (str_strip user) = Ok u ∧
    (slug, info) ∈ films_of u ∧ film_matches info title year.
Proof.
  unfold is_watched, film_matches. case_decide as Ht.
  - split; [done | by intros [? _]].
  - rewrite bool_decide_eq_true, fetched_index_elem. split.
    + intros (Hn & user & u & slug & info & H1 & H2 & H3 & H4 & H5).
      split_and!; [done | done |]. by exists user, u, slug, info.
    + intros (_ & Hn & user & u & slug & info & H1 & H2 & H3 & H4 & H5).
      split; [done|]. by exists user, u, slug, info.
Qed.

(** From the catalogs to the returned list: no returned entry with a
    non-empty title is a film of a user whose catalog could be read, under
    the year the entry was created with (its own year, or what its raw
    watchlist year coerces to). *)
Theorem recommendations_exclude_watched_films User names key http shuffle o
    rs r :
  generate_recommendations (fetch_data User (init names key)) http shuffle o
  = Ok rs →
  r ∈ rs →
  ∃ year : option Z,
    (res_year r = py_of_year year ∨ coerce_year (res_year r) = year) ∧
    (res_title r ≠ "" →
     ∀ user u slug info,
       user ∈ usernames (init names key) → User (str_strip user) = Ok u →
       (slug, info) ∈ films_of u →
       normalize_title (default "" (f_name info)) ≠ "" →
       ¬ film_matches info (res_title r) year).
Proof.
  intros Hgen Hr.
  destruct (generate_recommendations_unwatched _ _ _ _ _ _ Hgen Hr)
    as (year & Hw & Hy).
  exists year. split; [done|].
  intros Ht user u slug info Hin EU Hfilm Hn [Hm1 Hm2].
  apply is_watched_false in Hw as [?|Hw]; [done|]. apply Hw.
  apply fetched_index_elem. split; [congruence|].
  by exists user, u, slug, info.
Qed.

(** *** Shape of the candidates *)

Lemma well_formed_new title year url details_obj tmdb_obj :
  well_formed (new_candidate title year url details_obj tmdb_obj).
Proof.
  unfold well_formed, new_candidate. cbn.
  split_and!.
  - split; [by intros ?%not_elem_of_empty | done].
  - split; [by intros ?%not_elem_of_empty | done].
  - constructor.
  - intros u ks H. by apply elem_of_nil in H.
Qed.

Lemma source_in_add (s t : source) (X : gset source) :
  s ≠ t → s ∈ X ∪ {[ t ]} ↔ s ∈ X.
Proof.
  intros Hne. rewrite elem_of_union, elem_of_singleton.
  split; [by intros [?|?] | by left].
Qed.

Lemma source_in_added (t : source) (X : gset source) : t ∈ X ∪ {[ t ]}.
Proof. rewrite elem_of_union, elem_of_singleton. by right. Qed.

Lemma well_formed_watchlist user c :
  well_formed c → well_formed (add_watchlist_user user c).
Proof.
  intros (Hw & Hs & Hnd & Hne). unfold well_formed, add_watchlist_user. cbn.
  split_and!; [| by rewrite source_in_add | done | done].
  split; [intros _ | intros _; apply source_in_added].
  intros Heq. assert (user ∈ c_watchlist_users c ∪ {[ user ]}) as Hin.
  { rewrite elem_of_union, elem_of_singleton. by right. }
  rewrite Heq in Hin. by apply not_elem_of_empty in Hin.
Qed.

Lemma od_set_not_nil {V} k (v : V) d : od_set k v d ≠ [].
Proof. destruct d as [|[k0 v0] d]; simpl; [done|]. by case_decide. Qed.

Lemma well_formed_similar user k c :
  well_formed c → well_formed (add_similar user k c).
Proof.
  intros (Hw & Hs & Hnd & Hne). unfold well_formed, add_similar. cbn.
  split_and!.
  - by rewrite source_in_add.
  - split; [intros _; apply od_set_not_nil | intros _; apply source_in_added].
  - by apply od_set_NoDup.
  - intros u ks [[= -> ->]|Hin]%od_elem_set; [|by eapply Hne].
    by destruct (default [] (od_get user (c_similar c))).
Qed.

Lemma well_formed_popular c : well_formed c → well_formed (add_popular c).
Proof.
  intros (Hw & Hs & Hnd & Hne). unfold well_formed, add_popular. cbn.
  split_and!; [by rewrite source_in_add | by rewrite source_in_add | done | done].
Qed.

Lemma well_formed_enrich self http c :
  well_formed c → well_formed (enrich_candidate self http c).
Proof.
  unfold enrich_candidate. destruct (c_tmdb c); [done|].
  case_decide; [done|]. by destruct (tmdb_search_movie _ _ _ _).
Qed.

Lemma aggregate_well_formed self http shuffle o cands :
  aggregate self http shuffle o = Ok cands → cands_all well_formed cands.
Proof.
  apply (aggregate_all self http shuffle well_formed (λ _, True)).
  - intros. apply well_formed_new.
  - apply well_formed_watchlist.
  - intros user sd tmdb_seed c _. apply well_formed_similar.
  - apply well_formed_popular.
  - apply well_formed_enrich.
  - intros user data _. by apply Forall_true.
Qed.

Lemma aggregate_sources self http shuffle o cands cid c :
  aggregate self http shuffle o = Ok cands → (cid, c) ∈ cands →
  ∃ calls,
    run_calls self http shuffle o = Ok calls ∧
    (∃ k, k ∈ calls ∧ accepted self k ∧ k_id k = cid) ∧
    ∀ tag, tag ∈ c_sources c ↔
      ∃ k, k ∈ calls ∧ accepted self k ∧ k_id k = cid
           ∧ kind_tag (k_kind k) = tag.
Proof.
  intros Hagg Hin. pose proof (aggregate_NoDup _ _ _ _ _ Hagg) as Hnd.
  rewrite aggregate_calls in Hagg.
  destruct (run_calls self http shuffle o) as [calls|]; simpl in Hagg; [|done].
  injection Hagg as <-. exists calls. split; [done|].
  assert (∃ c0, od_get cid (fold_left (apply_call self) calls []) = Some c0
                ∧ c_sources c = c_sources c0) as (c0 & Hget & Hsrc).
  { destruct (has_key self).
    - apply enrich_elem in Hin as (c0 & Hin & ->). rewrite enrich_keys in Hnd.
      exists c0. split; [by apply od_elem_get|].
      apply enrich_candidate_sources.
    - exists c. split; [by apply od_elem_get | done]. }
  rewrite od_get_apply_calls in Hget. split.
  - assert (is_Some (fold_left (call_step self cid) calls (od_get cid [])))
      as HS by (by rewrite Hget).
    apply call_steps_is_Some in HS as [[? HS]|HS]; [done | done].
  - intros tag. rewrite Hsrc, (call_steps_sources _ _ _ _ _ tag Hget). simpl.
    split; [intros [(? & ? & _)|?]; done | by right].
Qed.

(** Every candidate of the aggregation has at least one source; it is
    tagged [Watchlist] exactly when it has a watchlist user and [Similar]
    exactly when it has contributions; and every user listed in its
    contributions is listed once, with at least one contribution. *)
Theorem aggregate_candidates_well_formed self http shuffle o cands cid c :
  aggregate self http shuffle o = Ok cands →
  (cid, c) ∈ cands →
  c_sources c ≠ ∅ ∧
  (Watchlist ∈ c_sources c ↔ c_watchlist_users c ≠ ∅) ∧
  (Similar ∈ c_sources c ↔ c_similar c ≠ []) ∧
  NoDup (c_similar c).*1 ∧
  (∀ u ks, (u, ks) ∈ c_similar c → ks ≠ []).
Proof.
  intros Hagg Hin.
  destruct (aggregate_well_formed _ _ _ _ _ Hagg cid c Hin)
    as (Hw & Hs & Hnd & Hne).
  split_and!; try done.
  destruct (aggregate_sources _ _ _ _ _ _ _ Hagg Hin)
    as (calls & _ & (k & Hk & Hacc & Hid) & Hsrc).
  intros Hempty.
  assert (kind_tag (k_kind k) ∈ c_sources c) as Htag.
  { apply Hsrc. by exists k. }
  rewrite Hempty in Htag. by apply not_elem_of_empty in Htag.
Qed.

(** *** The details shown for an entry *)

Lemma max_from_best best l :
  is_best (best :: l) (max_from best l).
Proof.
  revert best. induction l as [|k l IH]; intros best; simpl.
  - split; [left|]. intros k ->%list_elem_of_singleton. lra.
  - destruct (Qlt_le_dec (points best) (points k)) as [Hlt|Hle].
    + destruct (IH k) as [Hin Hmax]. split.
      * by right.
      * intros k' [->|Hk']%elem_of_cons; [|by apply Hmax].
        specialize (Hmax k ltac:(left)). lra.
    + destruct (IH best) as [Hin Hmax]. split.
      * apply elem_of_cons in Hin as [->|Hin]; [left | by right; right].
      * intros k' [->|[->|Hk']%elem_of_cons]%elem_of_cons.
        -- apply Hmax. left.
        -- specialize (Hmax best ltac:(left)). lra.
        -- apply Hmax. by right.
Qed.

Lemma py_max_best contribs :
  contribs ≠ [] → ∃ best, py_max contribs = Ok best ∧ is_best contribs best.
Proof.
  destruct contribs as [|k l]; [done|]. intros _.
  exists (max_from k l). split; [done | apply max_from_best].
Qed.

Lemma sim_reasons_loop (sim : odict (list contribution)) acc :
  (∀ u ks, (u, ks) ∈ sim → ks ≠ []) →
  ∃ reasons,
    for_each
      (λ reasons '(_, contribs),
         best ← py_max contribs; mret (reasons ++ [reason best])) sim acc
    = Ok (acc ++ reasons) ∧
    Forall2 (λ (uc : string * list contribution) r,
               ∃ best, is_best uc.2 best ∧ r = reason best) sim reasons.
Proof.
  revert acc. induction sim as [|[u ks] sim IH]; intros acc Hne; simpl.
  - exists []. by rewrite app_nil_r.
  - destruct (py_max_best ks) as (best & -> & Hbest); [by eapply Hne; left|].
    simpl. destruct (IH (acc ++ [reason best])) as (rest & -> & Hrest).
    { intros u' ks' Hin. eapply Hne. by right. }
    exists (reason best :: rest). split.
    + by rewrite <- (assoc_L (++)).
    + constructor; [by exists best | done].
Qed.

(** The computation of [debug_details] never fails on a candidate of the
    aggregation ([max] is never given an empty list).  The key [Watchlist]
    is set exactly for candidates tagged [Watchlist] and the key [Similar]
    exactly for those tagged [Similar]; there is one reason per user with
    contributions, naming a contribution of that user with the largest
    points, and the text shows the first three. *)
Theorem debug_details_total self http shuffle o cands cid c :
  aggregate self http shuffle o = Ok cands →
  (cid, c) ∈ cands →
  ∃ reasons d,
    sim_reasons c = Ok reasons ∧ debug_details c = Ok d ∧
    Forall2 (λ (uc : string * list contribution) r,
               ∃ best, is_best uc.2 best ∧ r = reason best)
            (c_similar c) reasons ∧
    (is_Some (d_watchlist d) ↔ Watchlist ∈ c_sources c) ∧
    (is_Some (d_similar d) ↔ Similar ∈ c_sources c) ∧
    (Similar ∈ c_sources c → d_similar d = Some (join ", " (take 3 reasons))).
Proof.
  intros Hagg Hin.
  destruct (aggregate_well_formed _ _ _ _ _ Hagg cid c Hin)
    as (Hw & Hs & Hnd & Hne).
  destruct (sim_reasons_loop (c_similar c) [] Hne) as (reasons & Hr & HF).
  exists reasons. unfold debug_details, sim_reasons. rewrite Hr. simpl.
  eexists. split_and!; [done | done | done | | |]; cbn.
  - rewrite Hw. unfold wl_count. case_decide as Hsz.
    + split; [intros _ | by eexists]. intros Heq. rewrite Heq in Hsz.
      rewrite size_empty in Hsz. lia.
    + split; [by intros [? ?]|]. intros Hne'. exfalso. apply Hne'.
      apply leibniz_equiv, size_empty_iff. lia.
  - rewrite Hs. destruct HF; [|done].
    split; [by intros [? ?] | done].
  - rewrite Hs. by destruct HF.
Qed.

(** *** The calls of a run, pass by pass *)

Lemma exc_flat_map_inv {A B} (g : A → exc (list B)) l ks b :
  exc_flat_map g l = Ok ks → b ∈ ks →
  ∃ a ka, a ∈ l ∧ g a = Ok ka ∧ b ∈ ka.
Proof.
  revert ks. induction l as [|a0 l IH]; intros ks; simpl.
  - intros [= <-] Hb. by apply elem_of_nil in Hb.
  - destruct (g a0) as [k0|] eqn:E0; simpl; [|done].
    destruct (exc_flat_map g l) as [rest|]; simpl; [|done].
    intros [= <-] [Hb|Hb]%elem_of_app.
    + exists a0, k0. split; [left | done].
    + destruct (IH rest eq_refl Hb) as (a & ka & Ha & Hg & Hka).
      exists a, ka. split; [by right | done].
Qed.

Lemma watchlist_calls_elem self http k :
  k ∈ watchlist_calls self http ↔ is_watchlist_call self http k.
Proof.
  unfold watchlist_calls, is_watchlist_call.
  rewrite list_elem_of_In, in_flat_map. split.
  - intros ([user data] & Hud%list_elem_of_In & Hk%list_elem_of_In).
    simpl in Hk. apply list_elem_of_fmap in Hk as (item & -> & Hitem).
    by exists user, data, item.
  - intros (user & data & item & Hud & Hitem & ->).
    exists (user, data). split; [by apply list_elem_of_In|].
    apply list_elem_of_In. simpl. by apply list_elem_of_fmap_2.
Qed.

Lemma similar_call_one user seed_score tmdb_seed rec ks k :
  similar_call user seed_score tmdb_seed rec = Ok ks → k ∈ ks → ks = [k].
Proof.
  unfold similar_call. destruct (release_year rec); simpl; [|done].
  by intros [= <-] ->%list_elem_of_singleton.
Qed.

Lemma popular_call_one p ks k : popular_call p = Ok ks → k ∈ ks → ks = [k].
Proof.
  unfold popular_call. destruct (release_year p); simpl; [|done].
  by intros [= <-] ->%list_elem_of_singleton.
Qed.

Lemma similar_calls_elem self http shuffle ks k :
  similar_calls self http shuffle = Ok ks → k ∈ ks → is_similar_call k.
Proof.
  unfold similar_calls. intros Hks Hk.
  destruct (exc_flat_map_inv _ _ _ _ Hks Hk) as ([user data] & k1 & _ & H1 & Hk1).
  simpl in H1.
  destruct (exc_flat_map_inv _ _ _ _ H1 Hk1) as (sd & k2 & _ & H2 & Hk2).
  unfold seed_calls in H2.
  destruct (tmdb_search_movie _ _ _ _) as [tmdb_seed|].
  - destruct (exc_flat_map_inv _ _ _ _ H2 Hk2) as (rec & k3 & _ & H3 & Hk3).
    exists user, sd.1.2, tmdb_seed, rec.
    by rewrite H3, (similar_call_one _ _ _ _ _ _ H3 Hk3).
  - injection H2 as <-. by apply elem_of_nil in Hk2.
Qed.

Lemma popular_calls_elem self http ks k :
  popular_calls self http = Ok ks → k ∈ ks → is_popular_call k.
Proof.
  unfold popular_calls. intros Hks Hk.
  destruct (exc_flat_map_inv _ _ _ _ Hks Hk) as (p & k1 & _ & H1 & Hk1).
  exists p. by rewrite H1, (popular_call_one _ _ _ H1 Hk1).
Qed.

Lemma run_calls_passes self http shuffle o calls :
  run_calls self http shuffle o = Ok calls →
  ∃ c1 c2 c3,
    calls = c1 ++ c2 ++ c3 ∧
    c1 = (if use_watchlist o then watchlist_calls self http else []) ∧
    Forall is_similar_call c2 ∧ Forall is_popular_call c3 ∧
    (tmdb_api_key self = "" → c2 = [] ∧ c3 = []).
Proof.
  unfold run_calls, organic_calls, popular_guard, has_key.
  set (c1 := if use_watchlist o then watchlist_calls self http else []).
  destruct (decide (tmdb_api_key self = "")) as [Hk|Hk].
  - rewrite bool_decide_true by done. rewrite !andb_false_r. simpl.
    intros [= <-]. exists c1, [], []. by rewrite !app_nil_r.
  - destruct (use_similar o && _) eqn:Es.
    + destruct (similar_calls self http shuffle) as [c2|] eqn:E2; simpl;
        [|done].
      match goal with |- context [if ?b then _ else _] => destruct b end.
      * destruct (popular_calls self http) as [c3|] eqn:E3; simpl; [|done].
        intros [= <-]. exists c1, c2, c3.
        rewrite (assoc_L (++)). split_and!; try done.
        -- apply Forall_forall. intros k Hin. by eapply similar_calls_elem.
        -- apply Forall_forall. intros k Hin. by eapply popular_calls_elem.
      * simpl. intros [= <-]. exists c1, c2, [].
        rewrite !app_nil_r. split_and!; try done.
        apply Forall_forall. intros k Hin. by eapply similar_calls_elem.
    + simpl.
      match goal with |- context [if ?b then _ else _] => destruct b end.
      * destruct (popular_calls self http) as [c3|] eqn:E3; simpl; [|done].
        intros [= <-]. exists c1, [], c3.
        rewrite !app_nil_r. split_and!; try done.
        apply Forall_forall. intros k Hin. by eapply popular_calls_elem.
      * simpl. intros [= <-]. exists c1, [], []. by rewrite !app_nil_r.
Qed.

(** *** The first call with an id sets the details *)

Lemma same_details_refl c : same_details c c.
Proof. by split_and!. Qed.

Lemma same_details_trans c1 c2 c3 :
  same_details c1 c2 → same_details c2 c3 → same_details c1 c3.
Proof.
  intros (? & ? & ? & ?) (? & ? & ? & ?). split_and!; congruence.
Qed.

Lemma kind_update_details kd c : same_details (kind_update kd c) c.
Proof. destruct kd; by split_and!. Qed.

Lemma call_steps_details self cid calls c0 :
  ∃ c, fold_left (call_step self cid) calls (Some c0) = Some c ∧
       same_details c c0.
Proof.
  revert c0. induction calls as [|k calls IH]; intros c0; simpl.
  - exists c0. split; [done | apply same_details_refl].
  - unfold call_step at 2. destruct (is_watched _ _ _); [apply IH|].
    case_decide; [|apply IH]. simpl.
    destruct (IH (kind_update (k_kind k) c0)) as (c & -> & Hc).
    exists c. split; [done|].
    eapply same_details_trans; [exact Hc | apply kind_update_details].
Qed.

Lemma call_steps_creator self cid calls c :
  fold_left (call_step self cid) calls None = Some c →
  ∃ k, k ∈ calls ∧ accepted self k ∧ k_id k = cid ∧
       same_details c (created_by k).
Proof.
  induction calls as [|k calls IH]; simpl; [done|].
  unfold call_step at 2, accepted.
  destruct (is_watched self (k_title k) (k_year k)) eqn:Hw.
  { intros (k' & ? & ?)%IH. exists k'. split; [by right | done]. }
  case_decide as Hid.
  - simpl. intros Hfold. exists k. split_and!; [left | done | done |].
    destruct (call_steps_details self cid calls
                (kind_update (k_kind k) (created_by k))) as (c' & Hc' & Hd).
    unfold created_by in Hc'. rewrite Hfold in Hc'. injection Hc' as <-.
    eapply same_details_trans; [exact Hd | apply kind_update_details].
  - intros (k' & ? & ?)%IH. exists k'. split; [by right | done].
Qed.

Lemma call_steps_None self cid calls :
  fold_left (call_step self cid) calls None = None ↔
  ∀ k, k ∈ calls → ¬ (accepted self k ∧ k_id k = cid).
Proof.
  rewrite eq_None_not_Some, call_steps_is_Some. split.
  - intros Hno k Hk Hacc. apply Hno. right. by exists k.
  - intros Hno [[? ?]|(k & Hk & Hacc)]; [done|]. by eapply Hno.
Qed.

Lemma enrich_candidate_details self http c :
  c_name (enrich_candidate self http c) = c_name c ∧
  c_year (enrich_candidate self http c) = c_year c ∧
  c_url (enrich_candidate self http c) = c_url c ∧
  (is_Some (c_tmdb c) → c_tmdb (enrich_candidate self http c) = c_tmdb c).
Proof.
  unfold enrich_candidate. destruct (c_tmdb c) eqn:E; [by split_and!|].
  assert (¬ is_Some (@None tmdb_movie)) as Hno by (by intros [? ?]).
  case_decide; [by split_and!|].
  destruct (tmdb_search_movie _ _ _ _); by split_and!.
Qed.

Lemma similar_call_fields k :
  is_similar_call k →
  kind_tag (k_kind k) = Similar ∧
  ∃ rec y, release_year rec = Ok y ∧ k_id k = tmdb_key rec ∧
    k_title k = tm_title rec ∧ k_year k = y ∧
    k_url k = "https://www.themoviedb.org/movie/" +:+ pretty (tm_id rec) ∧
    k_details k = None ∧ k_tmdb k = Some rec.
Proof.
  intros (user & score & tmdb_seed & rec & H). unfold similar_call in H.
  destruct (release_year rec) as [y|] eqn:Ey; simpl in H; [|done].
  injection H as <-. split; [done|]. by exists rec, y.
Qed.

Lemma popular_call_fields k :
  is_popular_call k →
  kind_tag (k_kind k) = Popular ∧
  ∃ p y, release_year p = Ok y ∧ k_id k = tmdb_key p ∧
    k_title k = tm_title p ∧ k_year k = y ∧ k_url k = "" ∧
    k_details k = None ∧ k_tmdb k = Some p.
Proof.
  intros (p & H). unfold popular_call in H.
  destruct (release_year p) as [y|] eqn:Ey; simpl in H; [|done].
  injection H as <-. split; [done|]. by exists p, y.
Qed.

Lemma watchlist_call_fields self http k :
  is_watchlist_call self http k →
  kind_tag (k_kind k) = Watchlist ∧
  ∃ user data slug d,
    (user, data) ∈ user_data self ∧ (slug, d) ∈ p_watchlist data ∧
    k_title k = default "Unknown" (w_name d) ∧
    k_year k = coerce_year (w_year d) ∧
    k_url k = "https://letterboxd.com/film/" +:+ slug +:+ "/" ∧
    k_details k = Some d ∧
    (tmdb_api_key self = "" → k_id k = slug ∧ k_tmdb k = None).
Proof.
  intros (user & data & [slug d] & Hud & Hitem & ->). split; [done|].
  exists user, data, slug, d. split_and!; try done.
  intros Hk. unfold watchlist_call. cbn. by rewrite decide_True.
Qed.

(** The candidate stored under [cid] before the enrichment, and what the
    enrichment keeps of it. *)
Lemma aggregate_get self http shuffle o cands cid c :
  aggregate self http shuffle o = Ok cands → (cid, c) ∈ cands →
  ∃ calls c0,
    run_calls self http shuffle o = Ok calls ∧
    fold_left (call_step self cid) calls None = Some c0 ∧
    c_sources c = c_sources c0 ∧
    c_name c = c_name c0 ∧ c_year c = c_year c0 ∧ c_url c = c_url c0 ∧
    (is_Some (c_tmdb c0) → c_tmdb c = c_tmdb c0) ∧
    (tmdb_api_key self = "" → c = c0).
Proof.
  intros Hagg Hin. pose proof (aggregate_NoDup _ _ _ _ _ Hagg) as Hnd.
  rewrite aggregate_calls in Hagg.
  destruct (run_calls self http shuffle o) as [calls|]; simpl in Hagg; [|done].
  injection Hagg as <-. exists calls.
  unfold has_key in *. destruct (decide (tmdb_api_key self = "")) as [Hk|Hk].
  - rewrite bool_decide_true in * by done. simpl in *.
    exists c. apply od_elem_get in Hin; [|done].
    rewrite od_get_apply_calls in Hin. by split_and!.
  - rewrite bool_decide_false in * by done. simpl in *.
    apply enrich_elem in Hin as (c0 & Hin & ->). rewrite enrich_keys in Hnd.
    apply od_elem_get in Hin; [|done]. rewrite od_get_apply_calls in Hin.
    destruct (enrich_candidate_details self http c0) as (? & ? & ? & ?).
    exists c0. split_and!; try done. apply enrich_candidate_sources.
Qed.

(** The details of a candidate are those of the first call that created
    it, and the passes run in the order watchlists, similar titles, popular
    titles.  So a candidate tagged [Watchlist] shows the name, raw year and
    Letterboxd address of a watchlist entry, whatever else it merged with;
    any other candidate is keyed by the id of the TMDB record it stores,
    shows that record's title and release year, and has the TMDB address if
    it is tagged [Similar] and an empty address if it is only popular. *)
Theorem candidate_details_from_first_source self http shuffle o cands cid c :
  aggregate self http shuffle o = Ok cands →
  (cid, c) ∈ cands →
  (Watchlist ∈ c_sources c →
     ∃ user data slug d,
       (user, data) ∈ user_data self ∧ (slug, d) ∈ p_watchlist data ∧
       c_name c = default "Unknown" (w_name d) ∧
       c_year c = w_year d ∧
       c_url c
       = default ("https://letterboxd.com/film/" +:+ slug +:+ "/") (w_url d)) ∧
  (Watchlist ∉ c_sources c →
     ∃ m y,
       c_tmdb c = Some m ∧ cid = tmdb_key m ∧ c_name c = tm_title m ∧
       release_year m = Ok y ∧ c_year c = py_of_year y ∧
       c_url c = if decide (Similar ∈ c_sources c)
                 then "https://www.themoviedb.org/movie/" +:+ pretty (tm_id m)
                 else "").
Proof.
  intros Hagg Hin.
  destruct (aggregate_get _ _ _ _ _ _ _ Hagg Hin)
    as (calls & c0 & Hrun & Hfold & Hsrc & Hn & Hy & Hu & Ht & _).
  destruct (run_calls_passes _ _ _ _ _ Hrun)
    as (c1 & c2 & c3 & -> & Hc1 & Hc2 & Hc3 & _).
  assert (∀ k, k ∈ c1 → is_watchlist_call self http k) as Hw1.
  { intros k Hk. apply watchlist_calls_elem. rewrite Hc1 in Hk.
    destruct (use_watchlist o); [done | by apply elem_of_nil in Hk]. }
  rewrite Forall_forall in Hc2. rewrite Forall_forall in Hc3.
  pose proof (λ tag, call_steps_sources _ _ _ _ _ tag Hfold) as Htags.
  rewrite Hsrc, Hn, Hy, Hu.
  rewrite !fold_left_app in Hfold.
  destruct (fold_left (call_step self cid) c1 None) as [r1|] eqn:E1.
  - (* created by a watchlist call *)
    apply call_steps_creator in E1 as (k & Hk & Hacc & Hid & Hd).
    rewrite <- fold_left_app in Hfold.
    destruct (call_steps_details self cid (c2 ++ c3) r1) as (c' & Hc' & Hd').
    rewrite Hfold in Hc'. injection Hc' as <-.
    pose proof (same_details_trans _ _ _ Hd' Hd) as (Hn0 & Hy0 & Hu0 & _).
    destruct (watchlist_call_fields _ _ _ (Hw1 k Hk))
      as (Htag & user & data & slug & d & Hud & Hitem & Hkt & Hky & Hku & Hkd & _).
    split.
    + intros _. exists user, data, slug, d.
      rewrite Hn0, Hy0, Hu0. unfold created_by, new_candidate. cbn.
      rewrite Hkd, Hkt, Hku. split_and!; try done.
      by destruct (w_name d).
    + intros Hno. exfalso. apply Hno. apply Htags. right. exists k.
      split_and!; try done. apply elem_of_app. by left.
  - (* no accepted watchlist call with this id *)
    assert (Watchlist ∉ c_sources c0) as Hnw.
    { intros [(? & ? & _)|(k & Hk & Hacc & Hid & Htag)]%Htags; [done|].
      apply elem_of_app in Hk as [Hk|Hk].
      - apply (proj1 (call_steps_None self cid c1) E1 k Hk). done.
      - apply elem_of_app in Hk as [Hk|Hk].
        + destruct (similar_call_fields k (Hc2 k Hk)) as [Htag' _]. congruence.
        + destruct (popular_call_fields k (Hc3 k Hk)) as [Htag' _]. congruence. }
    split; [done|]. intros _.
    destruct (fold_left (call_step self cid) c2 None) as [r2|] eqn:E2.
    + apply call_steps_creator in E2 as (k & Hk & Hacc & Hid & Hd).
      destruct (call_steps_details self cid c3 r2) as (c' & Hc' & Hd').
      rewrite Hfold in Hc'. injection Hc' as <-.
      pose proof (same_details_trans _ _ _ Hd' Hd) as (Hn0 & Hy0 & Hu0 & Ht0).
      destruct (similar_call_fields k (Hc2 k Hk))
        as (Htag & rec & y & Hry & Hkid & Hkt & Hky & Hku & Hkd & Hktm).
      assert (Similar ∈ c_sources c0) as Hsim.
      { apply Htags. right. exists k. split_and!; try done.
        apply elem_of_app. right. apply elem_of_app. by left. }
      exists rec, y. rewrite decide_True by done.
      rewrite Hn0, Hy0, Hu0. unfold created_by, new_candidate in *. cbn in *.
      rewrite Hkd in *. rewrite Ht; [|rewrite Ht0, Hktm; by eexists].
      rewrite Ht0. split_and!; congruence.
    + apply call_steps_creator in Hfold as (k & Hk & Hacc & Hid & Hd).
      destruct Hd as (Hn0 & Hy0 & Hu0 & Ht0).
      destruct (popular_call_fields k (Hc3 k Hk))
        as (Htag & p & y & Hry & Hkid & Hkt & Hky & Hku & Hkd & Hktm).
      assert (Similar ∉ c_sources c0) as Hsim.
      { intros [(? & ? & _)|(k' & Hk' & Hacc' & Hid' & Htag')]%Htags; [done|].
        apply elem_of_app in Hk' as [Hk'|Hk'].
        - apply (proj1 (call_steps_None self cid c1) E1 k' Hk'). done.
        - apply elem_of_app in Hk' as [Hk'|Hk'].
          + apply (proj1 (call_steps_None self cid c2) E2 k' Hk'). done.
          + destruct (popular_call_fields k' (Hc3 k' Hk')) as [Htag'' _].
            congruence. }
      exists p, y. rewrite decide_False by done.
      rewrite Hn0, Hy0, Hu0. unfold created_by, new_candidate in *. cbn in *.
      rewrite Hkd in *. rewrite Ht; [|rewrite Ht0, Hktm; by eexists].
      rewrite Ht0. split_and!; congruence.
Qed.

(** *** Without an API key *)

Lemma watchlist_call_no_key self http1 http2 user item :
  tmdb_api_key self = "" →
  watchlist_call self http1 user item = watchlist_call self http2 user item.
Proof.
  intros Hk. destruct item as [slug d]. unfold watchlist_call.
  by rewrite !decide_True.
Qed.

Lemma watchlist_calls_no_key self http1 http2 :
  tmdb_api_key self = "" →
  watchlist_calls self http1 = watchlist_calls self http2.
Proof.
  intros Hk. unfold watchlist_calls.
  induction (user_data self) as [|[user data] uds IH]; simpl; [done|].
  rewrite IH. f_equal. apply list_fmap_ext. intros i item _.
  by apply watchlist_call_no_key.
Qed.

Lemma aggregate_no_key self http shuffle o :
  tmdb_api_key self = "" →
  aggregate self http shuffle o
  = Ok (fold_left (apply_call self)
          (if use_watchlist o then watchlist_calls self http else []) []).
Proof.
  intros Hk. rewrite aggregate_calls.
  unfold run_calls, organic_calls, popular_guard, has_key.
  rewrite bool_decide_true by done. rewrite !andb_false_r. simpl.
  by rewrite !app_nil_r.
Qed.

(** Without an API key the aggregation never fails and its result depends
    neither on the TMDB gateway nor on the shuffle: only the watchlist pass
    runs (the dictionary is empty when it is switched off), every candidate
    is keyed by the slug of a watchlist entry whose name it shows, is tagged
    [Watchlist] alone, and carries no contribution and no TMDB record. *)
Theorem aggregate_without_key self o :
  tmdb_api_key self = "" →
  ∃ cands,
    (∀ http shuffle, aggregate self http shuffle o = Ok cands) ∧
    (use_watchlist o = false → cands = []) ∧
    ∀ cid c, (cid, c) ∈ cands →
      c_sources c = {[ Watchlist ]} ∧ c_watchlist_users c ≠ ∅ ∧
      c_similar c = [] ∧ c_tmdb c = None ∧
      ∃ user data d,
        (user, data) ∈ user_data self ∧ (cid, d) ∈ p_watchlist data ∧
        c_name c = default "Unknown" (w_name d).
Proof.
  intros Hkey.
  set (http0 := {| http_search := λ _ _, Ok []; http_recommendations := λ _, Ok [];
                   http_popular := Ok [] |}).
  set (sh0 := λ (_ : string) (l : list seed), l).
  assert (∀ http shuffle,
            aggregate self http shuffle o = aggregate self http0 sh0 o) as Hind.
  { intros http shuffle. rewrite !aggregate_no_key by done.
    by rewrite (watchlist_calls_no_key self http http0). }
  pose proof (aggregate_no_key self http0 sh0 o Hkey) as Hagg.
  eexists. split; [intros http shuffle; rewrite Hind; exact Hagg|].
  split; [by intros ->|].
  intros cid c Hin.
  destruct (aggregate_well_formed _ _ _ _ _ Hagg cid c Hin)
    as (Hw & Hs & _ & _).
  destruct (aggregate_get _ _ _ _ _ _ _ Hagg Hin)
    as (calls & c0 & Hrun & Hfold & _ & _ & _ & _ & _ & Heq).
  specialize (Heq Hkey). subst c0.
  destruct (run_calls_passes _ _ _ _ _ Hrun)
    as (c1 & c2 & c3 & -> & Hc1 & _ & _ & Hno).
  destruct (Hno Hkey) as [-> ->]. rewrite !app_nil_r in Hfold.
  assert (∀ k, k ∈ c1 → is_watchlist_call self http0 k) as Hw1.
  { intros k Hk. apply watchlist_calls_elem. rewrite Hc1 in Hk.
    destruct (use_watchlist o); [done | by apply elem_of_nil in Hk]. }
  pose proof (λ tag, call_steps_sources _ _ _ _ _ tag Hfold) as Htags.
  apply call_steps_creator in Hfold as (k & Hk & Hacc & Hid & Hd).
  destruct (watchlist_call_fields _ _ _ (Hw1 k Hk))
    as (Htag & user & data & slug & d & Hud & Hitem & Hkt & Hky & Hku & Hkd & Hnk).
  destruct (Hnk Hkey) as [Hkid Hktm].
  assert (c_sources c = {[ Watchlist ]}) as Hsrc.
  { apply set_eq. intros tag. rewrite elem_of_singleton, Htags. split.
    - intros [(? & ? & _)|(k' & Hk' & _ & _ & <-)]; [done|].
      by destruct (watchlist_call_fields _ _ _ (Hw1 k' Hk')) as [-> _].
    - intros ->. right. by exists k. }
  split_and!.
  - done.
  - apply Hw. rewrite Hsrc. by apply elem_of_singleton.
  - destruct (c_similar c) eqn:Esim; [done|]. exfalso.
    assert (Similar ∈ c_sources c) as HS by (by apply Hs).
    rewrite Hsrc in HS. by apply elem_of_singleton in HS.
  - destruct Hd as (_ & _ & _ & ->). by unfold created_by, new_candidate.
  - exists user, data, d. split_and!; [done | congruence |].
    destruct Hd as (-> & _). unfold created_by, new_candidate. cbn.
    rewrite Hkd, Hkt. by destruct (w_name d).
Qed.

(** *** The only exception *)











(** *** The number of candidates *)

Lemma apply_call_length self cands k :
  length (apply_call self cands k) ≤ S (length cands).
Proof.
  rewrite <- !(length_fmap fst). unfold apply_call, get_or_create.
  destruct (is_watched _ _ _); [lia|].
  destruct (od_mem (k_id k) cands) eqn:E; rewrite od_keys_alter; [lia|].
  rewrite od_keys_set, E, length_app. simpl. lia.
Qed.

Lemma apply_calls_length self calls cands :
  length (fold_left (apply_call self) calls cands)
  ≤ length cands + length calls.
Proof.
  revert cands. induction calls as [|k calls IH]; intros cands; simpl; [lia|].
  pose proof (IH (apply_call self cands k)).
  pose proof (apply_call_length self cands k). lia.
Qed.

Lemma exc_flat_map_length {A B} (g : A → exc (list B)) l n ks :
  (∀ a ka, a ∈ l → g a = Ok ka → length ka ≤ n) →
  exc_flat_map g l = Ok ks → length ks ≤ n * length l.
Proof.
  revert ks. induction l as [|a l IH]; intros ks Hg; simpl.
  - intros [= <-]. simpl. lia.
  - destruct (g a) as [ka|] eqn:Ea; simpl; [|done].
    destruct (exc_flat_map g l) as [rest|] eqn:Er; simpl; [|done].
    intros [= <-]. rewrite length_app.
    pose proof (Hg a ka ltac:(left) Ea).
    pose proof (IH rest (λ a' ka' Ha', Hg a' ka' (list_elem_of_further _ _ _ Ha'))
                  eq_refl).
    lia.
Qed.

Lemma recommendations_length http movie_id key :
  length (tmdb_get_recommendations http movie_id key) ≤ 12.
Proof.
  unfold tmdb_get_recommendations. repeat case_decide; simpl; try lia.
  destruct (http_recommendations http movie_id); simpl; [|lia].
  rewrite length_take. lia.
Qed.

Lemma selected_seeds_length shuffle user data :
  length (selected_seeds shuffle user data) ≤ 6.
Proof. unfold selected_seeds. rewrite length_take. lia. Qed.

Lemma seed_calls_length self http user sd ks :
  seed_calls self http user sd = Ok ks → length ks ≤ 12.
Proof.
  unfold seed_calls. destruct (tmdb_search_movie _ _ _ _) as [tmdb_seed|].
  - intros H. pose proof (recommendations_length http (tm_id tmdb_seed)
                            (tmdb_api_key self)).
    apply (exc_flat_map_length _ _ 1) in H; [lia|].
    intros rec ka _. unfold similar_call.
    destruct (release_year rec); simpl; [|done]. intros [= <-]. simpl. lia.
  - intros [= <-]. simpl. lia.
Qed.

Lemma similar_calls_length self http shuffle ks :
  similar_calls self http shuffle = Ok ks →
  length ks ≤ 72 * length (user_data self).
Proof.
  unfold similar_calls. apply exc_flat_map_length.
  intros [user data] ka _ H. simpl in H.
  pose proof (selected_seeds_length shuffle user data).
  apply (exc_flat_map_length _ _ 12) in H; [lia|].
  intros sd kb _. apply seed_calls_length.
Qed.

Lemma popular_calls_length self http ks :
  popular_calls self http = Ok ks →
  length ks ≤ length (tmdb_get_popular http (tmdb_api_key self)).
Proof.
  unfold popular_calls. intros H.
  apply (exc_flat_map_length _ _ 1) in H; [lia|].
  intros p ka _. unfold popular_call.
  destruct (release_year p); simpl; [|done]. intros [= <-]. simpl. lia.
Qed.

Lemma watchlist_calls_length self http :
  length (watchlist_calls self http) = watchlist_total self.
Proof.
  unfold watchlist_calls, watchlist_total.
  induction (user_data self) as [|[user data] uds IH]; simpl; [done|].
  by rewrite length_app, length_fmap, IH.
Qed.

Lemma run_calls_length self http shuffle o calls :
  run_calls self http shuffle o = Ok calls →
  length calls ≤ candidate_bound self http o.
Proof.
  unfold run_calls, organic_calls, popular_guard, candidate_bound.
  assert (length (if use_watchlist o then watchlist_calls self http else [])
          = if use_watchlist o then watchlist_total self else 0) as Hc1.
  { destruct (use_watchlist o); [apply watchlist_calls_length | done]. }
  revert Hc1.
  generalize (if use_watchlist o then watchlist_calls self http else []).
  intros c1 Hc1. rewrite <- Hc1.
  destruct (use_similar o && has_key self).
  - destruct (similar_calls self http shuffle) as [c2|] eqn:E2; simpl; [|done].
    apply similar_calls_length in E2.
    destruct (use_popular o && has_key self); simpl.
    + destruct (bool_decide _); simpl.
      * destruct (popular_calls self http) as [c3|] eqn:E3; simpl; [|done].
        apply popular_calls_length in E3. intros [= <-].
        rewrite !length_app. lia.
      * intros [= <-]. rewrite !length_app. simpl. lia.
    + intros [= <-]. rewrite !length_app. simpl. lia.
  - simpl. destruct (use_popular o && has_key self); simpl.
    + destruct (bool_decide _); simpl.
      * destruct (popular_calls self http) as [c3|] eqn:E3; simpl; [|done].
        apply popular_calls_length in E3. intros [= <-].
        rewrite !length_app. simpl. lia.
      * intros [= <-]. rewrite !length_app. simpl. lia.
    + intros [= <-]. rewrite !length_app. simpl. lia.
Qed.

(** The dictionary holds at most one candidate per watchlist entry, 72 per
    profile from the similarity pass (six seeds, twelve recommendations
    each) and one per popular record, each counted only when its pass can
    run; the returned list is no longer than the dictionary. *)
Theorem aggregate_size self http shuffle o cands :
  aggregate self http shuffle o = Ok cands →
  length cands ≤ candidate_bound self http o.
Proof.
  rewrite aggregate_calls.
  destruct (run_calls self http shuffle o) as [calls|] eqn:Hrun; simpl;
    [|done].
  intros [= <-]. apply run_calls_length in Hrun.
  pose proof (apply_calls_length self calls []) as Hc. simpl in Hc.
  destruct (has_key self); [|lia].
  unfold enrich. rewrite length_fmap. lia.
Qed.

(** *** The enrichment *)

Lemma enrich_candidate_idemp self http c :
  enrich_candidate self http (enrich_candidate self http c)
  = enrich_candidate self http c.
Proof.
  unfold enrich_candidate. destruct (c_tmdb c) eqn:Et.
  - by rewrite Et.
  - case_decide as Hn.
    + rewrite Et. by rewrite decide_True.
    + destruct (tmdb_search_movie http (c_name c) (c_year c) (tmdb_api_key self))
        eqn:Es; simpl; [done|].
      rewrite Et, decide_False by done. by rewrite Es.
Qed.

Lemma enrich_candidate_missing self http c :
  c_tmdb (enrich_candidate self http c) = None →
  c_name c = "" ∨
  tmdb_search_movie http (c_name c) (c_year c) (tmdb_api_key self) = None.
Proof.
  unfold enrich_candidate. destruct (c_tmdb c) eqn:Et; [congruence|].
  case_decide; [by left|].
  destruct (tmdb_search_movie _ _ _ _); [done | by right].
Qed.

(** With an API key the returned dictionary is a fixed point of the
    enrichment: a candidate is left without a TMDB record only if it has no
    name or the search by its name and year finds nothing, and an entry has
    a poster only if its candidate has a TMDB record with a poster path. *)
Theorem aggregate_enriched self http shuffle o cands :
  tmdb_api_key self ≠ "" →
  aggregate self http shuffle o = Ok cands →
  enrich self http cands = cands ∧
  ∀ cid c, (cid, c) ∈ cands →
    (c_tmdb c = None →
     c_name c = "" ∨
     tmdb_search_movie http (c_name c) (c_year c) (tmdb_api_key self) = None) ∧
    (is_Some (res_poster (format_result (discovery_weight o) (cid, c))) →
     ∃ m path, c_tmdb c = Some m ∧ tm_poster_path m = Some path ∧ path ≠ "").
Proof.
  intros Hkey. unfold aggregate.
  destruct (after_popular self http shuffle o) as [cs|]; simpl; [|done].
  unfold has_key. rewrite bool_decide_false by done. simpl.
  intros [= <-]. split.
  - unfold enrich. rewrite <- list_fmap_compose.
    apply list_fmap_ext. intros i [cid c] _. simpl.
    by rewrite enrich_candidate_idemp.
  - intros cid c (c0 & Hin & ->)%enrich_elem. split.
    + intros Hnone. destruct (enrich_candidate_details self http c0)
        as (-> & -> & _). by apply enrich_candidate_missing.
    + cbn. destruct (c_tmdb (enrich_candidate self http c0)) as [m|];
        [|by intros [? ?]].
      unfold tmdb_image_url. destruct (tm_poster_path m) as [path|] eqn:Ep;
        [|by intros [? ?]].
      case_decide; [by intros [? ?]|]. intros _. by exists m, path.
Qed.

(** *** Bounds on the score *)

Lemma seed_points_min s : (25 <= seed_points s)%Q.
Proof.
  unfold seed_points. repeat case_decide; unfold Qle; simpl; lia.
Qed.

Lemma Qsum_min (l : list Q) :
  Forall (λ p, 25 <= p)%Q l → l ≠ [] → (25 <= Qsum l)%Q.
Proof.
  destruct 1 as [|p l Hp Hl]; [done|]. intros _. simpl.
  assert (0 <= Qsum l)%Q; [|lra].
  apply Qsum_nonneg. eapply Forall_impl; [exact Hl|]. simpl. intros. lra.
Qed.

Lemma contribs_ok_points_min c :
  contribs_ok c → Forall (λ p, 25 <= p)%Q (all_points c).
Proof.
  intros Hc. apply Forall_forall. intros p. unfold all_points.
  rewrite list_elem_of_In, in_flat_map.
  intros ([u ks] & Hu%list_elem_of_In & Hp%list_elem_of_In). simpl in Hp.
  apply list_elem_of_fmap in Hp as (k & -> & Hk).
  destruct (Hc u ks k Hu Hk) as [_ ->]. apply seed_points_min.
Qed.

Lemma wl_count_pos c : c_watchlist_users c ≠ ∅ → 0 < wl_count c.
Proof.
  intros Hne. unfold wl_count.
  destruct (decide (size (c_watchlist_users c) = 0)) as [Hz|]; [|lia].
  apply size_empty_iff, leibniz_equiv in Hz. done.
Qed.

(** For a weight that is not negative, the score of a candidate is at least
    100 per watchlist user: at least 100 when it is tagged [Watchlist], and
    at least 25 times the weight when it is tagged [Similar].  A candidate
    that comes from the popular fallback alone scores 0, whatever the
    weight. *)
Theorem score_bounds self http shuffle o cands cid c weight :
  (∀ u l, shuffle u l ≡ₚ l) →
  aggregate self http shuffle o = Ok cands →
  (cid, c) ∈ cands →
  (0 <= weight)%Q →
  (inject_Z (Z.of_nat (wl_count c)) * 100 <= score_of weight c)%Q ∧
  (Watchlist ∈ c_sources c → (100 <= score_of weight c)%Q) ∧
  (Similar ∈ c_sources c → (weight * 25 <= score_of weight c)%Q) ∧
  (c_sources c = {[ Popular ]} → (score_of weight c == 0)%Q).
Proof.
  intros Hperm Hagg Hin Hw.
  pose proof (aggregate_contribs_ok _ _ _ _ _ Hperm Hagg cid c Hin) as Hc.
  destruct (aggregate_well_formed _ _ _ _ _ Hagg cid c Hin)
    as (Hwl & Hsim & _ & Hne).
  pose proof (contribs_ok_points_min c Hc) as Hmin.
  assert (0 <= Qsum (all_points c))%Q as Hsum.
  { apply Qsum_nonneg. eapply Forall_impl; [exact Hmin|]. simpl. intros. lra. }
  assert (0 <= inject_Z (Z.of_nat (wl_count c)))%Q as Hcount.
  { change 0%Q with (inject_Z 0). rewrite <- Zle_Qle. lia. }
  rewrite !score_of_closed. split_and!.
  - nra.
  - intros Hs%Hwl%wl_count_pos.
    assert (1 <= inject_Z (Z.of_nat (wl_count c)))%Q.
    { change 1%Q with (inject_Z 1). rewrite <- Zle_Qle. lia. }
    nra.
  - intros Hs%Hsim.
    assert (25 <= Qsum (all_points c))%Q; [|nra].
    apply Qsum_min; [done|]. unfold all_points.
    destruct (c_similar c) as [|[u ks] sim] eqn:Es; [done|]. simpl.
    destruct ks as [|k ks]; [|done]. exfalso.
    apply (Hne u []); [left | done].
  - intros Hsrc.
    assert (c_watchlist_users c = ∅) as Hno.
    { destruct (decide (c_watchlist_users c = ∅)) as [|Hx]; [done|].
      apply Hwl in Hx. rewrite Hsrc in Hx. by apply elem_of_singleton in Hx. }
    assert (c_similar c = []) as Hnos.
    { destruct (c_similar c) eqn:Es; [done|].
      assert (Similar ∈ c_sources c) as Hx by (by apply Hsim).
      rewrite Hsrc in Hx. by apply elem_of_singleton in Hx. }
    unfold wl_count, all_points. rewrite Hno, Hnos, size_empty. simpl.
    change (inject_Z (Z.of_nat 0)) with 0%Q. lra.
Qed.

(** *** Normalizing the client's answer *)

Lemma pydata_nested_ind (P : pydata → Prop) :
  (∀ v, P (DVal v)) →
  (∀ l, Forall P l → P (DList l)) →
  (∀ d, Forall (λ kv : string * pydata, P kv.2) d → P (DDict d)) →
  ∀ data, P data.
Proof.
  intros HV HL HD. fix IH 1. intros [v|l|d].
  - apply HV.
  - apply HL. induction l as [|x l IHl]; constructor; [apply IH | exact IHl].
  - apply HD. induction d as [|[k x] d IHd]; constructor;
      [apply IH | exact IHd].
Qed.

Lemma process_item_Some item s i :
  process_item item = Some (s, i) →
  i = item ∧ s ≠ "" ∧ is_dict item = true ∧ slug_of item = Some s.
Proof.
  unfold slug_of. destruct item as [v|l|d]; simpl; try done.
  destruct (od_get "slug" d) as [[[| | | |slug]| |]|]; try done.
  case_decide; [done|]. intros [= <- <-]. by split_and!.
Qed.

Lemma slug_of_None item : slug_of item = None ↔ process_item item = None.
Proof. unfold slug_of. by destruct (process_item item). Qed.

Lemma slug_keyed_nil : slug_keyed [].
Proof.
  split; [constructor|]. intros s i H. by apply elem_of_nil in H.
Qed.

Lemma slug_keyed_set s i out :
  s ≠ "" → is_dict i = true → slug_of i = Some s ∨ slug_of i = None →
  slug_keyed out → slug_keyed (od_set s i out).
Proof.
  intros Hs Hi Hslug [Hnd Hall]. split; [by apply od_set_NoDup|].
  intros s' i' [[= -> ->]|Hin]%od_elem_set; [done | by apply Hall].
Qed.

Lemma list_step_keyed out item :
  slug_keyed out → slug_keyed (list_step out item).
Proof.
  intros Hout. unfold list_step.
  destruct (process_item item) as [[s i]|] eqn:E; [|done].
  apply process_item_Some in E as (-> & Hs & Hd & Hslug).
  apply slug_keyed_set; auto.
Qed.

Lemma dict_step_keyed out kv :
  slug_keyed out → slug_keyed (dict_step out kv).
Proof.
  intros Hout. destruct kv as [k v]. unfold dict_step.
  destruct (process_item v) as [[s i]|] eqn:E.
  - apply process_item_Some in E as (-> & Hs & Hd & Hslug).
    apply slug_keyed_set; auto.
  - destruct (bool_decide (k ≠ "")) eqn:Ek; simpl; [|done].
    destruct (is_dict v) eqn:Ed; [|done].
    apply bool_decide_eq_true in Ek.
    apply slug_keyed_set; try done. right. by apply slug_of_None.
Qed.

Lemma movies_entry_get {R} (recurse : pydata → R) d :
  movies_entry recurse d
  = match od_get "movies" d with
    | Some v => if is_dict v then Some (recurse v) else None
    | None => None
    end.
Proof.
  induction d as [|[k v] d IH]; simpl; [done|]. by case_decide.
Qed.

Lemma extract_dict d :
  extract_movies_by_slug (DDict d)
  = match od_get "movies" d with
    | Some (DDict d') => extract_movies_by_slug (DDict d')
    | _ => fold_left dict_step d []
    end.
Proof.
  destruct d as [|kv d]; [done|].
  cbn [extract_movies_by_slug data_truthy]. rewrite movies_entry_get.
  destruct (od_get "movies" (kv :: d)) as [[v|l|d']|]; done.
Qed.

Lemma extract_list l :
  extract_movies_by_slug (DList l) = fold_left list_step l [].
Proof. by destruct l. Qed.

Lemma extract_val v : extract_movies_by_slug (DVal v) = [].
Proof. simpl. by destruct (truthy v). Qed.

(** Whatever the client returned, the result is a mapping from slugs to
    details: no slug twice, no empty slug, every value one of the
    dictionaries of the input, stored under its own ["slug"] when that is a
    non-empty string. *)
Theorem extract_movies_by_slug_keyed data :
  slug_keyed (extract_movies_by_slug data).
Proof.
  induction data as [v|l IH|d IH] using pydata_nested_ind.
  - rewrite extract_val. apply slug_keyed_nil.
  - rewrite extract_list.
    apply (fold_left_inv slug_keyed); [apply slug_keyed_nil|].
    intros out item _. apply list_step_keyed.
  - rewrite extract_dict.
    destruct (od_get "movies" d) as [[v|l|d']|] eqn:E;
      try (apply (fold_left_inv slug_keyed); [apply slug_keyed_nil|];
           intros out kv _; apply dict_step_keyed).
    apply od_get_Some_elem in E. rewrite Forall_forall in IH.
    apply (IH _ E).
Qed.


Lemma last_cons_match {A} (x : A) l :
  last (x :: l) = match last l with Some y => Some y | None => Some x end.
Proof.
  destruct l as [|y l]; [done|].
  change (last (x :: y :: l)) with (last (y :: l)).
  destruct (last (y :: l)) eqn:E; [done|]. by apply last_None in E.
Qed.

Lemma list_loop_get s l acc :
  od_get s (fold_left list_step l acc)
  = match last (filter (λ i, slug_of i = Some s) l) with
    | Some i => Some i
    | None => od_get s acc
    end.
Proof.
  revert acc. induction l as [|x l IH]; intros acc; [done|].
  cbn [fold_left]. rewrite IH. rewrite filter_cons.
  unfold list_step. destruct (process_item x) as [[s' i]|] eqn:E.
  - apply process_item_Some in E as (-> & _ & _ & Hslug). rewrite Hslug.
    case_decide as Hs.
    + injection Hs as ->. rewrite last_cons_match.
      destruct (last _); [done|]. by rewrite od_get_set_eq.
    + destruct (last _); [done|]. rewrite od_get_set_ne; [done|congruence].
  - apply slug_of_None in E. rewrite E. by rewrite decide_False.
Qed.

(** For a list, the entry stored under a slug is the last item of the list
    that carries this slug: a later item replaces an earlier one, and items
    without a usable slug are skipped. *)
Theorem extract_movies_by_slug_list l s :
  od_get s (extract_movies_by_slug (DList l))
  = last (filter (λ i, slug_of i = Some s) l).
Proof.
  rewrite extract_list, list_loop_get. by destruct (last _).
Qed.

Lemma od_set_new {V} k (v : V) d :
  k ∉ d.*1 → od_set k v d = d ++ [(k, v)].
Proof.
  induction d as [|[k0 v0] d IH]; csimpl; [done|].
  rewrite not_elem_of_cons. intros [Hne Hk].
  rewrite decide_False by done. by rewrite IH.
Qed.

Lemma dict_loop_keyed d acc :
  NoDup (acc.*1 ++ d.*1) →
  (∀ s i, (s, i) ∈ d →
     s ≠ "" ∧ is_dict i = true ∧ (slug_of i = Some s ∨ slug_of i = None)) →
  fold_left dict_step d acc = acc ++ d.
Proof.
  revert acc. induction d as [|[s v] d IH]; intros acc Hnd Hall;
    cbn [fold_left]; [by rewrite app_nil_r|].
  destruct (Hall s v ltac:(left)) as (Hs & Hd & Hslug).
  assert (dict_step acc (s, v) = acc ++ [(s, v)]) as ->.
  { csimpl in Hnd. apply NoDup_app in Hnd as (_ & Hdisj & _).
    assert (s ∉ acc.*1) as Hnew.
    { intros Hin. apply (Hdisj s Hin). left. }
    unfold dict_step. destruct (process_item v) as [[s' i]|] eqn:E.
    - apply process_item_Some in E as (-> & _ & _ & Hs').
      destruct Hslug as [Hslug|Hslug]; [|congruence].
      assert (s' = s) as -> by congruence. by apply od_set_new.
    - rewrite bool_decide_true by done. rewrite Hd. simpl.
      by apply od_set_new. }
  rewrite IH.
  - by rewrite <- (assoc_L (++)).
  - rewrite fmap_app. csimpl in *. by rewrite <- (assoc_L (++)).
  - intros s' i' Hin. apply Hall. by right.
Qed.

(** A mapping that is already keyed by slug and has no key ["movies"] is
    returned as it is, in the same order; so is the result of a
    normalization, unless one of its slugs is ["movies"]. *)
Theorem extract_movies_by_slug_fixed d :
  slug_keyed d → "movies" ∉ d.*1 →
  extract_movies_by_slug (DDict d) = d.
Proof.
  intros [Hnd Hall] Hm. rewrite extract_dict.
  apply od_get_None in Hm. rewrite Hm.
  by apply (dict_loop_keyed d []).
Qed.

(** *** The group list *)

Lemma filter_all_ne (u : string) (l : list string) :
  u ∉ l → filter (λ x, x ≠ u) l = l.
Proof.
  induction l as [|x l IH]; [done|].
  rewrite not_elem_of_cons. intros [Hne Hl]. rewrite filter_cons.
  rewrite decide_True by done. by rewrite IH.
Qed.

Lemma list_remove_filter (u : string) (l : list string) :
  u ∈ l → NoDup l → list_remove u l = Ok (filter (λ x, x ≠ u) l).
Proof.
  induction l as [|x l IH]; [by intros ?%elem_of_nil|].
  intros Hin [Hx Hnd]%NoDup_cons. cbn [list_remove]. rewrite filter_cons.
  case_decide as Hu.
  - subst x. rewrite decide_False by (by intros ?).
    by rewrite filter_all_ne.
  - apply elem_of_cons in Hin as [?|Hin]; [done|].
    rewrite IH by done. simpl. by rewrite decide_True.
Qed.

Lemma remove_user_filter u st :
  NoDup (s_usernames st) →
  remove_user u st
  = Ok {| s_usernames := filter (λ x, x ≠ u) (s_usernames st);
          new_user_input := new_user_input st |}.
Proof.
  intros Hnd. unfold remove_user. case_decide as Hin.
  - by rewrite list_remove_filter.
  - rewrite filter_all_ne by done. by destruct st.
Qed.

Lemma add_user_names st :
  s_usernames (add_user st) = s_usernames st ∨
  (str_strip (new_user_input st) ≠ "" ∧
   (str_strip (new_user_input st) ∉ s_usernames st) ∧
   s_usernames (add_user st)
   = s_usernames st ++ [str_strip (new_user_input st)]).
Proof. unfold add_user. case_decide as H; [right; tauto | by left]. Qed.

(** On a list without duplicates [remove_user] never fails: it drops
    exactly the given name and keeps the others in their order (nothing
    changes when the name is not listed).  It undoes [add_user]: removing
    a name that was just added gives back the list as it was. *)
Theorem remove_user_drops u st :
  NoDup (s_usernames st) →
  remove_user u st
  = Ok {| s_usernames := filter (λ x, x ≠ u) (s_usernames st);
          new_user_input := new_user_input st |} ∧
  (str_strip (new_user_input st) = u → u ≠ "" → u ∉ s_usernames st →
   remove_user u (add_user st)
   = Ok {| s_usernames := s_usernames st; new_user_input := "" |}).
Proof.
  intros Hnd. split; [by apply remove_user_filter|].
  intros Hu Hne Hnew. unfold add_user. rewrite Hu.
  rewrite decide_True by done. rewrite remove_user_filter.
  - cbn. rewrite filter_app, filter_all_ne by done.
    rewrite filter_cons, decide_False by (by intros ?).
    by rewrite filter_nil, app_nil_r.
  - cbn. apply NoDup_app. split_and!; [done | | apply NoDup_singleton].
    intros x Hx ->%list_elem_of_singleton. done.
Qed.

Lemma handle_names st e st' :
  NoDup (s_usernames st) → "" ∉ s_usernames st →
  handle st e = Ok st' →
  NoDup (s_usernames st') ∧ ("" ∉ s_usernames st') ∧
  ∀ u, u ∈ s_usernames st' →
    u ∈ s_usernames st ∨ ∃ text, e = Entered text ∧ u = str_strip text.
Proof.
  intros Hnd Hne. destruct e as [text|u]; cbn [handle].
  - intros [= <-].
    destruct (add_user_names {| s_usernames := s_usernames st;
                                new_user_input := text |})
      as [->|(H1 & H2 & ->)]; cbn in *.
    + split_and!; [done | done | by left].
    + split_and!.
      * apply NoDup_app. split_and!; [done | | apply NoDup_singleton].
        intros x Hx Heq%list_elem_of_singleton. by subst x.
      * rewrite elem_of_app, list_elem_of_singleton. intros [?|?]; done.
      * intros u [?|Heq%list_elem_of_singleton]%elem_of_app; [by left|].
        right. by exists text.
  - rewrite remove_user_filter by done. intros [= <-]. cbn.
    split_and!.
    + by apply NoDup_filter.
    + rewrite list_elem_of_filter. by intros [_ ?].
    + intros x [_ ?]%list_elem_of_filter. by left.
Qed.

Lemma handle_total st e :
  NoDup (s_usernames st) → ∃ st', handle st e = Ok st'.
Proof.
  intros Hnd. destruct e as [text|u]; cbn [handle]; [by eexists|].
  rewrite remove_user_filter by done. by eexists.
Qed.

Lemma session_loop events st :
  NoDup (s_usernames st) → "" ∉ s_usernames st →
  ∃ st', for_each handle events st = Ok st' ∧
    NoDup (s_usernames st') ∧ ("" ∉ s_usernames st') ∧
    ∀ u, u ∈ s_usernames st' →
      u ∈ s_usernames st ∨
      ∃ text, Entered text ∈ events ∧ u = str_strip text.
Proof.
  revert st. induction events as [|e events IH]; intros st Hnd Hne; simpl.
  - exists st. split_and!; try done. by left.
  - destruct (handle_total st e Hnd) as [st1 H1]. rewrite H1. simpl.
    destruct (handle_names st e st1 Hnd Hne H1) as (Hnd1 & Hne1 & Hfrom1).
    destruct (IH st1 Hnd1 Hne1) as (st' & -> & Hnd' & Hne' & Hfrom').
    exists st'. split_and!; try done.
    intros u [Hu|(text & Hin & ->)]%Hfrom'.
    + apply Hfrom1 in Hu as [?|(text & -> & ->)]; [by left|].
      right. exists text. split; [left | done].
    + right. exists text. split; [by right | done].
Qed.

(** Whatever is entered and pressed in a session, no callback fails, and
    the list of the group never holds a name twice or an empty name; every
    listed name is the stripped form of a text that was entered. *)
Theorem session_names_distinct events :
  ∃ st, for_each handle events new_session = Ok st ∧
    NoDup (s_usernames st) ∧ ("" ∉ s_usernames st) ∧
    ∀ u, u ∈ s_usernames st →
      ∃ text, Entered text ∈ events ∧ u = str_strip text.
Proof.
  destruct (session_loop events new_session) as (st & H & Hnd & Hne & Hfrom).
  - constructor.
  - apply not_elem_of_nil.
  - exists st. split_and!; try done.
    intros u [Hu|?]%Hfrom; [by apply elem_of_nil in Hu | done].
Qed.

(** *** The seeds of a user *)

Lemma rated_seeds_elem ratings sd :
  sd ∈ rated_seeds ratings ↔
  ∃ slug e, (slug, e) ∈ ratings ∧ (8 ≤ r_score e)%Z ∧ sd = rated_seed slug e.
Proof.
  unfold rated_seeds, rated_seed. rewrite list_elem_of_omap. split.
  - intros ([slug e] & Hin & H). case_decide as Hs; [|done].
    injection H as <-. by exists slug, e.
  - intros (slug & e & Hin & Hs & ->). exists (slug, e). split; [done|].
    by rewrite decide_True.
Qed.

Lemma liked_seeds_elem data sd :
  sd ∈ liked_seeds data ↔
  ∃ slug, slug ∈ p_liked data ∧ (slug ∉ (p_ratings data).*1) ∧
          sd = liked_seed slug.
Proof.
  unfold liked_seeds, liked_seed. rewrite list_elem_of_omap. split.
  - intros (slug & Hin%elem_of_elements & H).
    destruct (od_mem slug (p_ratings data)) eqn:Em; [done|].
    injection H as <-. exists slug. split_and!; try done.
    intros Hk%od_mem_true. congruence.
  - intros (slug & Hin & Hk & ->). exists slug.
    split; [by apply elem_of_elements|].
    destruct (od_mem slug (p_ratings data)) eqn:Em; [|done].
    by apply od_mem_true in Em.
Qed.

Lemma collect_seeds_elem data sd :
  sd ∈ collect_seeds data ↔
  (∃ slug e, (slug, e) ∈ p_ratings data ∧ (8 ≤ r_score e)%Z ∧
             sd = rated_seed slug e) ∨
  (length (rated_seeds (p_ratings data)) < 5 ∧
   ∃ slug, slug ∈ p_liked data ∧ (slug ∉ (p_ratings data).*1) ∧
           sd = liked_seed slug).
Proof.
  unfold collect_seeds. case_decide as Hlen.
  - rewrite elem_of_app, rated_seeds_elem, liked_seeds_elem. tauto.
  - rewrite rated_seeds_elem. split; [by left | by intros [?|[? _]]].
Qed.

(** The seeds of a user, for a shuffle that permutes: at most six are
    processed, all of them when there are no more than six, and each is
    either a rating of at least 8 with its own entry, or, only when fewer
    than five ratings reach 8, a liked film that has no rating at all,
    counted as a 10 under the title made from its slug. *)
Theorem selected_seeds_spec shuffle user data :
  (∀ u l, shuffle u l ≡ₚ l) →
  length (selected_seeds shuffle user data) ≤ 6 ∧
  (length (collect_seeds data) ≤ 6 →
   selected_seeds shuffle user data ≡ₚ collect_seeds data) ∧
  ∀ sd, sd ∈ selected_seeds shuffle user data →
    (∃ slug e, (slug, e) ∈ p_ratings data ∧ (8 ≤ r_score e)%Z ∧
               sd = rated_seed slug e) ∨
    (length (rated_seeds (p_ratings data)) < 5 ∧
     ∃ slug, slug ∈ p_liked data ∧ (slug ∉ (p_ratings data).*1) ∧
             sd = liked_seed slug).
Proof.
  intros Hperm. unfold selected_seeds. split_and!.
  - rewrite length_take. lia.
  - intros Hlen. rewrite take_ge; [apply Hperm|]. by rewrite Hperm.
  - intros sd Hsd%elem_of_take_elem. rewrite Hperm in Hsd.
    by apply collect_seeds_elem.
Qed.

End Properties.

(** * The properties on the example scenarios *)

Section Closed.
#[local] Existing Instance ascii_builtins.

Lemma aggregate_unwatched_witness :
  aggregate ex_engine ex_http sh_id ex_options = Ok ex_cands ∧
  ("tmdb:872585", ex_oppenheimer) ∈ ex_cands ∧
  ∃ year : option Z,
    is_watched ex_engine (c_name ex_oppenheimer) year = false ∧
    (c_name ex_oppenheimer = "" ∨
     (normalize_title (c_name ex_oppenheimer), year)
       ∉ global_watched_index ex_engine) ∧
    (c_year ex_oppenheimer = py_of_year year
     ∨ coerce_year (c_year ex_oppenheimer) = year).
Proof.
  split; [vm_compute; reflexivity|].
  split; [apply od_get_Some_elem; vm_compute; reflexivity|].
  apply (aggregate_unwatched ex_engine ex_http sh_id ex_options ex_cands
           "tmdb:872585" ex_oppenheimer).
  - vm_compute. reflexivity.
  - apply od_get_Some_elem. vm_compute. reflexivity.
Defined.

(** The group-wide exclusion on the example: bob has seen Dune: Part Two, so
    the watchlist entry of alice and the similar title are both rejected. *)
Lemma watched_title_excluded :
  res_title <$> ex_results = ["Oppenheimer"; "Memories of Murder"; "Barbie"] ∧
  is_watched ex_engine "Dune: Part Two" (Some 2024%Z) = true.
Proof. split; vm_compute; reflexivity. Qed.


Lemma aggregate_merges_witness :
  aggregate ex_engine ex_http sh_id ex_options = Ok ex_cands ∧
  ∃ calls,
    run_calls ex_engine ex_http sh_id ex_options = Ok calls ∧
    NoDup ex_cands.*1 ∧
    (∀ cid, cid ∈ ex_cands.*1 ↔
            ∃ k, k ∈ calls ∧ accepted ex_engine k ∧ k_id k = cid) ∧
    (∀ cid c tag, (cid, c) ∈ ex_cands →
       tag ∈ c_sources c ↔
       ∃ k, k ∈ calls ∧ accepted ex_engine k ∧ k_id k = cid
            ∧ kind_tag (k_kind k) = tag).
Proof.
  split; [vm_compute; reflexivity|].
  apply (aggregate_merges ex_engine ex_http sh_id ex_options ex_cands).
  vm_compute. reflexivity.
Defined.



Lemma within_cap_ex : within_cap ex_engine.
Proof.
  intros user data Hin.
  assert (Forall (λ ud : string * profile, length (collect_seeds ud.2) ≤ 6)
            (user_data ex_engine)) as HF.
  { vm_compute. repeat constructor. }
  rewrite Forall_forall in HF. apply (HF (user, data) Hin).
Qed.

Lemma aggregate_up_to_shuffle_witness :
  (∀ u l, sh_id u l ≡ₚ l) ∧ (∀ u l, sh_rev u l ≡ₚ l) ∧
  (same_order ex_engine sh_id sh_rev ∨ within_cap ex_engine) ∧
  aggregate ex_engine ex_http sh_id ex_options = Ok ex_cands ∧
  ∃ cands2,
    aggregate ex_engine ex_http sh_rev ex_options = Ok cands2 ∧
    (∀ cid, cid ∈ ex_cands.*1 ↔ cid ∈ cands2.*1) ∧
    (∀ cid c1 c2, (cid, c1) ∈ ex_cands → (cid, c2) ∈ cands2 →
       same_signals c1 c2 ∧
       ∀ weight, (score_of weight c1 == score_of weight c2)%Q) ∧
    (same_order ex_engine sh_id sh_rev →
       cands2 = ex_cands ∧
       generate_recommendations ex_engine ex_http sh_id ex_options
       = generate_recommendations ex_engine ex_http sh_rev ex_options).
Proof.
  split; [by intros|].
  split; [intros; apply reverse_Permutation|].
  split; [right; apply within_cap_ex|].
  split; [vm_compute; reflexivity|].
  apply (aggregate_up_to_shuffle ex_engine ex_http sh_id sh_rev ex_options
           ex_cands).
  - by intros.
  - intros. apply reverse_Permutation.
  - right. apply within_cap_ex.
  - vm_compute. reflexivity.
Defined.

(** With two seeds within the cap, the reverse order leads to the same
    candidates; the contributions to one of them are appended in the other
    order, so the dictionaries are not equal. *)
Lemma shuffle_reorders_contributions :
  aggregate ex_engine ex_http sh_rev ex_options = Ok ex_cands_rev ∧
  ex_cands_rev.*1 = ex_cands.*1 ∧
  ex_cands_rev ≠ ex_cands ∧
  c_similar ex_memories_rev
  = prod_map id reverse <$> c_similar ex_memories ∧
  same_signals ex_memories ex_memories_rev.
Proof.
  split; [vm_compute; reflexivity|].
  split; [vm_compute; reflexivity|].
  split; [intros Heq; vm_compute in Heq; discriminate Heq|].
  split; [vm_compute; reflexivity|].
  split_and!; [vm_compute; reflexivity | vm_compute; reflexivity |].
  vm_compute. apply Permutation_swap.
Qed.

(** Counterexample to claim C3 as stated: dave has seven seeds; with the
    seeds in catalog order the six first are expanded, with the reverse order
    the six last, and the two runs return different candidates. *)
Lemma shuffle_changes_candidates :
  (∀ u l, sh_id u l ≡ₚ l) ∧ (∀ u l, sh_rev u l ≡ₚ l) ∧
  result_ids (generate_recommendations ex_engine7 ex_http7 sh_id ex_options7)
  = ["tmdb:101"; "tmdb:102"; "tmdb:103"; "tmdb:104"; "tmdb:105"; "tmdb:106"] ∧
  result_ids (generate_recommendations ex_engine7 ex_http7 sh_rev ex_options7)
  = ["tmdb:107"; "tmdb:106"; "tmdb:105"; "tmdb:104"; "tmdb:103"; "tmdb:102"] ∧
  generate_recommendations ex_engine7 ex_http7 sh_id ex_options7
  ≠ generate_recommendations ex_engine7 ex_http7 sh_rev ex_options7.
Proof.
  split; [by intros|].
  split; [intros; apply reverse_Permutation|].
  split; [vm_compute; reflexivity|].
  split; [vm_compute; reflexivity|].
  intros Heq. apply (f_equal result_ids) in Heq. vm_compute in Heq.
  discriminate Heq.
Qed.

Lemma fetch_user_data_scores_witness :
  ex_User (str_strip "alice") = Ok ex_alice ∧
  ("parasite-2019", ex_rating) ∈ fu_ratings (fetch_user_data ex_User "alice") ∧
  fu_err (fetch_user_data ex_User "alice") = None ∧
  ∃ info val,
    ("parasite-2019", info) ∈ films_of ex_alice ∧
    py_float (f_rating info) = Some val ∧ (0 < val)%Q ∧
    r_score ex_rating = float_trunc val ∧ (0 ≤ r_score ex_rating)%Z ∧
    ((1 <= val)%Q → (val < 11)%Q → (1 ≤ r_score ex_rating ≤ 10)%Z).
Proof.
  split; [vm_compute; reflexivity|].
  split; [apply od_get_Some_elem; vm_compute; reflexivity|].
  apply (fetch_user_data_scores ex_User "alice" ex_alice "parasite-2019"
           ex_rating).
  - vm_compute. reflexivity.
  - apply od_get_Some_elem. vm_compute. reflexivity.
Defined.

(** Counterexample to claim C7 as stated: a rating of 0.5 is stored as
    score 0 and a rating of 11 as score 11. *)
Lemma ratings_outside_one_to_ten :
  fu_err (fetch_user_data ex_User "bob") = None ∧
  od_get "dune-part-two" (fu_ratings (fetch_user_data ex_User "bob"))
  = Some {| r_score := 0; r_name := Some " Dune: Part Two";
            r_year := PyStr "2024" |} ∧
  od_get "tenet" (fu_ratings (fetch_user_data ex_User "bob"))
  = Some {| r_score := 11; r_name := Some "Tenet"; r_year := PyStr "n/a" |} ∧
  ¬ (∀ slug e, (slug, e) ∈ fu_ratings (fetch_user_data ex_User "bob") →
               (1 ≤ r_score e ≤ 10)%Z).
Proof.
  split; [vm_compute; reflexivity|].
  split; [vm_compute; reflexivity|].
  split; [vm_compute; reflexivity|].
  intros Hall.
  assert (("tenet", {| r_score := 11; r_name := Some "Tenet";
                       r_year := PyStr "n/a" |})
          ∈ fu_ratings (fetch_user_data ex_User "bob")) as Hin.
  { apply od_get_Some_elem. vm_compute. reflexivity. }
  apply Hall in Hin. simpl in Hin. lia.
Qed.

Lemma popular_pass_guard_witness :
  after_similar ex_engine ex_http sh_id ex_options = Ok ex_organic ∧
  after_popular ex_engine ex_http sh_id ex_options = Ok ex_with_popular ∧
  (use_popular ex_options = true ∧ tmdb_api_key ex_engine ≠ ""
   ∧ length ex_organic < 20 →
     pass_popular ex_engine ex_http ex_organic = Ok ex_with_popular ∧
     ∀ p, p ∈ tmdb_get_popular ex_http (tmdb_api_key ex_engine) →
       ∃ year, release_year p = Ok year ∧
         (is_watched ex_engine (tm_title p) year = false →
          ∃ c, (tmdb_key p, c) ∈ ex_with_popular ∧ Popular ∈ c_sources c)) ∧
  (¬ (use_popular ex_options = true ∧ tmdb_api_key ex_engine ≠ ""
      ∧ length ex_organic < 20) →
     ex_with_popular = ex_organic ∧
     ∀ cid c, (cid, c) ∈ ex_with_popular → Popular ∉ c_sources c).
Proof.
  split; [vm_compute; reflexivity|].
  split; [vm_compute; reflexivity|].
  apply (popular_pass_guard ex_engine ex_http sh_id ex_options ex_organic
           ex_with_popular).
  - vm_compute. reflexivity.
  - vm_compute. reflexivity.
Defined.

(** Claim C9, at the failing input.  The fetch for carol fails with an
    exception whose message is empty, the fetch for zed with a message.  The
    failure of zed is recorded with the username and zed gets no profile;
    the failure of carol is not recorded and carol gets an empty profile.
    alice and bob are processed in both cases. *)
Theorem fetch_data_unrecorded_failure :
  ex_User (str_strip "carol") = Raise "" ∧
  ex_User (str_strip "zed") = Raise "user not found" ∧
  errors (fetch_data ex_User (init ["alice"; "carol"; "zed"; "bob"] ""))
  = ["zed: user not found"] ∧
  (user_data (fetch_data ex_User (init ["alice"; "carol"; "zed"; "bob"] ""))).*1
  = ["alice"; "carol"; "bob"] ∧
  od_get "carol"
    (user_data (fetch_data ex_User (init ["alice"; "carol"; "zed"; "bob"] "")))
  = Some empty_profile.
Proof. vm_compute. by split_and!. Qed.

Lemma generate_recommendations_no_users_witness :
  user_data (init ["alice"; "bob"] "key") = [] ∧
  generate_recommendations (init ["alice"; "bob"] "key") ex_http sh_id
    ex_options = Ok [].
Proof.
  split; [reflexivity|].
  apply (generate_recommendations_no_users (init ["alice"; "bob"] "key")
           ex_http sh_id ex_options).
  reflexivity.
Defined.

Lemma generate_recommendations_sorted_witness :
  generate_recommendations ex_engine ex_http sh_id ex_options = Ok ex_results ∧
  length ex_results ≤ 100 ∧
  StronglySorted score_ge ex_results ∧
  NoDup (res_id <$> ex_results).
Proof.
  split; [vm_compute; reflexivity|].
  apply (generate_recommendations_sorted ex_engine ex_http sh_id ex_options).
  vm_compute. reflexivity.
Defined.


Lemma fetch_user_data_index_witness :
  ex_User (str_strip "alice") = Ok ex_alice ∧
  (("parasite", Some 2019%Z)
     ∈ fu_watched_index (fetch_user_data ex_User "alice") ↔
   "parasite" ≠ "" ∧ ∃ slug info, (slug, info) ∈ films_of ex_alice ∧
     normalize_title (default "" (f_name info)) = "parasite" ∧
     coerce_year (f_year info) = Some 2019%Z).
Proof.
  split; [vm_compute; reflexivity|].
  apply (fetch_user_data_index ex_User "alice" ex_alice).
  vm_compute. reflexivity.
Defined.

Lemma fetch_user_data_slugs_witness :
  ex_User (str_strip "alice") = Ok ex_alice ∧
  let r := fetch_user_data ex_User "alice" in
  (∀ slug, slug ∈ fu_watched r ↔ slug ∈ (films_of ex_alice).*1) ∧
  (∀ slug, slug ∈ fu_liked r ↔
     ∃ info, (slug, info) ∈ films_of ex_alice ∧ truthy (f_liked info) = true) ∧
  fu_liked r ⊆ fu_watched r ∧
  NoDup (fu_ratings r).*1 ∧
  (∀ slug, slug ∈ (fu_ratings r).*1 → slug ∈ fu_watched r).
Proof.
  split; [vm_compute; reflexivity|].
  apply (fetch_user_data_slugs ex_User "alice" ex_alice).
  vm_compute. reflexivity.
Defined.

Lemma fetch_user_data_ratings_witness :
  ex_User (str_strip "bob") = Ok ex_bob ∧
  NoDup (films_of ex_bob).*1 ∧
  od_get "tenet" (fu_ratings (fetch_user_data ex_User "bob"))
  = info ← od_get "tenet" (films_of ex_bob); rating_of info.
Proof.
  split; [vm_compute; reflexivity|].
  split; [apply (bool_decide_unpack _); vm_compute; reflexivity|].
  apply (fetch_user_data_ratings ex_User "bob" ex_bob "tenet").
  - vm_compute. reflexivity.
  - apply (bool_decide_unpack _). vm_compute. reflexivity.
Defined.

Lemma recommendations_exclude_watched_films_witness :
  generate_recommendations (fetch_data ex_User (init ["alice"; "bob"] "key"))
    ex_http sh_id ex_options = Ok ex_results ∧
  ex_top ∈ ex_results ∧
  ∃ year : option Z,
    (res_year ex_top = py_of_year year ∨ coerce_year (res_year ex_top) = year) ∧
    (res_title ex_top ≠ "" →
     ∀ user u slug info,
       user ∈ usernames (init ["alice"; "bob"] "key") →
       ex_User (str_strip user) = Ok u →
       (slug, info) ∈ films_of u →
       normalize_title (default "" (f_name info)) ≠ "" →
       ¬ film_matches info (res_title ex_top) year).
Proof.
  split; [vm_compute; reflexivity|].
  split; [left|].
  apply (recommendations_exclude_watched_films ex_User ["alice"; "bob"] "key"
           ex_http sh_id ex_options ex_results ex_top).
  - vm_compute. reflexivity.
  - left.
Defined.

Lemma aggregate_candidates_well_formed_witness :
  aggregate ex_engine ex_http sh_id ex_options = Ok ex_cands ∧
  ("tmdb:1", ex_memories) ∈ ex_cands ∧
  c_sources ex_memories ≠ ∅ ∧
  (Watchlist ∈ c_sources ex_memories ↔ c_watchlist_users ex_memories ≠ ∅) ∧
  (Similar ∈ c_sources ex_memories ↔ c_similar ex_memories ≠ []) ∧
  NoDup (c_similar ex_memories).*1 ∧
  (∀ u ks, (u, ks) ∈ c_similar ex_memories → ks ≠ []).
Proof.
  split; [vm_compute; reflexivity|].
  split; [apply od_get_Some_elem; vm_compute; reflexivity|].
  apply (aggregate_candidates_well_formed ex_engine ex_http sh_id ex_options
           ex_cands "tmdb:1" ex_memories).
  - vm_compute. reflexivity.
  - apply od_get_Some_elem. vm_compute. reflexivity.
Defined.

Lemma debug_details_total_witness :
  aggregate ex_engine ex_http sh_id ex_options = Ok ex_cands ∧
  ("tmdb:1", ex_memories) ∈ ex_cands ∧
  debug_details ex_memories
  = Ok {| d_watchlist := None;
          d_similar := Some "Similar to Parasite (10/10)" |} ∧
  ∃ reasons d,
    sim_reasons ex_memories = Ok reasons ∧ debug_details ex_memories = Ok d ∧
    Forall2 (λ (uc : string * list contribution) r,
               ∃ best, is_best uc.2 best ∧ r = reason best)
            (c_similar ex_memories) reasons ∧
    (is_Some (d_watchlist d) ↔ Watchlist ∈ c_sources ex_memories) ∧
    (is_Some (d_similar d) ↔ Similar ∈ c_sources ex_memories) ∧
    (Similar ∈ c_sources ex_memories →
     d_similar d = Some (join ", " (take 3 reasons))).
Proof.
  split; [vm_compute; reflexivity|].
  split; [apply od_get_Some_elem; vm_compute; reflexivity|].
  split; [vm_compute; reflexivity|].
  apply (debug_details_total ex_engine ex_http sh_id ex_options
           ex_cands "tmdb:1" ex_memories).
  - vm_compute. reflexivity.
  - apply od_get_Some_elem. vm_compute. reflexivity.
Defined.

Lemma candidate_details_from_first_source_witness :
  aggregate ex_engine ex_http sh_id ex_options = Ok ex_cands ∧
  ("tmdb:872585", ex_oppenheimer) ∈ ex_cands ∧
  Watchlist ∈ c_sources ex_oppenheimer ∧
  c_url ex_oppenheimer = "https://letterboxd.com/film/oppenheimer/" ∧
  (Watchlist ∈ c_sources ex_oppenheimer →
     ∃ user data slug d,
       (user, data) ∈ user_data ex_engine ∧ (slug, d) ∈ p_watchlist data ∧
       c_name ex_oppenheimer = default "Unknown" (w_name d) ∧
       c_year ex_oppenheimer = w_year d ∧
       c_url ex_oppenheimer
       = default ("https://letterboxd.com/film/" +:+ slug +:+ "/") (w_url d)) ∧
  (Watchlist ∉ c_sources ex_oppenheimer →
     ∃ m y,
       c_tmdb ex_oppenheimer = Some m ∧ "tmdb:872585" = tmdb_key m ∧
       c_name ex_oppenheimer = tm_title m ∧
       release_year m = Ok y ∧ c_year ex_oppenheimer = py_of_year y ∧
       c_url ex_oppenheimer
       = if decide (Similar ∈ c_sources ex_oppenheimer)
         then "https://www.themoviedb.org/movie/" +:+ pretty (tm_id m)
         else "").
Proof.
  split; [vm_compute; reflexivity|].
  split; [apply od_get_Some_elem; vm_compute; reflexivity|].
  split; [apply (bool_decide_unpack _); vm_compute; reflexivity|].
  split; [vm_compute; reflexivity|].
  apply (candidate_details_from_first_source ex_engine ex_http sh_id
           ex_options ex_cands "tmdb:872585" ex_oppenheimer).
  - vm_compute. reflexivity.
  - apply od_get_Some_elem. vm_compute. reflexivity.
Defined.

Lemma aggregate_without_key_witness :
  tmdb_api_key ex_engine_nokey = "" ∧
  ∃ cands,
    (∀ http shuffle, aggregate ex_engine_nokey http shuffle ex_options
                     = Ok cands) ∧
    (use_watchlist ex_options = false → cands = []) ∧
    ∀ cid c, (cid, c) ∈ cands →
      c_sources c = {[ Watchlist ]} ∧ c_watchlist_users c ≠ ∅ ∧
      c_similar c = [] ∧ c_tmdb c = None ∧
      ∃ user data d,
        (user, data) ∈ user_data ex_engine_nokey ∧
        (cid, d) ∈ p_watchlist data ∧
        c_name c = default "Unknown" (w_name d).
Proof.
  split; [vm_compute; reflexivity|].
  apply (aggregate_without_key ex_engine_nokey ex_options).
  vm_compute. reflexivity.
Defined.




Lemma aggregate_size_witness :
  aggregate ex_engine ex_http sh_id ex_options = Ok ex_cands ∧
  candidate_bound ex_engine ex_http ex_options = 148 ∧
  length ex_cands ≤ candidate_bound ex_engine ex_http ex_options.
Proof.
  split; [vm_compute; reflexivity|].
  split; [vm_compute; reflexivity|].
  apply (aggregate_size ex_engine ex_http sh_id ex_options ex_cands).
  vm_compute. reflexivity.
Defined.

Lemma aggregate_enriched_witness :
  tmdb_api_key ex_engine ≠ "" ∧
  aggregate ex_engine ex_http sh_id ex_options = Ok ex_cands ∧
  enrich ex_engine ex_http ex_cands = ex_cands ∧
  ∀ cid c, (cid, c) ∈ ex_cands →
    (c_tmdb c = None →
     c_name c = "" ∨
     tmdb_search_movie ex_http (c_name c) (c_year c) (tmdb_api_key ex_engine)
     = None) ∧
    (is_Some (res_poster (format_result (discovery_weight ex_options) (cid, c))) →
     ∃ m path, c_tmdb c = Some m ∧ tm_poster_path m = Some path ∧ path ≠ "").
Proof.
  split; [vm_compute; discriminate|].
  split; [vm_compute; reflexivity|].
  apply (aggregate_enriched ex_engine ex_http sh_id ex_options ex_cands).
  - vm_compute. discriminate.
  - vm_compute. reflexivity.
Defined.

Lemma score_bounds_witness :
  (∀ u l, sh_id u l ≡ₚ l) ∧
  aggregate ex_engine ex_http sh_id ex_options = Ok ex_cands ∧
  ("tmdb:3", ex_barbie) ∈ ex_cands ∧
  (0 <= 1 # 2)%Q ∧
  c_sources ex_barbie = {[ Popular ]} ∧
  (inject_Z (Z.of_nat (wl_count ex_barbie)) * 100
   <= score_of (1 # 2) ex_barbie)%Q ∧
  (Watchlist ∈ c_sources ex_barbie → (100 <= score_of (1 # 2) ex_barbie)%Q) ∧
  (Similar ∈ c_sources ex_barbie →
   ((1 # 2) * 25 <= score_of (1 # 2) ex_barbie)%Q) ∧
  (c_sources ex_barbie = {[ Popular ]} →
   (score_of (1 # 2) ex_barbie == 0)%Q).
Proof.
  split; [by intros|].
  split; [vm_compute; reflexivity|].
  split; [apply od_get_Some_elem; vm_compute; reflexivity|].
  split; [vm_compute; discriminate|].
  split; [vm_compute; reflexivity|].
  apply (score_bounds ex_engine ex_http sh_id ex_options ex_cands "tmdb:3"
           ex_barbie (1 # 2)).
  - by intros.
  - vm_compute. reflexivity.
  - apply od_get_Some_elem. vm_compute. reflexivity.
  - vm_compute. discriminate.
Defined.


Lemma ex_raw_inner_keyed : slug_keyed ex_raw_inner.
Proof.
  split; [apply (bool_decide_unpack _); vm_compute; reflexivity|].
  intros s i Hin.
  repeat (apply elem_of_cons in Hin as [[= -> ->]|Hin];
          [split_and!; [done | done | vm_compute; auto]|]).
  by apply elem_of_nil in Hin.
Qed.

Lemma extract_movies_by_slug_fixed_witness :
  slug_keyed ex_raw_inner ∧ ("movies" ∉ ex_raw_inner.*1) ∧
  extract_movies_by_slug (DDict ex_raw_inner) = ex_raw_inner.
Proof.
  split; [exact ex_raw_inner_keyed|].
  split; [apply (bool_decide_unpack _); vm_compute; reflexivity|].
  apply (extract_movies_by_slug_fixed ex_raw_inner).
  - exact ex_raw_inner_keyed.
  - apply (bool_decide_unpack _). vm_compute. reflexivity.
Defined.

Lemma remove_user_drops_witness :
  NoDup (s_usernames ex_session) ∧
  remove_user "alice" ex_session
  = Ok {| s_usernames := ["bob"]; new_user_input := " carol " |} ∧
  remove_user "carol" ex_session
  = Ok {| s_usernames := filter (λ x, x ≠ "carol") (s_usernames ex_session);
          new_user_input := new_user_input ex_session |} ∧
  (str_strip (new_user_input ex_session) = "carol" → "carol" ≠ "" →
   "carol" ∉ s_usernames ex_session →
   remove_user "carol" (add_user ex_session)
   = Ok {| s_usernames := s_usernames ex_session; new_user_input := "" |}).
Proof.
  split; [apply (bool_decide_unpack _); vm_compute; reflexivity|].
  split; [vm_compute; reflexivity|].
  apply (remove_user_drops "carol" ex_session).
  apply (bool_decide_unpack _). vm_compute. reflexivity.
Defined.

Lemma selected_seeds_spec_witness :
  (∀ u l, sh_id u l ≡ₚ l) ∧
  length (selected_seeds sh_id "alice" ex_alice_profile) ≤ 6 ∧
  (length (collect_seeds ex_alice_profile) ≤ 6 →
   selected_seeds sh_id "alice" ex_alice_profile
   ≡ₚ collect_seeds ex_alice_profile) ∧
  ∀ sd, sd ∈ selected_seeds sh_id "alice" ex_alice_profile →
    (∃ slug e, (slug, e) ∈ p_ratings ex_alice_profile ∧ (8 ≤ r_score e)%Z ∧
               sd = rated_seed slug e) ∨
    (length (rated_seeds (p_ratings ex_alice_profile)) < 5 ∧
     ∃ slug, slug ∈ p_liked ex_alice_profile ∧
             (slug ∉ (p_ratings ex_alice_profile).*1) ∧
             sd = liked_seed slug).
Proof.
  split; [by intros|].
  apply (selected_seeds_spec sh_id "alice" ex_alice_profile).
  by intros.
Defined.

End Closed.

